(** * Futstar momentum trading: momentum index, position ledger, oracle monitor

    A shallow embedding of [backend/main.py] (the momentum calculator, the
    mock data generator, the momentum and the position endpoints) and of
    [backend/oracle_service.py] (the change validator, the per-match
    monitor loop and the status report), followed by the properties
    established about them.

    Conventions of the embedding:
    - a Python [float] is an IEEE-754 binary64 value, written as a
      [spec_float] of the Rocq core library and computed with its
      round-to-nearest-even operations at precision 53, [emax = 1024];
    - a Python [int] is a [Z];
    - a raised exception is the [Raise] branch of [result];
    - what the code reads from its environment (the clock, the random draws,
      the outcome of a network call) is an explicit argument;
    - a [dict] is a [gmap]; the objects the position dictionary refers to
      live in a heap of their own, so that in-place mutation and aliasing
      are visible. *)

From Stdlib Require Import ZArith Lia Bool.
From Stdlib Require Import Floats.SpecFloat.
From stdpp Require Import gmap strings list.

Local Open Scope Z_scope.

(** ** Python exceptions and fallible computations *)

Inductive exn : Type :=
  | ZeroDivisionError
  | ValueError
  | OverflowError
  | KeyError
  | HTTPException (status_code : Z) (detail : string).

Inductive result (A : Type) : Type :=
  | Ok (a : A)
  | Raise (e : exn).
Arguments Ok {A} a.
Arguments Raise {A} e.

Definition bind {A B : Type} (r : result A) (k : A -> result B) : result B :=
  match r with
  | Ok a => k a
  | Raise e => Raise e
  end.

Notation "x <-! r ; k" := (bind r (fun x => k))
  (at level 100, r at next level, right associativity, only parsing).

(** ** Python floats *)

Module PyFloat.

Definition prec : Z := 53.
Definition emax : Z := 1024.

(** The well-formed binary64 values. *)
Definition valid (x : spec_float) : Prop := valid_binary prec emax x = true.

Definition is_finite (x : spec_float) : bool :=
  match x with
  | S754_zero _ | S754_finite _ _ _ => true
  | _ => false
  end.

Definition is_zero (x : spec_float) : bool :=
  match x with
  | S754_zero _ => true
  | _ => false
  end.

(** An integer as the rational it denotes, before any rounding. *)
Definition exact (n : Z) : spec_float :=
  match n with
  | Z0 => S754_zero false
  | Zpos p => S754_finite false p 0
  | Zneg p => S754_finite true p 0
  end.

(** [float(n)] for an integer that the code mixes into float arithmetic. *)
Definition of_int (n : Z) : spec_float := binary_normalize prec emax n 0 false.

(** The float a decimal literal [n / 10^k] denotes: the nearest binary64. *)
Definition dec (n k : Z) : spec_float :=
  SFdiv prec emax (exact n) (exact (10 ^ k)).

Definition fadd : spec_float -> spec_float -> spec_float := SFadd prec emax.
Definition fmul : spec_float -> spec_float -> spec_float := SFmul prec emax.
Definition fneg : spec_float -> spec_float := SFopp.

(** [x / y] on floats: a zero divisor raises. *)
Definition truediv (x y : spec_float) : result spec_float :=
  if is_zero y then Raise ZeroDivisionError else Ok (SFdiv prec emax x y).

(** [a / b] on integers: the correctly rounded quotient, for integers of
    any size; a zero divisor raises, and so does a quotient beyond the
    float range. *)
Definition int_truediv (a b : Z) : result spec_float :=
  if b =? 0 then Raise ZeroDivisionError
  else
    let q := SFdiv prec emax (exact a) (exact b) in
    if is_finite q then Ok q else Raise OverflowError.

(** [x > 0] for a float [x]. *)
Definition gt_zero (x : spec_float) : bool := SFltb (S754_zero false) x.

(** [x <= 0] for a float [x]. *)
Definition le_zero (x : spec_float) : bool := SFleb x (S754_zero false).

(** [int(x)]: truncation toward zero; NaN and the infinities raise. *)
Definition py_int (x : spec_float) : result Z :=
  match x with
  | S754_nan => Raise ValueError
  | S754_infinity _ => Raise OverflowError
  | S754_zero _ => Ok 0
  | S754_finite s m e => Ok (cond_Zopp s (Z.shiftl (Zpos m) e))
  end.

(** Nearest integer to [n / d] for [d > 0], ties to the even one. *)
Definition round_half_even (n d : Z) : Z :=
  let q := n / d in
  match 2 * (n mod d) ?= d with
  | Lt => q
  | Eq => if Z.even q then q else q + 1
  | Gt => q + 1
  end.

(** [round(x, ndigits)] for [ndigits >= 0]: the exact value of [x] is
    rounded half-even to [ndigits] decimals, and the decimal obtained is
    read back as the nearest float.  NaN and the infinities round to
    themselves. *)
Definition py_round (x : spec_float) (ndigits : Z) : spec_float :=
  match x with
  | S754_finite s m e =>
      let scale := 10 ^ ndigits in
      let n := if 0 <=? e then Zpos m * scale * 2 ^ e
               else round_half_even (Zpos m * scale) (2 ^ (- e)) in
      match n with
      | Zpos p => SFdiv prec emax (S754_finite s p 0) (exact scale)
      | _ => S754_zero s
      end
  | _ => x
  end.

End PyFloat.

(** ** Python naive datetimes *)

Module PyTime.

(** A naive [datetime] is its number of microseconds since
    0001-01-01T00:00:00; [datetime.max] is 9999-12-31T23:59:59.999999. *)
Definition datetime : Type := Z.

Definition us_per_second : Z := 1000000.
Definition seconds_per_day : Z := 86400.
Definition MAXORDINAL : Z := 3652059.
Definition MAX_DELTA_DAYS : Z := 999999999.

Definition representable (t : Z) : bool :=
  (0 <=? t) && (t <? MAXORDINAL * seconds_per_day * us_per_second).

(** [timedelta(seconds=s)], as a number of microseconds. *)
Definition timedelta (s : Z) : result Z :=
  let days := s / seconds_per_day in
  if (days <? - MAX_DELTA_DAYS) || (MAX_DELTA_DAYS <? days)
  then Raise OverflowError
  else Ok (s * us_per_second).

(** [t + d] for a datetime [t] and a timedelta [d]. *)
Definition add (t : datetime) (d : Z) : result datetime :=
  if representable (t + d) then Ok (t + d) else Raise OverflowError.

End PyTime.

(** ** backend/main.py *)

Module Backend.
Import PyFloat.

(** *** Data models *)

Inductive PositionType : Type := LONG | SHORT.

Inductive MatchStatus : Type := SCHEDULED | LIVE | FINISHED | CANCELLED.

Record MatchData : Type := {
  md_match_id : string;
  md_home_team : string;
  md_away_team : string;
  md_status : MatchStatus;
  md_current_minute : Z;
  md_score_home : Z;
  md_score_away : Z
}.

Record TradingPosition : Type := {
  position_id : string;
  user_wallet : string;
  match_id : string;
  position_type : PositionType;
  amount : spec_float;
  entry_index : Z;
  entry_time : PyTime.datetime;
  window_duration : Z;
  is_settled : bool;
  pnl : option spec_float
}.

Record OpenPositionRequest : Type := {
  req_match_id : string;
  req_position_type : PositionType;
  req_amount : spec_float;
  req_wallet_address : string;
  req_window_duration : Z
}.

(** *** MomentumCalculator *)

(** A recent event is a dictionary; the code reads it with [e.get] and
    compares what it gets with strings, so a value that is not a string
    counts like a missing key. *)
Definition event : Type := gmap string string.

Definition get_is (e : event) (key value : string) : bool :=
  bool_decide (e !! key = Some value).

Definition dangerous (e : event) : bool :=
  get_is e "type" "shot" || get_is e "type" "corner"
  || get_is e "type" "dangerous_attack".

(** [sum(1 for e in l if f e)] *)
Fixpoint count_if {A : Type} (f : A -> bool) (l : list A) : Z :=
  match l with
  | [] => 0
  | x :: l' => (if f x then 1 else 0) + count_if f l'
  end.

(** [l[-n:]] *)
Definition last_n {A : Type} (n : nat) (l : list A) : list A :=
  drop (length l - n) l.

Definition event_score (recent_events : list event) : Z :=
  match recent_events with
  | [] => 5
  | _ =>
      let recent := last_n 10 recent_events in
      let recent_danger :=
        count_if (fun e => get_is e "team" "home" && dangerous e) recent
        - count_if (fun e => get_is e "team" "away" && dangerous e) recent in
      Z.max 0 (Z.min 10 (5 + recent_danger))
  end.

Definition shots_score (shots_home shots_away : Z) : result spec_float :=
  let total_shots := shots_home + shots_away in
  if total_shots >? 0 then
    r <-! int_truediv shots_home total_shots;
    Ok (fmul r (of_int 20))
  else Ok (of_int 10).

Definition xg_score (xg_home xg_away : spec_float) : result spec_float :=
  let total_xg := fadd xg_home xg_away in
  if gt_zero total_xg then
    r <-! truediv xg_home total_xg;
    Ok (fmul r (of_int 30))
  else Ok (of_int 15).

Definition field_tilt_score (field_tilt : spec_float) : result spec_float :=
  r <-! truediv (fadd field_tilt (of_int 100)) (of_int 200);
  Ok (fmul r (of_int 20)).

(** The sum of the five weighted terms and of the noise draw, before the
    conversion to an integer. *)
Definition noisy_momentum
    (possession : spec_float) (shots_home shots_away : Z)
    (xg_home xg_away field_tilt : spec_float)
    (recent_events : list event) (volatility : spec_float)
    : result spec_float :=
  let possession_score := fmul possession (dec 2 1) in
  s <-! shots_score shots_home shots_away;
  x <-! xg_score xg_home xg_away;
  t <-! field_tilt_score field_tilt;
  let momentum :=
    fadd (fadd (fadd (fadd possession_score s) x) t)
         (of_int (event_score recent_events)) in
  Ok (fadd momentum volatility).

(** [calculate_momentum]; [volatility] is the value [random.gauss(0, 2)]
    returns in this call. *)
Definition calculate_momentum
    (possession : spec_float) (shots_home shots_away : Z)
    (xg_home xg_away field_tilt : spec_float)
    (recent_events : list event) (volatility : spec_float)
    : result Z :=
  momentum <-! noisy_momentum possession shots_home shots_away
                 xg_home xg_away field_tilt recent_events volatility;
  n <-! py_int momentum;
  Ok (Z.max 0 (Z.min 100 n)).

(** *** In-memory storage

    [positions] maps a position id to a reference; the object referred to
    is [heap !! reference].  [open_position] allocates, [settle_position]
    mutates in place. *)

Record DataStore : Type := {
  matches : gmap string MatchData;
  heap : list TradingPosition;
  positions : gmap string nat;
  user_positions : gmap string (list string)
}.

(** What one call reads from outside the store: the clock and the index of
    the momentum sample [generate_momentum_data] produces in this call;
    for [open_position] also the id built from the clock. *)
Record open_env : Type := {
  oe_position_id : string;
  oe_now : PyTime.datetime;
  oe_momentum_index : Z
}.

Record settle_env : Type := {
  se_now : PyTime.datetime;
  se_momentum_index : Z
}.

(** [open_position]: a new position object is allocated, stored under its
    id (an existing entry of that id is overwritten), and its id appended
    to the list of the wallet. *)
Definition open_position (s : DataStore) (request : OpenPositionRequest)
    (env : open_env) : result (DataStore * TradingPosition) :=
  match matches s !! req_match_id request with
  | None => Raise (HTTPException 404 "Match not found")
  | Some _ =>
      let position := {|
        position_id := oe_position_id env;
        user_wallet := req_wallet_address request;
        match_id := req_match_id request;
        position_type := req_position_type request;
        amount := req_amount request;
        entry_index := oe_momentum_index env;
        entry_time := oe_now env;
        window_duration := req_window_duration request;
        is_settled := false;
        pnl := None |} in
      let ref := length (heap s) in
      let wallet := req_wallet_address request in
      Ok ({| matches := matches s;
             heap := heap s ++ [position];
             positions := <[position_id position := ref]> (positions s);
             user_positions :=
               <[wallet := default [] (user_positions s !! wallet)
                           ++ [position_id position]]> (user_positions s) |},
          position)
  end.

(** The object a position id refers to. *)
Definition deref (s : DataStore) (pid : string) : option TradingPosition :=
  ref ← positions s !! pid; heap s !! ref.

Definition get_position (s : DataStore) (pid : string)
    : result TradingPosition :=
  match deref s pid with
  | None => Raise (HTTPException 404 "Position not found")
  | Some position => Ok position
  end.

Definition get_user_positions (s : DataStore) (wallet_address : string)
    : list TradingPosition :=
  omap (deref s) (default [] (user_positions s !! wallet_address)).

Record SettleResponse : Type := {
  resp_position_id : string;
  resp_pnl : spec_float;
  resp_entry_index : Z;
  resp_exit_index : Z;
  resp_momentum_change : Z
}.

(** The profit or loss of a position before the final rounding. *)
Definition raw_pnl (position : TradingPosition) (momentum_change : Z)
    : result spec_float :=
  match position_type position with
  | LONG =>
      if momentum_change >? 0 then
        profit_multiplier <-! int_truediv (Z.abs momentum_change) 100;
        Ok (fmul (fmul (amount position) profit_multiplier) (dec 98 2))
      else Ok (fneg (amount position))
  | SHORT =>
      if momentum_change <? 0 then
        profit_multiplier <-! int_truediv (Z.abs momentum_change) 100;
        Ok (fmul (fmul (amount position) profit_multiplier) (dec 98 2))
      else Ok (fneg (amount position))
  end.

Definition mark_settled (position : TradingPosition) (p : spec_float)
    : TradingPosition :=
  {| position_id := position_id position;
     user_wallet := user_wallet position;
     match_id := match_id position;
     position_type := position_type position;
     amount := amount position;
     entry_index := entry_index position;
     entry_time := entry_time position;
     window_duration := window_duration position;
     is_settled := true;
     pnl := Some p |}.

(** [settle_position].  The checks come in the order of the code: unknown
    id, already settled, window not ended; then the match is looked up, the
    PnL computed, and the position object updated in place.  A reference
    found in [positions] always points into the heap, so the [KeyError] of
    the second match stands for no run of the code. *)
Definition settle_position (s : DataStore) (pid : string) (env : settle_env)
    : result (DataStore * SettleResponse) :=
  match positions s !! pid with
  | None => Raise (HTTPException 404 "Position not found")
  | Some ref =>
      match heap s !! ref with
      | None => Raise KeyError
      | Some position =>
          if is_settled position
          then Raise (HTTPException 400 "Position already settled")
          else
            delta <-! PyTime.timedelta (window_duration position);
            window_end <-! PyTime.add (entry_time position) delta;
            if se_now env <? window_end
            then Raise (HTTPException 400 "Trading window not ended")
            else
              match matches s !! match_id position with
              | None => Raise KeyError
              | Some _ =>
                  let momentum_change :=
                    se_momentum_index env - entry_index position in
                  p <-! raw_pnl position momentum_change;
                  let settled := mark_settled position (py_round p 4) in
                  Ok ({| matches := matches s;
                         heap := <[ref := settled]> (heap s);
                         positions := positions s;
                         user_positions := user_positions s |},
                      {| resp_position_id := pid;
                         resp_pnl := py_round p 4;
                         resp_entry_index := entry_index position;
                         resp_exit_index := se_momentum_index env;
                         resp_momentum_change := momentum_change |})
              end
      end
  end.

(** The calls of the position API and the store each leaves behind; a call
    that raises leaves the store as it was. *)
Inductive call : Type :=
  | OpenPosition (request : OpenPositionRequest) (env : open_env)
  | SettlePosition (pid : string) (env : settle_env)
  | GetPosition (pid : string)
  | GetUserPositions (wallet_address : string).

Definition step (s : DataStore) (c : call) : DataStore :=
  match c with
  | OpenPosition request env =>
      match open_position s request env with
      | Ok (s', _) => s'
      | Raise _ => s
      end
  | SettlePosition pid env =>
      match settle_position s pid env with
      | Ok (s', _) => s'
      | Raise _ => s
      end
  | GetPosition _ | GetUserPositions _ => s
  end.

Definition run (s : DataStore) (cs : list call) : DataStore :=
  foldl step s cs.

(** [DataStore()] followed by [initialize_mock_data()]. *)
Definition mock_match (id home away : string) (minute sh sa : Z) : MatchData :=
  {| md_match_id := id; md_home_team := home; md_away_team := away;
     md_status := LIVE; md_current_minute := minute;
     md_score_home := sh; md_score_away := sa |}.

Definition data_store : DataStore :=
  {| matches :=
       <["match_001" := mock_match "match_001" "arsenal" "tottenham" 35 2 1]>
       (<["match_002" := mock_match "match_002" "liverpool" "mancity" 67 1 2]>
       (<["match_003" := mock_match "match_003" "barcelona" "realmadrid" 22 0 0]>
        ∅));
     heap := [];
     positions := ∅;
     user_positions := ∅ |}.

End Backend.

(** ** backend/oracle_service.py *)

Module Oracle.

Record MatchMomentum : Type := {
  mm_match_id : string;
  momentum_index : Z;
  possession : spec_float;
  shots_home : Z;
  shots_away : Z;
  xg_home : spec_float;
  xg_away : spec_float;
  timestamp : PyTime.datetime
}.

Record UpdateRecord : Type := {
  ur_match_id : string;
  ur_momentum_index : Z;
  ur_timestamp : PyTime.datetime;
  ur_tx_signature : string
}.

(** The fields of [MomentumOracle] the monitor reads and writes. *)
Record MomentumOracle : Type := {
  active_matches : gmap string MatchMomentum;
  update_history : list UpdateRecord
}.

(** The locals of one [monitor_match] task. *)
Record MonitorState : Type := {
  last_momentum : Z;
  consecutive_failures : Z
}.

Definition max_failures : Z := 5.
Definition default_max_change : Z := 20.

(** What [fetch_match_data] yields in one tick: a reading, [None], or an
    exception that reaches the [except] clause of the loop body. *)
Inductive fetch_outcome : Type :=
  | Fetched (momentum_data : MatchMomentum)
  | FetchedNone
  | FetchRaises.

(** The environment of one tick: the fetch outcome, whether the body of
    [update_momentum_on_chain] runs to its [return True], and the clock. *)
Record tick_env : Type := {
  te_fetch : fetch_outcome;
  te_publish_ok : bool;
  te_now : PyTime.datetime
}.

(** [base58.b58encode]: one character ['1'] for each leading zero byte,
    then the digits in base 58 of the number the bytes spell, most
    significant first, in the Bitcoin alphabet. *)
Definition b58_alphabet : string :=
  "123456789ABCDEFGHJKLMNPQRSTUVWXYZabcdefghijkmnopqrstuvwxyz".

Definition b58_char (digit : Z) : string :=
  String.substring (Z.to_nat digit) 1 b58_alphabet.

Fixpoint b58_digits (fuel : nat) (n : Z) (acc : string) : string :=
  match fuel with
  | O => acc
  | S fuel' =>
      if n =? 0 then acc
      else b58_digits fuel' (n / 58) (String.append (b58_char (n mod 58)) acc)
  end.

Fixpoint b58_leading (bs : list Z) : string :=
  match bs with
  | 0 :: bs' => String.append "1" (b58_leading bs')
  | _ => EmptyString
  end.

Definition b58encode (bs : list Z) : string :=
  let n := foldl (fun acc b => acc * 256 + b) 0 bs in
  String.append (b58_leading bs) (b58_digits (8 * length bs) n EmptyString).

(** The simulated transaction reference, one constant string in the code:
    [base58.b58encode(bytes(range(64))).decode('utf-8')]. *)
Definition tx_signature : string :=
  Eval vm_compute in b58encode (Z.of_nat <$> seq 0 64).

Definition update_momentum_on_chain (o : MomentumOracle) (match_id : string)
    (index : Z) (ok : bool) (now : PyTime.datetime) : MomentumOracle * bool :=
  if ok then
    let history :=
      update_history o ++
      [{| ur_match_id := match_id; ur_momentum_index := index;
          ur_timestamp := now; ur_tx_signature := tx_signature |}] in
    ({| active_matches := active_matches o;
        update_history :=
          if (100 <? Z.of_nat (length history))
          then Backend.last_n 100 history else history |},
     true)
  else (o, false).

Definition validate_momentum_change (old_index new_index max_change : Z)
    : bool :=
  let change := Z.abs (new_index - old_index) in
  if change >? max_change then false else true.

Definition failed (st : MonitorState) : MonitorState :=
  {| last_momentum := last_momentum st;
     consecutive_failures := consecutive_failures st + 1 |}.

(** One iteration of the [while] body of [monitor_match]. *)
Definition monitor_tick (match_id : string) (o : MomentumOracle)
    (st : MonitorState) (env : tick_env) : MomentumOracle * MonitorState :=
  match te_fetch env with
  | Fetched momentum_data =>
      if validate_momentum_change (last_momentum st)
           (momentum_index momentum_data) default_max_change
      then
        let '(o', success) :=
          update_momentum_on_chain o match_id
            (momentum_index momentum_data) (te_publish_ok env) (te_now env) in
        if success then
          ({| active_matches :=
                <[match_id := momentum_data]> (active_matches o');
              update_history := update_history o' |},
           {| last_momentum := momentum_index momentum_data;
              consecutive_failures := 0 |})
        else (o', failed st)
      else (o, st)
  | FetchedNone => (o, failed st)
  | FetchRaises => (o, failed st)
  end.

Inductive monitor_status : Type := Monitoring | Stopped.

(** Where a monitor is once the environments it was given are used up or
    its loop has exited: the oracle, its locals, the environments it never
    consumed, and whether it is still in the loop. *)
Record monitor_run : Type := {
  mr_oracle : MomentumOracle;
  mr_state : MonitorState;
  mr_unconsumed : list tick_env;
  mr_status : monitor_status
}.

(** The [while] loop of [monitor_match] and the removal that follows it,
    driven by the environments of the successive ticks. *)
Fixpoint monitor_loop (match_id : string) (envs : list tick_env)
    (o : MomentumOracle) (st : MonitorState) : monitor_run :=
  if consecutive_failures st <? max_failures then
    match envs with
    | [] => {| mr_oracle := o; mr_state := st;
               mr_unconsumed := []; mr_status := Monitoring |}
    | env :: envs' =>
        let '(o', st') := monitor_tick match_id o st env in
        monitor_loop match_id envs' o' st'
    end
  else
    {| mr_oracle := {| active_matches := delete match_id (active_matches o);
                       update_history := update_history o |};
       mr_state := st;
       mr_unconsumed := envs;
       mr_status := Stopped |}.

Definition initial_state : MonitorState :=
  {| last_momentum := 50; consecutive_failures := 0 |}.

Definition monitor_match (match_id : string) (envs : list tick_env)
    (o : MomentumOracle) : monitor_run :=
  monitor_loop match_id envs o initial_state.

(** The matches for which one round of [run] creates a monitor task. *)
Definition discovered (o : MomentumOracle) (live_matches : list string)
    : list string :=
  List.filter (fun match_id => bool_decide (active_matches o !! match_id = None))
    live_matches.

End Oracle.

(** * The rest of the two services *)

(** ** Python slices *)

Module PySlice.

(** [l[start:]]: a negative [start] counts from the end, and a [start]
    outside the list is clipped to it. *)
Definition slice_from {A : Type} (start : Z) (l : list A) : list A :=
  let n := Z.of_nat (length l) in
  let i := if start <? 0 then Z.max 0 (start + n) else Z.min start n in
  drop (Z.to_nat i) l.

End PySlice.

(** ** backend/main.py: the mock data generator and the momentum endpoints *)

Module Generator.
Import PyFloat Backend.

Record MomentumData : Type := {
  mo_timestamp : PyTime.datetime;
  mo_momentum_index : Z;
  mo_possession : spec_float;
  mo_shots_home : Z;
  mo_shots_away : Z;
  mo_xg_home : spec_float;
  mo_xg_away : spec_float;
  mo_field_tilt : spec_float;
  mo_danger_home : spec_float;
  mo_danger_away : spec_float
}.

(** What one call of [generate_momentum_data] reads from outside: the value
    each call of [random.gauss] and of [random.uniform] returns, in the
    order of the calls (the last one is made inside [calculate_momentum]),
    and the clock. *)
Record draws : Type := {
  gauss_possession : spec_float;
  gauss_shots_home : spec_float;
  gauss_shots_away : spec_float;
  uniform_xg_home : spec_float;
  uniform_xg_away : spec_float;
  gauss_field_tilt : spec_float;
  uniform_danger_home : spec_float;
  uniform_danger_away : spec_float;
  gauss_volatility : spec_float;
  draw_now : PyTime.datetime
}.

(** [needle in hay] on strings. *)
Fixpoint contains (needle hay : string) : bool :=
  if String.prefix needle hay then true
  else match hay with
       | EmptyString => false
       | String _ hay' => contains needle hay'
       end.

Definition fsub : spec_float -> spec_float -> spec_float := SFsub prec emax.

(** [min(c, x)] for an integer constant [c] and a float [x]: [x] is taken
    when [x < c]. *)
Definition py_min (c : Z) (x : spec_float) : spec_float :=
  if SFltb x (of_int c) then x else of_int c.

(** [max(c, x)]: [x] is taken when [x > c]. *)
Definition py_max (c : Z) (x : spec_float) : spec_float :=
  if SFltb (of_int c) x then x else of_int c.

(** The float an integer becomes when it meets a float in an arithmetic
    operation; an integer beyond the float range raises. *)
Definition float_of_int (n : Z) : result spec_float :=
  let x := of_int n in
  if is_finite x then Ok x else Raise OverflowError.

Definition base_possession (match_id : string) (d : draws) : spec_float :=
  let base := fadd (of_int 50) (gauss_possession d) in
  if contains "arsenal" match_id then fadd base (of_int 5)
  else if contains "mancity" match_id then fsub base (of_int 8)
  else base.

(** [generate_momentum_data].  The means handed to the two [random.gauss]
    calls for the shots are computed as in the code; they reach the result
    only through the values those calls return. *)
Definition generate_momentum_data (match_id : string) (minute : Z)
    (d : draws) : result MomentumData :=
  let possession := py_max 30 (py_min 70 (base_possession match_id d)) in
  minute_f <-! float_of_int minute;
  share_home <-! truediv possession (of_int 50);
  let mean_home := fmul (fmul minute_f (dec 15 2)) share_home in
  n_home <-! py_int (gauss_shots_home d);
  let shots_home := Z.max 0 n_home in
  share_away <-! truediv (fsub (of_int 100) possession) (of_int 50);
  let mean_away := fmul (fmul minute_f (dec 15 2)) share_away in
  n_away <-! py_int (gauss_shots_away d);
  let shots_away := Z.max 0 n_away in
  f_home <-! float_of_int shots_home;
  let xg_home := fmul f_home (uniform_xg_home d) in
  f_away <-! float_of_int shots_away;
  let xg_away := fmul f_away (uniform_xg_away d) in
  let field_tilt :=
    fadd (fmul (fsub possession (of_int 50)) (of_int 2))
         (gauss_field_tilt d) in
  part_home <-! truediv possession (of_int 100);
  let danger_home := fmul part_home (uniform_danger_home d) in
  part_away <-! truediv (fsub (of_int 100) possession) (of_int 100);
  let danger_away := fmul part_away (uniform_danger_away d) in
  momentum_index <-! calculate_momentum possession shots_home shots_away
                       xg_home xg_away field_tilt [] (gauss_volatility d);
  Ok {| mo_timestamp := draw_now d;
        mo_momentum_index := momentum_index;
        mo_possession := possession;
        mo_shots_home := shots_home;
        mo_shots_away := shots_away;
        mo_xg_home := py_round xg_home 2;
        mo_xg_away := py_round xg_away 2;
        mo_field_tilt := py_round field_tilt 1;
        mo_danger_home := py_round danger_home 2;
        mo_danger_away := py_round danger_away 2 |}.

End Generator.

Module Api.
Import PyFloat Backend Generator.

(** The data store with the momentum histories the position calls leave
    alone. *)
Record ApiStore : Type := {
  ledger : DataStore;
  momentum_history : gmap string (list MomentumData)
}.

(** [DataStore()] followed by [initialize_mock_data()]: every match starts
    with an empty history. *)
Definition api_store : ApiStore :=
  {| ledger := data_store;
     momentum_history := (fun _ => []) <$> matches data_store |}.

Definition get_match (s : ApiStore) (match_id : string) : result MatchData :=
  match matches (ledger s) !! match_id with
  | None => Raise (HTTPException 404 "Match not found")
  | Some m => Ok m
  end.

Definition get_current_momentum (s : ApiStore) (match_id : string)
    (d : draws) : result (ApiStore * MomentumData) :=
  match matches (ledger s) !! match_id with
  | None => Raise (HTTPException 404 "Match not found")
  | Some m =>
      momentum <-! generate_momentum_data match_id (md_current_minute m) d;
      match momentum_history s !! match_id with
      | None => Raise KeyError
      | Some history =>
          Ok ({| ledger := ledger s;
                 momentum_history :=
                   <[match_id := history ++ [momentum]]>
                     (momentum_history s) |},
              momentum)
      end
  end.

Definition get_momentum_history (s : ApiStore) (match_id : string)
    (limit : Z) : result (list MomentumData) :=
  match matches (ledger s) !! match_id with
  | None => Raise (HTTPException 404 "Match not found")
  | Some _ =>
      let history := default [] (momentum_history s !! match_id) in
      match history with
      | [] => Ok []
      | _ => Ok (PySlice.slice_from (- limit) history)
      end
  end.

(** [open_position] with the momentum sample generated in the call; the
    first clock reading makes the id, the second the entry time. *)
Definition open_position (s : ApiStore) (request : OpenPositionRequest)
    (position_id : string) (now : PyTime.datetime) (d : draws)
    : result (ApiStore * TradingPosition) :=
  match matches (ledger s) !! req_match_id request with
  | None => Raise (HTTPException 404 "Match not found")
  | Some m =>
      current_momentum <-!
        generate_momentum_data (req_match_id request) (md_current_minute m) d;
      r <-! Backend.open_position (ledger s) request
              {| oe_position_id := position_id; oe_now := now;
                 oe_momentum_index := mo_momentum_index current_momentum |};
      Ok ({| ledger := fst r; momentum_history := momentum_history s |},
          snd r)
  end.

(** [settle_position] with the momentum sample generated in the call, which
    is generated only once the three checks have passed. *)
Definition settle_position (s : ApiStore) (pid : string)
    (now : PyTime.datetime) (d : draws)
    : result (ApiStore * SettleResponse) :=
  match positions (ledger s) !! pid with
  | None => Raise (HTTPException 404 "Position not found")
  | Some ref =>
      match heap (ledger s) !! ref with
      | None => Raise KeyError
      | Some position =>
          if is_settled position
          then Raise (HTTPException 400 "Position already settled")
          else
            delta <-! PyTime.timedelta (window_duration position);
            window_end <-! PyTime.add (entry_time position) delta;
            if now <? window_end
            then Raise (HTTPException 400 "Trading window not ended")
            else
              match matches (ledger s) !! match_id position with
              | None => Raise KeyError
              | Some m =>
                  current_momentum <-!
                    generate_momentum_data (match_id position)
                      (md_current_minute m) d;
                  r <-! Backend.settle_position (ledger s) pid
                          {| se_now := now;
                             se_momentum_index :=
                               mo_momentum_index current_momentum |};
                  Ok ({| ledger := fst r;
                         momentum_history := momentum_history s |},
                      snd r)
              end
      end
  end.

Inductive api_call : Type :=
  | CurrentMomentum (match_id : string) (d : draws)
  | MomentumHistory (match_id : string) (limit : Z)
  | Open (request : OpenPositionRequest) (position_id : string)
      (now : PyTime.datetime) (d : draws)
  | Settle (pid : string) (now : PyTime.datetime) (d : draws)
  | Position (pid : string)
  | UserPositions (wallet_address : string).

(** The store a call leaves behind; a call that raises leaves it as it
    was. *)
Definition api_step (s : ApiStore) (c : api_call) : ApiStore :=
  match c with
  | CurrentMomentum match_id d =>
      match get_current_momentum s match_id d with
      | Ok (s', _) => s'
      | Raise _ => s
      end
  | Open request position_id now d =>
      match open_position s request position_id now d with
      | Ok (s', _) => s'
      | Raise _ => s
      end
  | Settle pid now d =>
      match settle_position s pid now d with
      | Ok (s', _) => s'
      | Raise _ => s
      end
  | MomentumHistory _ _ | Position _ | UserPositions _ => s
  end.

Definition api_run (s : ApiStore) (cs : list api_call) : ApiStore :=
  foldl api_step s cs.

End Api.

(** ** backend/oracle_service.py: the status report *)

Module OracleStatus.
Import Oracle.

Record MatchStatusLine : Type := {
  sl_momentum_index : Z;
  sl_last_update : PyTime.datetime
}.

Record Status : Type := {
  oracle_pubkey : string;
  status_active_matches : nat;
  status_matches : gmap string MatchStatusLine;
  recent_updates : list UpdateRecord;
  uptime : spec_float
}.

(** [get_status]; the public key of the oracle and the reading of
    [time.time()] come from outside. *)
Definition get_status (o : MomentumOracle) (pubkey : string)
    (time : spec_float) : Status :=
  {| oracle_pubkey := pubkey;
     status_active_matches := size (active_matches o);
     status_matches :=
       (fun data => {| sl_momentum_index := momentum_index data;
                       sl_last_update := timestamp data |})
       <$> active_matches o;
     recent_updates := PySlice.slice_from (-10) (update_history o);
     uptime := time |}.

(** The [/history] endpoint. *)
Definition get_history (o : MomentumOracle) : list UpdateRecord :=
  update_history o.

End OracleStatus.

(** * Vocabulary of the statements *)

(** ** Floats: magnitudes *)

Module FloatSpec.
Import PyFloat.

(** [below k x]: [x] is finite, of magnitude below [2^k], and its exponent
    fits the format. *)
Definition below (k : Z) (x : spec_float) : Prop :=
  match x with
  | S754_zero _ => True
  | S754_finite _ m e => Zpos m < 2 ^ (k - e) /\ e <= emax - prec
  | _ => False
  end.

(** [above j x]: [x] is infinite, or finite of magnitude at least [2^j]. *)
Definition above (j : Z) (x : spec_float) : Prop :=
  match x with
  | S754_finite _ m e => 2 ^ (j - e) <= Zpos m
  | S754_infinity _ => True
  | _ => False
  end.

(** The finite floats that are [>= 0] (a zero of either sign included). *)
Definition nonneg (x : spec_float) : Prop :=
  match x with
  | S754_zero _ => True
  | S754_finite false _ _ => True
  | _ => False
  end.

(** The exponent of a finite [x] is not below the least exponent [emin]. *)
Definition exponent_ok (x : spec_float) : Prop :=
  match x with
  | S754_finite _ _ e => emin prec emax <= e
  | _ => True
  end.

(** The exponent of a finite [x] is at most 0, as for every constant of
    magnitude below [2^53]. *)
Definition exponent_nonpos (x : spec_float) : Prop :=
  match x with
  | S754_finite _ _ e => e <= 0
  | _ => True
  end.

(** [magnitude_below k x]: [x] is finite and [|x| < 2^k]; for a finite [x]
    of mantissa [m] and exponent [e] this reads [m < 2^(k - e)]. *)
Definition magnitude_below (k : Z) (x : spec_float) : Prop :=
  match x with
  | S754_zero _ => True
  | S754_finite _ m e => Zpos m < 2 ^ (k - e)
  | _ => False
  end.

End FloatSpec.

(** ** The momentum calculator: sample snapshots *)

Module MomentumSpec.
Import PyFloat Backend.

Definition zero : spec_float := S754_zero false.

(** [sys.float_info.max] *)
Definition max_float : spec_float := S754_finite false (2 ^ 53 - 1) 971.

Definition nan : spec_float := S754_nan.
Definition inf : spec_float := S754_infinity false.

Definition sample_events : list event :=
  [ {[ "team" := "home"; "type" := "shot" ]};
    {[ "team" := "away"; "type" := "pass" ]};
    {[ "team" := "home"; "type" := "corner" ]} ].

End MomentumSpec.

(** ** The oracle monitor *)

Module OracleSpec.
Import Oracle.

(** *** Sample ticks *)

Definition sample_reading (index : Z) : MatchMomentum :=
  {| mm_match_id := "match_001"; momentum_index := index;
     possession := PyFloat.of_int 55; shots_home := 4; shots_away := 3;
     xg_home := PyFloat.dec 62 2; xg_away := PyFloat.dec 41 2;
     timestamp := 63929295900000000 |}.

(** A tick whose fetch yields a reading of the given index. *)
Definition sample_env (index : Z) (publish_ok : bool) : tick_env :=
  {| te_fetch := Fetched (sample_reading index);
     te_publish_ok := publish_ok;
     te_now := 63929295905000000 |}.

(** A tick whose fetch yields no reading. *)
Definition no_reading_env (raises : bool) : tick_env :=
  {| te_fetch := if raises then FetchRaises else FetchedNone;
     te_publish_ok := true;
     te_now := 63929295905000000 |}.

Definition empty_oracle : MomentumOracle :=
  {| active_matches := ∅; update_history := [] |}.

Definition two_failures : MonitorState :=
  {| last_momentum := 50; consecutive_failures := 2 |}.

(** *** Ticks and runs *)

Definition no_reading (env : tick_env) : Prop :=
  match te_fetch env with
  | Fetched _ => False
  | FetchedNone | FetchRaises => True
  end.

(** The locals of a monitor after [n] more ticks without a reading. *)
Definition after_failures (st : MonitorState) (n : nat) : MonitorState :=
  {| last_momentum := last_momentum st;
     consecutive_failures := consecutive_failures st + Z.of_nat n |}.

(** A tick that counts as a failure for a monitor whose trusted index is
    [trusted]: the fetch brings no reading, or it brings one that passes
    the validation and whose publication fails. *)
Definition failing (trusted : Z) (env : tick_env) : Prop :=
  match te_fetch env with
  | Fetched momentum_data =>
      validate_momentum_change trusted (momentum_index momentum_data)
        default_max_change = true
      /\ te_publish_ok env = false
  | FetchedNone | FetchRaises => True
  end.

(** A monitor in its loop, with every tick offered so far consumed. *)
Definition in_loop (o : MomentumOracle) (st : MonitorState) : monitor_run :=
  {| mr_oracle := o; mr_state := st;
     mr_unconsumed := []; mr_status := Monitoring |}.

(** A monitor that left its loop with the locals [st]: its match is out of
    the active set, and the ticks in [rest] were never run. *)
Definition stopped (match_id : string) (o : MomentumOracle)
    (st : MonitorState) (rest : list tick_env) : monitor_run :=
  {| mr_oracle := {| active_matches := delete match_id (active_matches o);
                     update_history := update_history o |};
     mr_state := st; mr_unconsumed := rest; mr_status := Stopped |}.

(** The failure counter after a tick whose fetch succeeded. *)
Definition counter_after_reading (st : MonitorState) (index : Z)
    (publish_ok : bool) : Z :=
  if validate_momentum_change (last_momentum st) index default_max_change
  then if publish_ok then 0 else consecutive_failures st + 1
  else consecutive_failures st.

(** The record a successful publication appends. *)
Definition update_record (match_id : string) (index : Z)
    (now : PyTime.datetime) : UpdateRecord :=
  {| ur_match_id := match_id; ur_momentum_index := index;
     ur_timestamp := now; ur_tx_signature := tx_signature |}.

(** What a finished or interrupted run looks like. *)
Record run_shape (match_id : string) (r : monitor_run) : Prop := {
  rs_counter : 0 <= consecutive_failures (mr_state r) <= max_failures;
  rs_stopped :
    consecutive_failures (mr_state r) = max_failures <-> mr_status r = Stopped;
  rs_removed :
    mr_status r = Stopped -> active_matches (mr_oracle r) !! match_id = None;
  rs_consumed :
    mr_status r = Monitoring -> mr_unconsumed r = []
}.

End OracleSpec.

(** ** The position ledger *)

Module BackendSpec.
Import PyFloat Backend.

(** *** Sample requests and stores *)

(** 2026-11-03T09:45:00, and two later instants: one second before a window
    of 300 seconds ends, and its end. *)
Definition t_open : PyTime.datetime := 63929295900000000.
Definition t_early : PyTime.datetime := t_open + 299 * PyTime.us_per_second.
Definition t_due : PyTime.datetime := t_open + 300 * PyTime.us_per_second.

Definition sample_id : string := "pos_1793699100.0".

Definition sample_request (direction : PositionType) (amount : spec_float)
    (window : Z) : OpenPositionRequest :=
  {| req_match_id := "match_001"; req_position_type := direction;
     req_amount := amount; req_wallet_address := "wallet_A";
     req_window_duration := window |}.

Definition sample_open_env (index : Z) : open_env :=
  {| oe_position_id := sample_id; oe_now := t_open;
     oe_momentum_index := index |}.

Definition settle_at (now : PyTime.datetime) (index : Z) : settle_env :=
  {| se_now := now; se_momentum_index := index |}.

(** The store after one [open_position] on the initial store. *)
Definition opened (direction : PositionType) (amount : spec_float)
    (window entry : Z) : DataStore :=
  step data_store
    (OpenPosition (sample_request direction amount window)
       (sample_open_env entry)).

Definition sample_calls : list call :=
  [OpenPosition (sample_request LONG (of_int 100) 300) (sample_open_env 40);
   SettlePosition sample_id (settle_at t_early 60);
   SettlePosition sample_id (settle_at t_due 60);
   GetPosition sample_id;
   GetUserPositions "wallet_A"].

(** *** Positions and stores *)

(** The position [open_position] creates for a request. *)
Definition fresh_position (request : OpenPositionRequest) (env : open_env)
    : TradingPosition :=
  {| position_id := oe_position_id env;
     user_wallet := req_wallet_address request;
     match_id := req_match_id request;
     position_type := req_position_type request;
     amount := req_amount request;
     entry_index := oe_momentum_index env;
     entry_time := oe_now env;
     window_duration := req_window_duration request;
     is_settled := false;
     pnl := None |}.

(** The store after the object at [ref] was settled with the raw PnL [p]. *)
Definition settled_store (s : DataStore) (ref : nat)
    (position : TradingPosition) (p : spec_float) : DataStore :=
  {| matches := matches s;
     heap := <[ref := mark_settled position (py_round p 4)]> (heap s);
     positions := positions s;
     user_positions := user_positions s |}.

(** The terms of a position: everything but the settled flag and the PnL. *)
Definition same_terms (p p' : TradingPosition) : Prop :=
  position_id p' = position_id p
  /\ user_wallet p' = user_wallet p
  /\ match_id p' = match_id p
  /\ position_type p' = position_type p
  /\ amount p' = amount p
  /\ entry_index p' = entry_index p
  /\ entry_time p' = entry_time p
  /\ window_duration p' = window_duration p.

Definition pnl_iff_settled (p : TradingPosition) : Prop :=
  pnl p <> None <-> is_settled p = true.

(** Every position object of the store has a PnL exactly when it is
    settled. *)
Definition ledger_invariant (s : DataStore) : Prop :=
  forall (ref : nat) (p : TradingPosition),
    heap s !! ref = Some p -> pnl_iff_settled p.

(** Every id refers to an object of the heap, and every object names a
    known match and an entry index between 0 and 100. *)
Definition well_formed (s : DataStore) : Prop :=
  (forall (pid : string) (ref : nat),
      positions s !! pid = Some ref -> is_Some (heap s !! ref))
  /\ (forall (ref : nat) (p : TradingPosition),
        heap s !! ref = Some p ->
        is_Some (matches s !! match_id p) /\ 0 <= entry_index p <= 100).

(** The momentum index a call is given is one [calculate_momentum] can
    return. *)
Definition index_in_range (c : call) : Prop :=
  match c with
  | OpenPosition _ env => 0 <= oe_momentum_index env <= 100
  | SettlePosition _ env => 0 <= se_momentum_index env <= 100
  | GetPosition _ | GetUserPositions _ => True
  end.

(** *** PnL *)

(** Whether the direction of a position is the one the index moved in. *)
Definition wins (direction : PositionType) (momentum_change : Z) : bool :=
  match direction with
  | LONG => momentum_change >? 0
  | SHORT => momentum_change <? 0
  end.

(** The PnL of the winning side before rounding. *)
Definition profit (position : TradingPosition) (momentum_change : Z)
    : spec_float :=
  fmul (fmul (amount position)
          (SFdiv prec emax (exact (Z.abs momentum_change)) (exact 100)))
       (dec 98 2).

(** The PnL a call to [settle_position] stores in the position, if the call
    succeeds. *)
Definition stored_pnl (s : DataStore) (pid : string) (env : settle_env)
    : option spec_float :=
  match settle_position s pid env with
  | Ok (s', _) => position ← deref s' pid; pnl position
  | Raise _ => None
  end.

End BackendSpec.

(** ** Recent events *)

Module EventSpec.
Import Backend.

(** The event seen from the other side: home becomes away, away home. *)
Definition mirror (e : event) : event :=
  if get_is e "team" "home" then <["team" := "away"]> e
  else if get_is e "team" "away" then <["team" := "home"]> e
  else e.

Definition home_shot : event := {["team" := "home"; "type" := "shot"]}.
Definition away_corner : event := {["team" := "away"; "type" := "corner"]}.

End EventSpec.

(** ** Generated samples *)

Module GeneratorSpec.
Import PyFloat Backend Generator.

(** [lo <= x <= hi] as Python compares them; false for NaN. *)
Definition in_band (lo hi : Z) (x : spec_float) : Prop :=
  SFleb (of_int lo) x = true /\ SFleb x (of_int hi) = true.

(** The exceptions [int] raises. *)
Definition conversion_error (e : exn) : Prop :=
  e = ValueError \/ e = OverflowError.

(** A finite double of magnitude below [2^64]. *)
Definition moderate (x : spec_float) : Prop :=
  valid x /\ FloatSpec.magnitude_below 64 x.

(** Draws that are finite and of moderate size, those of the two xG factors
    not negative.  The two danger factors are free. *)
Definition ordinary (d : draws) : Prop :=
  moderate (gauss_possession d)
  /\ moderate (gauss_shots_home d) /\ moderate (gauss_shots_away d)
  /\ (moderate (uniform_xg_home d) /\ FloatSpec.nonneg (uniform_xg_home d))
  /\ (moderate (uniform_xg_away d) /\ FloatSpec.nonneg (uniform_xg_away d))
  /\ moderate (gauss_field_tilt d)
  /\ moderate (gauss_volatility d).

(** Draws as the random generator gives them for the mock matches. *)
Definition sample_draws : draws :=
  {| gauss_possession := dec 37 1;
     gauss_shots_home := dec 52 1;
     gauss_shots_away := dec 48 1;
     uniform_xg_home := dec 12 2;
     uniform_xg_away := dec 15 2;
     gauss_field_tilt := dec (-42) 1;
     uniform_danger_home := dec 6 1;
     uniform_danger_away := dec 45 2;
     gauss_volatility := dec 13 1;
     draw_now := 63929295900000000 |}.

(** The sample a call returns, from what [int] made of the two shot draws
    and from the index. *)
Definition sample_of (match_id : string) (d : draws) (n_home n_away : Z)
    (momentum_index : Z) : MomentumData :=
  let possession := py_max 30 (py_min 70 (base_possession match_id d)) in
  let shots_home := Z.max 0 n_home in
  let shots_away := Z.max 0 n_away in
  {| mo_timestamp := draw_now d;
     mo_momentum_index := momentum_index;
     mo_possession := possession;
     mo_shots_home := shots_home;
     mo_shots_away := shots_away;
     mo_xg_home := py_round (fmul (of_int shots_home) (uniform_xg_home d)) 2;
     mo_xg_away := py_round (fmul (of_int shots_away) (uniform_xg_away d)) 2;
     mo_field_tilt :=
       py_round (fadd (fmul (fsub possession (of_int 50)) (of_int 2))
                   (gauss_field_tilt d)) 1;
     mo_danger_home :=
       py_round (fmul (SFdiv prec emax possession (of_int 100))
                   (uniform_danger_home d)) 2;
     mo_danger_away :=
       py_round (fmul (SFdiv prec emax (fsub (of_int 100) possession)
                         (of_int 100))
                   (uniform_danger_away d)) 2 |}.

(** The index of the sample, from the same. *)
Definition index_of (match_id : string) (d : draws) (n_home n_away : Z)
    : result Z :=
  let possession := py_max 30 (py_min 70 (base_possession match_id d)) in
  let shots_home := Z.max 0 n_home in
  let shots_away := Z.max 0 n_away in
  calculate_momentum possession shots_home shots_away
    (fmul (of_int shots_home) (uniform_xg_home d))
    (fmul (of_int shots_away) (uniform_xg_away d))
    (fadd (fmul (fsub possession (of_int 50)) (of_int 2))
       (gauss_field_tilt d))
    [] (gauss_volatility d).

End GeneratorSpec.

(** ** The calls of the API *)

Module ApiSpec.
Import PyFloat Backend Generator GeneratorSpec Api.

Definition raised {A : Type} (r : result A) : option exn :=
  match r with
  | Ok _ => None
  | Raise e => Some e
  end.

(** The exception a call raises on a store, if it raises one. *)
Definition api_raised (s : ApiStore) (c : api_call) : option exn :=
  match c with
  | CurrentMomentum match_id d => raised (get_current_momentum s match_id d)
  | MomentumHistory match_id limit =>
      raised (get_momentum_history s match_id limit)
  | Open request position_id now d =>
      raised (open_position s request position_id now d)
  | Settle pid now d => raised (settle_position s pid now d)
  | Position pid => raised (get_position (ledger s) pid)
  | UserPositions _ => None
  end.

(** The failures each endpoint has: the HTTP errors it raises itself, and
    what the conversions and the calendar raise under it. *)
Definition allowed (c : api_call) (e : exn) : Prop :=
  match c with
  | CurrentMomentum _ _ | Open _ _ _ _ =>
      e = HTTPException 404 "Match not found" \/ conversion_error e
  | MomentumHistory _ _ => e = HTTPException 404 "Match not found"
  | Settle _ _ _ =>
      e = HTTPException 404 "Position not found"
      \/ e = HTTPException 400 "Position already settled"
      \/ e = HTTPException 400 "Trading window not ended"
      \/ conversion_error e
  | Position _ => e = HTTPException 404 "Position not found"
  | UserPositions _ => False
  end.

(** What every store the API can reach satisfies. *)
Definition api_invariant (s : ApiStore) : Prop :=
  BackendSpec.well_formed (ledger s)
  /\ matches (ledger s) = matches data_store
  /\ (forall match_id : string,
        is_Some (matches (ledger s) !! match_id) ->
        is_Some (momentum_history s !! match_id)).

Definition sample_api_calls : list api_call :=
  [CurrentMomentum "match_001" sample_draws;
   Open (BackendSpec.sample_request LONG (of_int 100) 300)
     BackendSpec.sample_id BackendSpec.t_open sample_draws;
   CurrentMomentum "match_001" sample_draws;
   Settle BackendSpec.sample_id BackendSpec.t_due sample_draws].

End ApiSpec.

(** ** The ledger *)

Module LedgerSpec.
Import PyFloat Backend BackendSpec.

(** The call opens a position under the id [pid]. *)
Definition opens (pid : string) (c : call) : Prop :=
  match c with
  | OpenPosition _ env => oe_position_id env = pid
  | _ => False
  end.

(** Every position id refers to an object of the heap, and every id in the
    list of a wallet is a position id. *)
Definition linked (s : DataStore) : Prop :=
  (forall (pid : string) (ref : nat),
      positions s !! pid = Some ref -> is_Some (heap s !! ref))
  /\ (forall (wallet : string) (ids : list string) (pid : string),
        user_positions s !! wallet = Some ids -> pid ∈ ids ->
        is_Some (positions s !! pid)).



Definition second_open_env (index : Z) : open_env :=
  {| oe_position_id := "pos_1793699160.0";
     oe_now := t_open + 60 * PyTime.us_per_second;
     oe_momentum_index := index |}.

Definition request_of (wallet : string) : OpenPositionRequest :=
  {| req_match_id := "match_002"; req_position_type := SHORT;
     req_amount := of_int 25; req_wallet_address := wallet;
     req_window_duration := 120 |}.

End LedgerSpec.

(** ** The oracle monitor: history and trusted index *)

Module OracleHistory.
Import Oracle OracleSpec OracleStatus.

(** Consecutive records differ by at most 20 in their index. *)
Definition small_steps (history : list UpdateRecord) : Prop :=
  forall (i : nat) (r r' : UpdateRecord),
    history !! i = Some r -> history !! S i = Some r' ->
    Z.abs (ur_momentum_index r' - ur_momentum_index r) <= 20.

(** The last record, if there is one, carries the trusted index. *)
Definition last_is_trusted (history : list UpdateRecord) (st : MonitorState)
    : Prop :=
  forall r : UpdateRecord,
    last history = Some r -> ur_momentum_index r = last_momentum st.

(** The entry of the match in the active set, if there is one, carries the
    trusted index. *)
Definition active_is_trusted (match_id : string) (o : MomentumOracle)
    (st : MonitorState) : Prop :=
  forall data : MatchMomentum,
    active_matches o !! match_id = Some data ->
    momentum_index data = last_momentum st.

(** The records of one match, in the order of the history. *)
Definition records_of (match_id : string) (history : list UpdateRecord)
    : list UpdateRecord :=
  filter (fun r => ur_match_id r = match_id) history.

(** A tick whose reading lies outside the band around 50. *)
Definition far_from_50 (env : tick_env) : Prop :=
  match te_fetch env with
  | Fetched data => ~ 30 <= momentum_index data <= 70
  | FetchedNone | FetchRaises => False
  end.

Definition far_env (index : Z) : tick_env :=
  {| te_fetch := Fetched (sample_reading index); te_publish_ok := true;
     te_now := 63929295905000000 |}.

End OracleHistory.

(** * Properties *)

(** ** Bounds through the rounded operations

    The float operations are the rounding functions of the core library's
    [SpecFloat], run at precision 53.  What the momentum calculator needs
    from them is coarse: a result computed from finite operands of bounded
    magnitude is finite again.  Magnitudes are tracked by powers of two,
    [below k] and [above j]; each operation loses at most a factor two. *)

Module FloatBounds.
Import PyFloat FloatSpec.

(** Closes a bound on a constant of the code by evaluating it. *)
Ltac float_const := vm_compute; repeat split; easy.

Ltac pow2_pos := apply Z.pow_pos_nonneg; lia.

(** *** Powers of two *)

Lemma pow2_nonneg_exp (m t : Z) : 0 <= m -> m < 2 ^ t -> 0 <= t.
Proof.
  intros Hm Hlt. destruct (Z.lt_ge_cases t 0) as [Hneg|]; [|assumption].
  rewrite Z.pow_neg_r in Hlt by assumption. lia.
Qed.

Lemma div_pow2_lt (m n t : Z) :
  0 <= m -> 0 <= n -> n <= t -> m < 2 ^ t -> m / 2 ^ n < 2 ^ (t - n).
Proof.
  intros Hm Hn Ht Hlt.
  apply Z.div_lt_upper_bound; [pow2_pos|].
  rewrite <- Z.pow_add_r by lia.
  replace (n + (t - n)) with t by lia. exact Hlt.
Qed.

Lemma div_pow2_ge (m n t : Z) :
  0 <= n -> 2 ^ t <= m -> 2 ^ (t - n) <= m / 2 ^ n.
Proof.
  intros Hn Hle.
  assert (Hm : 0 <= m) by (pose proof (Z.pow_nonneg 2 t); lia).
  destruct (Z.lt_ge_cases (t - n) 0) as [Hneg|Hpos].
  - rewrite Z.pow_neg_r by assumption. apply Z.div_pos; [lia|pow2_pos].
  - apply Z.div_le_lower_bound; [pow2_pos|].
    rewrite <- Z.pow_add_r by lia.
    replace (n + (t - n)) with t by lia. exact Hle.
Qed.

Lemma pow2_scale_lt (m t d : Z) :
  0 <= d -> m < 2 ^ t -> 0 <= m -> m * 2 ^ d < 2 ^ (t + d).
Proof.
  intros Hd Hlt Hm.
  pose proof (pow2_nonneg_exp m t Hm Hlt) as Ht.
  rewrite Z.pow_add_r by lia.
  apply Z.mul_lt_mono_pos_r; [pow2_pos|exact Hlt].
Qed.

Lemma pow2_scale_ge (m t d : Z) :
  0 <= d -> 0 < m -> 2 ^ t <= m -> 2 ^ (t + d) <= m * 2 ^ d.
Proof.
  intros Hd Hm Hle.
  assert (Hp : 0 < 2 ^ d) by pow2_pos.
  destruct (Z.lt_ge_cases t 0) as [Hneg|Hpos].
  - destruct (Z.lt_ge_cases (t + d) 0) as [Hneg'|Hpos'].
    + rewrite Z.pow_neg_r by assumption. nia.
    + assert (2 ^ (t + d) <= 2 ^ d) by (apply Z.pow_le_mono_r; lia). nia.
  - rewrite Z.pow_add_r by lia. nia.
Qed.

(** *** The number of binary digits *)

Lemma digits_log2 (p : positive) :
  Zpos (digits2_pos p) = Z.log2 (Zpos p) + 1.
Proof.
  induction p as [p IH|p IH|]; simpl; try reflexivity.
  all: destruct p; simpl in *; lia.
Qed.

Lemma digits_upper (m t : Z) : 0 <= m -> m < 2 ^ t -> Zdigits2 m <= t.
Proof.
  intros Hm Hlt.
  pose proof (pow2_nonneg_exp m t Hm Hlt) as Ht.
  destruct m as [|p|p]; simpl; [exact Ht| |lia].
  rewrite digits_log2.
  assert (Z.log2 (Zpos p) < t) by (apply Z.log2_lt_pow2; lia).
  lia.
Qed.

Lemma digits_lower (p : positive) :
  2 ^ (Zpos (digits2_pos p) - 1) <= Zpos p.
Proof.
  rewrite digits_log2.
  replace (Z.log2 (Zpos p) + 1 - 1) with (Z.log2 (Zpos p)) by lia.
  apply Z.log2_spec. lia.
Qed.

Lemma digits_lower_Z (m : Z) : 0 < m -> 2 ^ (Zdigits2 m - 1) <= m.
Proof. destruct m as [|p|p]; intros H; try lia. apply digits_lower. Qed.

Lemma digits_strict (p : positive) : Zpos p < 2 ^ Zpos (digits2_pos p).
Proof.
  rewrite digits_log2.
  pose proof (Z.log2_spec (Zpos p) ltac:(lia)). unfold Z.succ in *. lia.
Qed.

(** *** Shifting a mantissa to its exponent *)

Lemma shr_1_m (mrs : shr_record) :
  0 <= shr_m mrs -> shr_m (shr_1 mrs) = shr_m mrs / 2.
Proof.
  destruct mrs as [m r s]. simpl. intros Hm.
  destruct m as [|[p|p|]|p]; simpl; try lia; try reflexivity.
  - apply Z.div_unique with (r := 1); lia.
  - apply Z.div_unique with (r := 0); lia.
Qed.

Lemma shr_1_nonneg (mrs : shr_record) :
  0 <= shr_m mrs -> 0 <= shr_m (shr_1 mrs).
Proof. intros H. rewrite shr_1_m by exact H. apply Z.div_pos; lia. Qed.

Lemma iter_shr_m (p : positive) :
  forall mrs : shr_record,
    0 <= shr_m mrs ->
    shr_m (SpecFloat.iter_pos shr_1 p mrs) = shr_m mrs / 2 ^ Zpos p.
Proof.
  assert (Hnonneg : forall a n, 0 <= a -> 0 <= a / 2 ^ Zpos n).
  { intros a n Ha. apply Z.div_pos; [exact Ha|pow2_pos]. }
  induction p as [p IH|p IH|]; intros mrs Hm; simpl SpecFloat.iter_pos.
  - pose proof (shr_1_nonneg mrs Hm) as H1.
    rewrite IH by (rewrite IH by exact H1; apply Hnonneg, H1).
    rewrite IH, shr_1_m by assumption.
    assert (Hp : 0 < 2 ^ Zpos p) by pow2_pos.
    rewrite !Z.div_div by lia.
    f_equal. replace (Zpos p~1) with (1 + Zpos p + Zpos p) by lia.
    rewrite !Z.pow_add_r by lia. ring.
  - rewrite IH by (rewrite IH by exact Hm; apply Hnonneg, Hm).
    rewrite IH by assumption.
    assert (Hp : 0 < 2 ^ Zpos p) by pow2_pos.
    rewrite !Z.div_div by lia.
    f_equal. replace (Zpos p~0) with (Zpos p + Zpos p) by lia.
    rewrite !Z.pow_add_r by lia. ring.
  - rewrite shr_1_m by assumption. reflexivity.
Qed.

(** [shr_fexp] divides the mantissa by [2^n] and adds [n] to the exponent,
    where [n] is the distance to the exponent of the format, if that is
    positive; otherwise it changes nothing. *)
Lemma shr_fexp_m (m e : Z) (l : location) :
  0 <= m ->
  let n := fexp prec emax (Zdigits2 m + e) - e in
  let r := shr_fexp prec emax m e l in
  (n <= 0 -> shr_m (fst r) = m /\ snd r = e)
  /\ (0 < n -> shr_m (fst r) = m / 2 ^ n /\ snd r = e + n).
Proof.
  intros Hm n r. unfold r, shr_fexp. fold n.
  assert (Hrec : shr_m (shr_record_of_loc m l) = m).
  { destruct l as [|[]]; reflexivity. }
  destruct n as [|p|p] eqn:Hn; simpl.
  - split; intros H; [|lia]. split; [exact Hrec|reflexivity].
  - split; intros H; [lia|]. split; [|reflexivity].
    rewrite iter_shr_m by lia. rewrite Hrec. reflexivity.
  - split; intros H; [|lia]. split; [exact Hrec|reflexivity].
Qed.

(** It keeps a strict upper bound by a power of two in the float range. *)
Lemma shr_fexp_below (m e : Z) (l : location) (k : Z) :
  0 <= m -> m < 2 ^ (k - e) -> e <= emax - prec ->
  emin prec emax <= k <= emax ->
  let r := shr_fexp prec emax m e l in
  0 <= shr_m (fst r) /\ shr_m (fst r) < 2 ^ (k - snd r)
  /\ snd r <= emax - prec.
Proof.
  intros Hm Hlt He Hk r.
  pose proof (shr_fexp_m m e l Hm) as H. simpl in H. fold r in H.
  pose proof (pow2_nonneg_exp _ _ Hm Hlt) as Hke.
  pose proof (digits_upper _ _ Hm Hlt) as Hd.
  unfold fexp, emin, emax, prec in *.
  destruct (Z.lt_ge_cases 0
              (Z.max (Zdigits2 m + e - 53) (3 - 1024 - 53) - e))
    as [Hpos|Hnpos].
  - destruct H as [_ H]. destruct (H Hpos) as [Hm' He']. rewrite Hm', He'.
    split; [apply Z.div_pos; [lia|pow2_pos]|]. split; [|lia].
    match goal with
    | |- _ / 2 ^ ?n < 2 ^ ?t => replace t with ((k - e) - n) by lia
    end.
    apply div_pow2_lt; lia.
  - destruct H as [H _]. destruct (H Hnpos) as [Hm' He']. rewrite Hm', He'.
    repeat split; lia.
Qed.

(** On a positive mantissa whose exponent is not below [emin], it keeps the
    mantissa positive and keeps a lower bound by a power of two. *)
Lemma shr_fexp_above (m e : Z) (l : location) (j : Z) :
  0 < m -> 2 ^ (j - e) <= m -> emin prec emax <= e ->
  let r := shr_fexp prec emax m e l in
  0 < shr_m (fst r) /\ 2 ^ (j - snd r) <= shr_m (fst r)
  /\ emin prec emax <= snd r.
Proof.
  intros Hm Hj He r.
  assert (Hm0 : 0 <= m) by lia.
  pose proof (shr_fexp_m m e l Hm0) as H. simpl in H. fold r in H.
  pose proof (digits_lower_Z m Hm) as Hd.
  unfold fexp, emin, emax, prec in *.
  destruct (Z.lt_ge_cases 0
              (Z.max (Zdigits2 m + e - 53) (3 - 1024 - 53) - e))
    as [Hpos|Hnpos].
  - destruct H as [_ H]. destruct (H Hpos) as [Hm' He']. rewrite Hm', He'.
    assert (Hn : Z.max (Zdigits2 m + e - 53) (3 - 1024 - 53) - e
                 = Zdigits2 m - 53) by lia.
    rewrite Hn in *.
    split; [|split; [|lia]].
    + pose proof (div_pow2_ge m (Zdigits2 m - 53) (Zdigits2 m - 1)
                    ltac:(lia) Hd) as H52.
      replace (Zdigits2 m - 1 - (Zdigits2 m - 53)) with 52 in H52 by lia.
      change (2 ^ 52) with 4503599627370496 in H52. lia.
    + replace (j - (e + (Zdigits2 m - 53)))
        with ((j - e) - (Zdigits2 m - 53)) by lia.
      apply div_pow2_ge; [lia|exact Hj].
  - destruct H as [H _]. destruct (H Hnpos) as [Hm' He']. rewrite Hm', He'.
    repeat split; assumption.
Qed.

Lemma round_nearest_even_bounds (m : Z) (l : location) :
  m <= round_nearest_even m l <= m + 1.
Proof.
  destruct l as [|[]]; simpl; try lia.
  destruct (Z.even m); lia.
Qed.

(** *** Rounding *)

(** The rounding of a value below [2^k], with [k] in the float range, is
    finite and below [2^(k+1)]. *)
Lemma round_aux_below (s : bool) (m e : Z) (l : location) (k : Z) :
  0 <= m -> m < 2 ^ (k - e) -> e <= emax - prec ->
  emin prec emax <= k <= emax - 1 ->
  below (k + 1) (binary_round_aux prec emax s m e l).
Proof.
  intros Hm Hlt He Hk. unfold binary_round_aux.
  pose proof (shr_fexp_below m e l k Hm Hlt He ltac:(lia)) as H1.
  simpl in H1.
  destruct (shr_fexp prec emax m e l) as [mrs' e']. simpl in H1.
  destruct H1 as (Hm' & Hlt' & He').
  pose proof (round_nearest_even_bounds (shr_m mrs')
                (loc_of_shr_record mrs')) as Hr.
  set (m'' := round_nearest_even (shr_m mrs') (loc_of_shr_record mrs')) in *.
  pose proof (pow2_nonneg_exp _ _ Hm' Hlt') as Hke'.
  assert (Hlt'' : m'' < 2 ^ (k + 1 - e')).
  { replace (k + 1 - e') with (Z.succ (k - e')) by lia.
    rewrite Z.pow_succ_r by lia. lia. }
  pose proof (shr_fexp_below m'' e' loc_Exact (k + 1) ltac:(lia) Hlt'' He'
                ltac:(lia)) as H2.
  simpl in H2.
  destruct (shr_fexp prec emax m'' e' loc_Exact) as [mrs'' e'']. simpl in H2.
  destruct H2 as (Hm3 & Hlt3 & He3).
  destruct (shr_m mrs'') as [|p|p]; simpl; [exact I| |lia].
  destruct (Z.leb_spec e'' (emax - prec)); [|lia].
  simpl. split; assumption.
Qed.

(** The rounding of a value that is at least [2^j] is at least [2^j], or
    infinite. *)
Lemma round_aux_above (s : bool) (m e : Z) (l : location) (j : Z) :
  0 < m -> 2 ^ (j - e) <= m -> emin prec emax <= e ->
  above j (binary_round_aux prec emax s m e l).
Proof.
  intros Hm Hj He. unfold binary_round_aux.
  pose proof (shr_fexp_above m e l j Hm Hj He) as H1. simpl in H1.
  destruct (shr_fexp prec emax m e l) as [mrs' e']. simpl in H1.
  destruct H1 as (Hm' & Hj' & He').
  pose proof (round_nearest_even_bounds (shr_m mrs')
                (loc_of_shr_record mrs')) as Hr.
  set (m'' := round_nearest_even (shr_m mrs') (loc_of_shr_record mrs')) in *.
  pose proof (shr_fexp_above m'' e' loc_Exact j ltac:(lia) ltac:(lia) He')
    as H2.
  simpl in H2.
  destruct (shr_fexp prec emax m'' e' loc_Exact) as [mrs'' e'']. simpl in H2.
  destruct H2 as (Hm3 & Hj3 & He3).
  destruct (shr_m mrs'') as [|p|p]; try lia.
  destruct (e'' <=? emax - prec); simpl; [exact Hj3|exact I].
Qed.

Lemma iter_xO (d : positive) (m : positive) :
  Zpos (Pos.iter xO m d) = Zpos m * 2 ^ Zpos d.
Proof.
  induction d as [|d IH] using Pos.peano_ind.
  - simpl. lia.
  - rewrite Pos.iter_succ, Pos2Z.inj_xO, IH, Pos2Z.inj_succ.
    rewrite Z.pow_succ_r by lia. ring.
Qed.

(** [shl_align] moves to the smaller exponent and keeps the value. *)
Lemma shl_align_spec (mx : positive) (ex ex' : Z) :
  snd (shl_align mx ex ex') = Z.min ex ex'
  /\ Zpos (fst (shl_align mx ex ex'))
     = Zpos mx * 2 ^ (ex - snd (shl_align mx ex ex')).
Proof.
  unfold shl_align.
  destruct (ex' - ex) as [|d|d] eqn:Hd; simpl.
  - split; [lia|]. replace (ex - ex) with 0 by lia. simpl. lia.
  - split; [lia|]. replace (ex - ex) with 0 by lia. simpl. lia.
  - split; [lia|]. rewrite iter_xO. f_equal. f_equal. lia.
Qed.

Lemma aligned_lt (mx : positive) (ex ez k : Z) :
  ez <= ex -> Zpos mx < 2 ^ (k - ex) ->
  Zpos (fst (shl_align mx ex ez)) < 2 ^ (k - ez).
Proof.
  intros Hez Hlt.
  pose proof (shl_align_spec mx ex ez) as [Hs Hm].
  rewrite Hm, Hs. replace (Z.min ex ez) with ez by lia.
  replace (k - ez) with ((k - ex) + (ex - ez)) by lia.
  apply pow2_scale_lt; lia.
Qed.

Lemma binary_round_below (s : bool) (mx : positive) (ex k : Z) :
  Zpos mx < 2 ^ (k - ex) -> ex <= emax - prec ->
  emin prec emax <= k <= emax - 1 ->
  below (k + 1) (binary_round prec emax s mx ex).
Proof.
  intros Hlt He Hk. unfold binary_round.
  pose proof (shl_align_spec mx ex
                (fexp prec emax (Zpos (digits2_pos mx) + ex))) as [Hez Hmz].
  destruct (shl_align mx ex _) as [mz ez]. simpl in Hez, Hmz.
  apply round_aux_below; try lia.
  rewrite Hmz. replace (k - ez) with ((k - ex) + (ex - ez)) by lia.
  apply pow2_scale_lt; lia.
Qed.

Lemma binary_round_above (s : bool) (mx : positive) (ex j : Z) :
  2 ^ (j - ex) <= Zpos mx -> emin prec emax <= ex ->
  above j (binary_round prec emax s mx ex).
Proof.
  intros Hle He. unfold binary_round.
  pose proof (shl_align_spec mx ex
                (fexp prec emax (Zpos (digits2_pos mx) + ex))) as [Hez Hmz].
  destruct (shl_align mx ex _) as [mz ez]. simpl in Hez, Hmz.
  apply round_aux_above; try lia.
  - rewrite Hmz. replace (j - ez) with ((j - ex) + (ex - ez)) by lia.
    apply pow2_scale_ge; lia.
  - unfold fexp, emin, emax, prec in *. lia.
Qed.

Lemma binary_normalize_below (m e k : Z) :
  Z.abs m < 2 ^ (k - e) -> e <= emax - prec ->
  emin prec emax <= k <= emax - 1 ->
  below (k + 1) (binary_normalize prec emax m e false).
Proof.
  intros Hlt He Hk.
  destruct m as [|p|p]; simpl; [exact I| |];
    apply binary_round_below; assumption.
Qed.

(** *** The bound predicates *)

Lemma below_mono (k k' : Z) (x : spec_float) :
  k <= k' -> below k x -> below k' x.
Proof.
  intros Hk. destruct x as [s|s| |s m e]; simpl; try tauto.
  intros [Hlt He]. split; [|exact He].
  pose proof (pow2_nonneg_exp (Zpos m) (k - e) ltac:(lia) Hlt).
  assert (2 ^ (k - e) <= 2 ^ (k' - e)) by (apply Z.pow_le_mono_r; lia).
  lia.
Qed.

Lemma below_finite (k : Z) (x : spec_float) :
  below k x -> is_finite x = true.
Proof. destruct x; simpl; tauto. Qed.

Lemma valid_exponent (s : bool) (m : positive) (e : Z) :
  valid (S754_finite s m e) -> emin prec emax <= e <= emax - prec.
Proof.
  unfold valid, valid_binary, bounded, canonical_mantissa.
  intros H. apply andb_true_iff in H. destruct H as [Hc Hb].
  apply Z.eqb_eq in Hc. apply Z.leb_le in Hb.
  unfold fexp in Hc. lia.
Qed.

Lemma valid_below (k : Z) (x : spec_float) :
  valid x -> magnitude_below k x -> below k x.
Proof.
  destruct x as [s|s| |s m e]; simpl; try tauto.
  intros Hv Hm. split; [exact Hm|]. apply (valid_exponent s m e Hv).
Qed.

Lemma valid_exponent_ok (x : spec_float) : valid x -> exponent_ok x.
Proof.
  destruct x as [s|s| |s m e]; simpl; try tauto.
  intros Hv. apply (valid_exponent s m e Hv).
Qed.

(** *** Addition, multiplication, division, conversions *)

Lemma fadd_below (kx ky k : Z) (x y : spec_float) :
  below kx x -> below ky y -> kx <= k -> ky <= k ->
  emin prec emax <= k + 1 <= emax - 1 ->
  below (k + 2) (fadd x y).
Proof.
  intros Hx Hy Hkx Hky Hk.
  apply (below_mono kx k) in Hx; [|exact Hkx].
  apply (below_mono ky k) in Hy; [|exact Hky].
  destruct x as [sx|sx| |sx mx ex]; simpl in Hx; try tauto;
    destruct y as [sy|sy| |sy my ey]; simpl in Hy; try tauto.
  - destruct sx, sy; exact I.
  - apply (below_mono k); [lia|exact Hy].
  - apply (below_mono k); [lia|exact Hx].
  - destruct Hx as [Hmx Hex], Hy as [Hmy Hey].
    unfold fadd, SFadd.
    set (ez := Z.min ex ey).
    pose proof (aligned_lt mx ex ez k ltac:(lia) Hmx) as Hax.
    pose proof (aligned_lt my ey ez k ltac:(lia) Hmy) as Hay.
    replace (k + 2) with ((k + 1) + 1) by lia.
    apply binary_normalize_below; [|lia|lia].
    replace (k + 1 - ez) with (Z.succ (k - ez)) by lia.
    pose proof (pow2_nonneg_exp (Zpos (fst (shl_align mx ex ez))) (k - ez)
                  ltac:(lia) Hax).
    rewrite Z.pow_succ_r by lia.
    destruct sx, sy; simpl; lia.
Qed.

(** A sum of non-negative floats is at least its first term. *)
Lemma fadd_above (j : Z) (x y : spec_float) :
  nonneg x -> nonneg y -> exponent_ok x -> exponent_ok y ->
  above j x -> above j (fadd x y).
Proof.
  intros Hx Hy Hex Hey Hj.
  destruct x as [sx|sx| |sx mx ex]; simpl in Hx, Hj; try tauto.
  destruct sx; [tauto|].
  destruct y as [sy|sy| |sy my ey]; simpl in Hy; try tauto.
  destruct sy; [tauto|]. simpl in Hex, Hey.
  unfold fadd, SFadd. set (ez := Z.min ex ey).
  pose proof (shl_align_spec mx ex ez) as [Hsx Hmx].
  simpl cond_Zopp.
  set (a := fst (shl_align mx ex ez)) in *.
  set (b := fst (shl_align my ey ez)) in *.
  change (Z.pos a + Z.pos b) with (Z.pos (a + b)).
  unfold binary_normalize.
  apply binary_round_above; [|lia].
  rewrite Pos2Z.inj_add, Hmx, Hsx.
  replace (Z.min ex ez) with ez by lia.
  assert (2 ^ (j - ez) <= Zpos mx * 2 ^ (ex - ez)).
  { replace (j - ez) with ((j - ex) + (ex - ez)) by lia.
    apply pow2_scale_ge; lia. }
  lia.
Qed.

Lemma fmul_below (kx ky : Z) (x y : spec_float) :
  below kx x -> below ky y -> exponent_nonpos y ->
  emin prec emax <= kx + ky <= emax - 1 ->
  below (kx + ky + 1) (fmul x y).
Proof.
  intros Hx Hy Hey Hk.
  destruct x as [sx|sx| |sx mx ex]; simpl in Hx; try tauto;
    destruct y as [sy|sy| |sy my ey]; simpl in Hy, Hey; try tauto;
    try exact I.
  destruct Hx as [Hmx Hex], Hy as [Hmy _].
  unfold fmul, SFmul.
  apply round_aux_below; try lia.
  rewrite Pos2Z.inj_mul.
  pose proof (pow2_nonneg_exp (Zpos mx) (kx - ex) ltac:(lia) Hmx).
  pose proof (pow2_nonneg_exp (Zpos my) (ky - ey) ltac:(lia) Hmy).
  replace (kx + ky - (ex + ey)) with ((kx - ex) + (ky - ey)) by lia.
  rewrite Z.pow_add_r by lia.
  apply Z.mul_lt_mono_nonneg; lia.
Qed.

(** The integer quotient and the exponent the division rounds. *)
Lemma div_core_q (m1 e1 m2 e2 : Z) :
  0 < m1 -> 0 < m2 ->
  let '(q, e', l) := SFdiv_core_binary prec emax m1 e1 m2 e2 in
  let e0 := Z.min (fexp prec emax (Zdigits2 m1 + e1 - (Zdigits2 m2 + e2)))
              (e1 - e2) in
  e' = e0 /\ q = (m1 * 2 ^ (e1 - e2 - e0)) / m2.
Proof.
  intros H1 H2. unfold SFdiv_core_binary.
  set (e0 := Z.min _ _).
  assert (Hs : 0 <= e1 - e2 - e0) by (unfold e0; lia).
  assert (Hm' : match e1 - e2 - e0 with
                | Zpos _ => Z.shiftl m1 (e1 - e2 - e0)
                | Z0 => m1
                | Zneg _ => 0
                end = m1 * 2 ^ (e1 - e2 - e0)).
  { destruct (e1 - e2 - e0) as [|p|p] eqn:E; try lia.
    rewrite Z.shiftl_mul_pow2 by lia. reflexivity. }
  rewrite Hm'. unfold Z.div.
  destruct (Z.div_eucl (m1 * 2 ^ (e1 - e2 - e0)) m2) as [q r].
  split; reflexivity.
Qed.

(** A quotient of [x] below [2^kx] by a finite [y] that is at least [2^j]
    is below [2^(kx - j + 1)]. *)
Lemma fdiv_below (kx j : Z) (x y : spec_float) :
  below kx x -> above j y -> is_finite y = true ->
  emin prec emax <= kx - j <= emax - 1 ->
  below (kx - j + 1) (SFdiv prec emax x y).
Proof.
  intros Hx Hy Hfin Hk.
  destruct y as [sy|sy| |sy my ey]; simpl in Hy, Hfin;
    try tauto; try discriminate.
  destruct x as [sx|sx| |sx mx ex]; simpl in Hx; try tauto.
  destruct Hx as [Hmx Hex].
  unfold SFdiv.
  pose proof (div_core_q (Zpos mx) ex (Zpos my) ey ltac:(lia) ltac:(lia))
    as Hq.
  destruct (SFdiv_core_binary prec emax (Zpos mx) ex (Zpos my) ey)
    as [[q e'] l].
  simpl in Hq. destruct Hq as [He' Hq].
  set (e0 := Z.min
               (fexp prec emax
                  (Zpos (digits2_pos mx) + ex - (Zpos (digits2_pos my) + ey)))
               (ex - ey)) in *.
  pose proof (digits_upper (Zpos mx) (kx - ex) ltac:(lia) Hmx) as Hdx.
  simpl in Hdx.
  pose proof (pow2_nonneg_exp (Zpos mx) (kx - ex) ltac:(lia) Hmx) as Hkx.
  assert (Hdy : j - ey + 1 <= Zpos (digits2_pos my)).
  { destruct (Z.lt_ge_cases (j - ey) 0) as [Hn|Hp]; [lia|].
    rewrite digits_log2.
    assert (j - ey <= Z.log2 (Zpos my)) by (apply Z.log2_le_pow2; lia).
    lia. }
  assert (He0k : e0 <= kx - j /\ e0 <= ex - ey /\ e0 <= emax - prec).
  { unfold e0, fexp, emin, emax, prec in *. lia. }
  assert (Hp : 0 < 2 ^ (ex - ey - e0)) by pow2_pos.
  assert (Hq0 : 0 < 2 ^ (kx - j - e0)) by pow2_pos.
  subst e' q.
  apply round_aux_below; try lia.
  - apply Z.div_pos; lia.
  - apply Z.div_lt_upper_bound; [lia|].
    assert (Hnum : Zpos mx * 2 ^ (ex - ey - e0)
                   < 2 ^ ((kx - ex) + (ex - ey - e0))).
    { apply pow2_scale_lt; lia. }
    destruct (Z.lt_ge_cases (j - ey) 0) as [Hn|Hp'].
    + assert (2 ^ (kx - ex + (ex - ey - e0)) <= 2 ^ (kx - j - e0))
        by (apply Z.pow_le_mono_r; lia).
      nia.
    + assert (2 ^ (kx - ex + (ex - ey - e0))
              = 2 ^ (j - ey) * 2 ^ (kx - j - e0)).
      { rewrite <- Z.pow_add_r by lia. f_equal. lia. }
      nia.
Qed.

Lemma of_int_small (n : Z) : 0 <= n <= 15 -> below 5 (of_int n).
Proof.
  intros Hn. unfold of_int.
  apply (binary_normalize_below n 0 4); [|float_const|float_const].
  change (2 ^ (4 - 0)) with 16. lia.
Qed.

Lemma py_int_finite (k : Z) (x : spec_float) :
  below k x -> exists n : Z, py_int x = Ok n.
Proof. destruct x; simpl; try tauto; eexists; reflexivity. Qed.

(** [a / b] on integers with [0 <= a <= b] and [0 < b] is a float below 2. *)
Lemma int_truediv_fraction (a b : Z) :
  0 <= a <= b -> 0 < b ->
  int_truediv a b = Ok (SFdiv prec emax (exact a) (exact b))
  /\ below 2 (SFdiv prec emax (exact a) (exact b)).
Proof.
  intros Ha Hb.
  assert (Hq : below 2 (SFdiv prec emax (exact a) (exact b))).
  { pose proof (Z.log2_spec b Hb) as [Hlo Hhi]. unfold Z.succ in Hhi.
    set (L := Z.log2 b) in *. clearbody L.
    replace 2 with ((L + 1) - L + 1) by lia.
    apply fdiv_below.
    - destruct a as [|p|p]; simpl; [exact I| |lia].
      split; [|float_const].
      replace (L + 1 - 0) with (L + 1) by lia. lia.
    - destruct b as [|p|p]; simpl; try lia.
      replace (L - 0) with L by lia. exact Hlo.
    - destruct b; reflexivity.
    - replace (L + 1 - L) with 1 by lia. float_const. }
  split; [|exact Hq].
  unfold int_truediv.
  destruct (Z.eqb_spec b 0) as [H0|_]; [lia|].
  rewrite (below_finite _ _ Hq). reflexivity.
Qed.

End FloatBounds.

(** ** The momentum calculator *)

Module MomentumProps.
Import PyFloat FloatSpec FloatBounds Backend MomentumSpec.

(** *** The five terms *)

Lemma event_score_range (recent_events : list event) :
  0 <= event_score recent_events <= 10.
Proof. unfold event_score. destruct recent_events; lia. Qed.

(** The shots term never divides by zero and stays below [2^8]. *)
Lemma shots_score_below (shots_home shots_away : Z) :
  0 <= shots_home -> 0 <= shots_away ->
  exists s : spec_float,
    shots_score shots_home shots_away = Ok s /\ below 8 s.
Proof.
  intros Hh Ha. unfold shots_score.
  destruct (Z.gtb_spec (shots_home + shots_away) 0) as [Hpos|Hzero].
  - destruct (int_truediv_fraction shots_home (shots_home + shots_away))
      as [-> Hq]; [lia|exact Hpos|].
    simpl. eexists. split; [reflexivity|].
    apply (fmul_below 2 5); [exact Hq|float_const|float_const|float_const].
  - eexists. split; [reflexivity|]. float_const.
Qed.

Lemma gt_zero_not_zero (x : spec_float) :
  gt_zero x = true -> is_zero x = false.
Proof.
  destruct x as [s|s| |s m e]; simpl; try reflexivity.
  destruct s; discriminate.
Qed.

(** The xG term: the sum of two non-negative floats is at least the first,
    so their ratio is below 2, whatever their size; a sum that overflows
    gives the ratio 0. *)
Lemma xg_score_below (xg_home xg_away : spec_float) :
  valid xg_home -> valid xg_away -> nonneg xg_home -> nonneg xg_away ->
  exists s : spec_float, xg_score xg_home xg_away = Ok s /\ below 8 s.
Proof.
  intros Vh Va Nh Na. unfold xg_score.
  destruct (gt_zero (fadd xg_home xg_away)) eqn:Hgt;
    [|eexists; split; [reflexivity|float_const]].
  unfold truediv. rewrite (gt_zero_not_zero _ Hgt). simpl.
  eexists. split; [reflexivity|].
  apply (fmul_below 2 5); [|float_const|float_const|float_const].
  destruct xg_home as [sh|sh| |sh mh eh]; simpl in Nh; try tauto.
  - destruct (fadd (S754_zero sh) xg_away) as [s|s| |s m e]; try exact I;
      simpl in Hgt; discriminate.
  - destruct sh; [tauto|].
    pose proof (valid_exponent false mh eh Vh) as [Hlo Hhi].
    assert (Habove : above (Zpos (digits2_pos mh) + eh - 1)
                       (fadd (S754_finite false mh eh) xg_away)).
    { apply fadd_above; simpl; try tauto; try lia.
      - apply valid_exponent_ok, Va.
      - replace (Zpos (digits2_pos mh) + eh - 1 - eh)
          with (Zpos (digits2_pos mh) - 1) by lia.
        apply digits_lower. }
    set (d := Zpos (digits2_pos mh)) in *.
    destruct (fadd (S754_finite false mh eh) xg_away) as [s|s| |s m e];
      simpl in Habove; try tauto.
    replace 2 with ((d + eh) - (d + eh - 1) + 1) by lia.
    apply fdiv_below; simpl.
    + split; [|lia]. replace (d + eh - eh) with d by lia.
      apply digits_strict.
    + exact Habove.
    + reflexivity.
    + replace (d + eh - (d + eh - 1)) with 1 by lia. float_const.
Qed.

Lemma field_tilt_score_below (field_tilt : spec_float) :
  below 1000 field_tilt ->
  exists s : spec_float, field_tilt_score field_tilt = Ok s /\ below 1002 s.
Proof.
  intros Hft. unfold field_tilt_score, truediv.
  change (is_zero (of_int 200)) with false. simpl.
  eexists. split; [reflexivity|].
  apply (fmul_below 996 5); [|float_const|float_const|float_const].
  change 996 with (1002 - 7 + 1).
  apply fdiv_below; [|float_const|reflexivity|float_const].
  apply (fadd_below 1000 7 1000);
    [exact Hft|float_const|lia|lia|float_const].
Qed.

(** *** The sum *)

Lemma noisy_momentum_below
    (possession : spec_float) (shots_home shots_away : Z)
    (xg_home xg_away field_tilt : spec_float)
    (recent_events : list event) (volatility : spec_float) :
  below 1000 possession -> below 1000 field_tilt -> below 1000 volatility ->
  valid xg_home -> valid xg_away -> nonneg xg_home -> nonneg xg_away ->
  0 <= shots_home -> 0 <= shots_away ->
  exists momentum : spec_float,
    noisy_momentum possession shots_home shots_away xg_home xg_away
      field_tilt recent_events volatility = Ok momentum
    /\ below 1010 momentum.
Proof.
  intros Hp Hft Hv Vh Va Nh Na Hsh Hsa. unfold noisy_momentum.
  destruct (shots_score_below shots_home shots_away Hsh Hsa) as (s & -> & Hs).
  destruct (xg_score_below xg_home xg_away Vh Va Nh Na) as (x & -> & Hx).
  destruct (field_tilt_score_below field_tilt Hft) as (t & -> & Ht).
  simpl. eexists. split; [reflexivity|].
  assert (H1 : below 999 (fmul possession (dec 2 1))).
  { change 999 with (1000 + (-2) + 1).
    apply fmul_below; [exact Hp|float_const|float_const|float_const]. }
  assert (H2 : below 1001 (fadd (fmul possession (dec 2 1)) s)).
  { apply (fadd_below 999 8 999); [exact H1|exact Hs|lia|lia|float_const]. }
  assert (H3 : below 1003 (fadd (fadd (fmul possession (dec 2 1)) s) x)).
  { apply (fadd_below 1001 8 1001);
      [exact H2|exact Hx|lia|lia|float_const]. }
  assert (H4 : below 1005
                 (fadd (fadd (fadd (fmul possession (dec 2 1)) s) x) t)).
  { apply (fadd_below 1003 1002 1003);
      [exact H3|exact Ht|lia|lia|float_const]. }
  pose proof (event_score_range recent_events) as He.
  assert (H5 : below 1007
                 (fadd (fadd (fadd (fadd (fmul possession (dec 2 1)) s) x) t)
                    (of_int (event_score recent_events)))).
  { apply (fadd_below 1005 5 1005);
      [exact H4|apply of_int_small; lia|lia|lia|float_const]. }
  apply (below_mono 1009); [lia|].
  apply (fadd_below 1007 1000 1007);
    [exact H5|exact Hv|lia|lia|float_const].
Qed.

(** C2, as amended: for a finite possession, field tilt and noise draw of
    magnitude below [2^1000], finite non-negative xG values, non-negative
    shot counts and any list of recent events, [calculate_momentum] raises
    nothing and returns an integer between 0 and 100.  No shots give the
    shots term 10 and no xG gives the xG term 15, without any division. *)
Theorem calculate_momentum_total
    (possession : spec_float) (shots_home shots_away : Z)
    (xg_home xg_away field_tilt : spec_float)
    (recent_events : list event) (volatility : spec_float) :
  valid possession -> magnitude_below 1000 possession ->
  valid field_tilt -> magnitude_below 1000 field_tilt ->
  valid volatility -> magnitude_below 1000 volatility ->
  valid xg_home -> nonneg xg_home ->
  valid xg_away -> nonneg xg_away ->
  0 <= shots_home -> 0 <= shots_away ->
  (exists n : Z,
      calculate_momentum possession shots_home shots_away xg_home xg_away
        field_tilt recent_events volatility = Ok n
      /\ 0 <= n <= 100)
  /\ (shots_home + shots_away = 0 ->
      shots_score shots_home shots_away = Ok (of_int 10))
  /\ (gt_zero (fadd xg_home xg_away) = false ->
      xg_score xg_home xg_away = Ok (of_int 15)).
Proof.
  intros Vp Mp Vt Mt Vv Mv Vh Nh Va Na Hsh Hsa.
  split; [|split].
  - destruct (noisy_momentum_below possession shots_home shots_away
                xg_home xg_away field_tilt recent_events volatility)
      as (momentum & Hm & Hbelow);
      try assumption; try (apply valid_below; assumption).
    destruct (py_int_finite 1010 momentum Hbelow) as (n & Hn).
    exists (Z.max 0 (Z.min 100 n)).
    unfold calculate_momentum. rewrite Hm. simpl. rewrite Hn. simpl.
    split; [reflexivity|lia].
  - intros Hnone. unfold shots_score. rewrite Hnone. reflexivity.
  - intros Hnone. unfold xg_score. rewrite Hnone. reflexivity.
Qed.

(** Possession 55, shots 4 to 3, xG 0.62 to 0.41, tilt 10, three recent
    events, noise -1.3. *)
Lemma calculate_momentum_total_witness :
  (valid (of_int 55) /\ magnitude_below 1000 (of_int 55))
  /\ (valid (of_int 10) /\ magnitude_below 1000 (of_int 10))
  /\ (valid (dec (-13) 1) /\ magnitude_below 1000 (dec (-13) 1))
  /\ (valid (dec 62 2) /\ nonneg (dec 62 2))
  /\ (valid (dec 41 2) /\ nonneg (dec 41 2))
  /\ (0 <= 4 /\ 0 <= 3)
  /\ exists n : Z,
       calculate_momentum (of_int 55) 4 3 (dec 62 2) (dec 41 2) (of_int 10)
         sample_events (dec (-13) 1) = Ok n
       /\ 0 <= n <= 100.
Proof.
  assert (Vp : valid (of_int 55)) by (vm_compute; reflexivity).
  assert (Mp : magnitude_below 1000 (of_int 55)) by (vm_compute; reflexivity).
  assert (Vt : valid (of_int 10)) by (vm_compute; reflexivity).
  assert (Mt : magnitude_below 1000 (of_int 10)) by (vm_compute; reflexivity).
  assert (Vv : valid (dec (-13) 1)) by (vm_compute; reflexivity).
  assert (Mv : magnitude_below 1000 (dec (-13) 1)) by (vm_compute; reflexivity).
  assert (Vh : valid (dec 62 2)) by (vm_compute; reflexivity).
  assert (Nh : nonneg (dec 62 2)) by (vm_compute; exact I).
  assert (Va : valid (dec 41 2)) by (vm_compute; reflexivity).
  assert (Na : nonneg (dec 41 2)) by (vm_compute; exact I).
  assert (H4 : 0 <= 4) by lia.
  assert (H3 : 0 <= 3) by lia.
  repeat (split; [split; assumption|]).
  exact (proj1 (calculate_momentum_total (of_int 55) 4 3 (dec 62 2) (dec 41 2)
                  (of_int 10) sample_events (dec (-13) 1)
                  Vp Mp Vt Mt Vv Mv Vh Nh Va Na H4 H3)).
Defined.

Example all_zero_snapshot :
  calculate_momentum zero 0 0 zero zero zero [] zero = Ok 40.
Proof. vm_compute. reflexivity. Qed.

Example ordinary_snapshot :
  calculate_momentum (of_int 55) 4 3 (dec 62 2) (dec 41 2) (of_int 10)
    sample_events (dec (-13) 1) = Ok 57.
Proof. vm_compute. reflexivity. Qed.

(** C2, as stated, fails: a NaN possession and an infinite xG make the sum
    NaN, and [int] raises [ValueError]; an infinite possession, or the
    largest float as possession and as noise, make it infinite, and [int]
    raises [OverflowError]. *)
Lemma calculate_momentum_raises :
  calculate_momentum nan 0 0 zero zero zero [] zero = Raise ValueError
  /\ calculate_momentum (of_int 50) 0 0 inf zero zero [] zero
     = Raise ValueError
  /\ calculate_momentum inf 0 0 zero zero zero [] zero = Raise OverflowError
  /\ (valid max_float
      /\ calculate_momentum max_float 0 0 zero zero zero [] max_float
         = Raise OverflowError).
Proof. repeat split; vm_compute; reflexivity. Qed.

End MomentumProps.

(** ** The oracle monitor *)

Module OracleProps.
Import Oracle OracleSpec.

Lemma validate_true_iff (old_index new_index max_change : Z) :
  validate_momentum_change old_index new_index max_change = true
  <-> Z.abs (new_index - old_index) <= max_change.
Proof.
  unfold validate_momentum_change.
  destruct (Z.gtb_spec (Z.abs (new_index - old_index)) max_change);
    split; intros; try lia; congruence.
Qed.

Lemma validate_default_band (old_index new_index : Z) :
  validate_momentum_change old_index new_index default_max_change = true
  <-> old_index - 20 <= new_index <= old_index + 20.
Proof. rewrite validate_true_iff. unfold default_max_change. lia. Qed.

(** C6: [validate_momentum_change] accepts exactly the changes of
    magnitude at most [max_change]; with the default bound 20 it rejects
    the step from 50 to 80 and accepts the step from 50 to 65. *)
Theorem validate_momentum_change_spec :
  (forall old_index new_index max_change : Z,
      validate_momentum_change old_index new_index max_change = true
      <-> Z.abs (new_index - old_index) <= max_change)
  /\ default_max_change = 20
  /\ validate_momentum_change 50 80 20 = false
  /\ validate_momentum_change 50 65 default_max_change = true.
Proof.
  split; [exact validate_true_iff|].
  repeat split.
Qed.

(** *** One tick *)

Lemma monitor_tick_rejected
    (match_id : string) (o : MomentumOracle) (st : MonitorState)
    (env : tick_env) (momentum_data : MatchMomentum) :
  te_fetch env = Fetched momentum_data ->
  validate_momentum_change (last_momentum st)
    (momentum_index momentum_data) default_max_change = false ->
  monitor_tick match_id o st env = (o, st).
Proof.
  intros Hfetch Hreject. unfold monitor_tick.
  rewrite Hfetch, Hreject. reflexivity.
Qed.

(** C9: a tick whose reading is rejected by the validation leaves the
    oracle (its update history and its active matches: nothing is
    published) and the locals of the monitor (the last trusted index and
    the failure counter) exactly as they were. *)
Theorem rejected_tick_changes_nothing
    (match_id : string) (o : MomentumOracle) (st : MonitorState)
    (env : tick_env) (momentum_data : MatchMomentum) :
  te_fetch env = Fetched momentum_data ->
  validate_momentum_change (last_momentum st)
    (momentum_index momentum_data) default_max_change = false ->
  monitor_tick match_id o st env = (o, st)
  /\ update_history (fst (monitor_tick match_id o st env)) = update_history o
  /\ active_matches (fst (monitor_tick match_id o st env)) = active_matches o
  /\ last_momentum (snd (monitor_tick match_id o st env)) = last_momentum st
  /\ consecutive_failures (snd (monitor_tick match_id o st env))
     = consecutive_failures st.
Proof.
  intros Hfetch Hreject.
  rewrite (monitor_tick_rejected match_id o st env momentum_data Hfetch Hreject).
  repeat split.
Qed.

Lemma rejected_tick_changes_nothing_witness :
  te_fetch (sample_env 90 true) = Fetched (sample_reading 90)
  /\ validate_momentum_change (last_momentum two_failures)
       (momentum_index (sample_reading 90)) default_max_change = false
  /\ monitor_tick "match_001" empty_oracle two_failures (sample_env 90 true)
     = (empty_oracle, two_failures).
Proof.
  split; [reflexivity|]. split; [reflexivity|].
  apply (rejected_tick_changes_nothing "match_001" empty_oracle two_failures
           (sample_env 90 true) (sample_reading 90)); reflexivity.
Defined.

(** C8, as amended: after a tick whose fetch succeeded the failure counter
    is 0 when the reading is accepted and its publication succeeds, one
    more than before when the publication fails, and unchanged when the
    reading is rejected. *)
Theorem fetched_tick_counter
    (match_id : string) (o : MomentumOracle) (st : MonitorState)
    (env : tick_env) (momentum_data : MatchMomentum) :
  te_fetch env = Fetched momentum_data ->
  consecutive_failures (snd (monitor_tick match_id o st env))
  = counter_after_reading st (momentum_index momentum_data)
      (te_publish_ok env).
Proof.
  intros Hfetch. unfold monitor_tick, counter_after_reading.
  rewrite Hfetch.
  destruct (validate_momentum_change _ _ _); [|reflexivity].
  unfold update_momentum_on_chain.
  destruct (te_publish_ok env); reflexivity.
Qed.

Lemma fetched_tick_counter_witness :
  te_fetch (sample_env 60 true) = Fetched (sample_reading 60)
  /\ consecutive_failures
       (snd (monitor_tick "match_001" empty_oracle two_failures
               (sample_env 60 true)))
     = 0.
Proof.
  split; [reflexivity|].
  apply (fetched_tick_counter "match_001" empty_oracle two_failures
           (sample_env 60 true) (sample_reading 60)).
  reflexivity.
Defined.

(** C8, as stated, fails: the fetch succeeds, the reading 90 is rejected
    against the trusted 50, and the counter stays at 2; with the reading 60
    accepted and the publication failing, it goes to 3. *)
Lemma fetched_tick_counter_not_reset :
  te_fetch (sample_env 90 true) = Fetched (sample_reading 90)
  /\ consecutive_failures
       (snd (monitor_tick "match_001" empty_oracle two_failures
               (sample_env 90 true))) = 2
  /\ te_fetch (sample_env 60 false) = Fetched (sample_reading 60)
  /\ consecutive_failures
       (snd (monitor_tick "match_001" empty_oracle two_failures
               (sample_env 60 false))) = 3.
Proof. repeat split. Qed.

(** *** The loop *)

Lemma monitor_loop_exit (match_id : string) (envs : list tick_env)
    (o : MomentumOracle) (st : MonitorState) :
  max_failures <= consecutive_failures st ->
  monitor_loop match_id envs o st
  = {| mr_oracle := {| active_matches := delete match_id (active_matches o);
                       update_history := update_history o |};
       mr_state := st; mr_unconsumed := envs; mr_status := Stopped |}.
Proof.
  intros Hge.
  destruct envs; simpl;
    destruct (Z.ltb_spec (consecutive_failures st) max_failures);
    solve [lia | reflexivity].
Qed.

Lemma monitor_loop_continue (match_id : string) (env : tick_env)
    (envs : list tick_env) (o : MomentumOracle) (st : MonitorState) :
  consecutive_failures st < max_failures ->
  monitor_loop match_id (env :: envs) o st
  = monitor_loop match_id envs
      (fst (monitor_tick match_id o st env))
      (snd (monitor_tick match_id o st env)).
Proof.
  intros Hlt. simpl.
  destruct (Z.ltb_spec (consecutive_failures st) max_failures); [|lia].
  destruct (monitor_tick match_id o st env); reflexivity.
Qed.

Lemma monitor_loop_idle (match_id : string) (o : MomentumOracle)
    (st : MonitorState) :
  consecutive_failures st < max_failures ->
  monitor_loop match_id [] o st
  = {| mr_oracle := o; mr_state := st;
       mr_unconsumed := []; mr_status := Monitoring |}.
Proof.
  intros Hlt. simpl.
  destruct (Z.ltb_spec (consecutive_failures st) max_failures);
    [reflexivity | lia].
Qed.

(** A tick resets the counter, keeps it, or adds one to it. *)
Lemma monitor_tick_counter (match_id : string) (o : MomentumOracle)
    (st : MonitorState) (env : tick_env) :
  let c' := consecutive_failures (snd (monitor_tick match_id o st env)) in
  c' = 0 \/ c' = consecutive_failures st \/ c' = consecutive_failures st + 1.
Proof.
  unfold monitor_tick, update_momentum_on_chain.
  destruct (te_fetch env) as [d| |]; simpl; auto.
  destruct (validate_momentum_change _ _ _); simpl; auto.
  destruct (te_publish_ok env); simpl; auto.
Qed.

Lemma monitor_loop_shape (match_id : string) (envs : list tick_env) :
  forall (o : MomentumOracle) (st : MonitorState),
    0 <= consecutive_failures st <= max_failures ->
    run_shape match_id (monitor_loop match_id envs o st).
Proof.
  induction envs as [|env envs IH]; intros o st Hc.
  - destruct (Z.eq_dec (consecutive_failures st) max_failures) as [He|Hne].
    + rewrite monitor_loop_exit by lia.
      split; simpl; try tauto; try congruence.
      intros _. apply lookup_delete_eq.
    + rewrite monitor_loop_idle by lia.
      split; simpl; try tauto; try congruence; try lia.
      split; [lia | congruence].
  - destruct (Z.eq_dec (consecutive_failures st) max_failures) as [He|Hne].
    + rewrite monitor_loop_exit by lia.
      split; simpl; try tauto; try congruence.
      intros _. apply lookup_delete_eq.
    + rewrite monitor_loop_continue by lia.
      apply IH.
      pose proof (monitor_tick_counter match_id o st env) as Ht.
      simpl in Ht. unfold max_failures in *. lia.
Qed.

(** Environments offered after the ones a run was given: a stopped run
    leaves them aside, a run still in its loop goes on with them. *)
Lemma monitor_loop_app (match_id : string) (envs more : list tick_env) :
  forall (o : MomentumOracle) (st : MonitorState),
    let r := monitor_loop match_id envs o st in
    monitor_loop match_id (envs ++ more) o st
    = match mr_status r with
      | Stopped =>
          {| mr_oracle := mr_oracle r; mr_state := mr_state r;
             mr_unconsumed := mr_unconsumed r ++ more; mr_status := Stopped |}
      | Monitoring => monitor_loop match_id more (mr_oracle r) (mr_state r)
      end.
Proof.
  induction envs as [|env envs IH]; intros o st; simpl.
  - destruct (Z.ltb_spec (consecutive_failures st) max_failures) as [Hlt|Hge].
    + reflexivity.
    + simpl. rewrite monitor_loop_exit by lia. reflexivity.
  - destruct (Z.ltb_spec (consecutive_failures st) max_failures) as [Hlt|Hge].
    + destruct (monitor_tick match_id o st env) as [o' st']. apply IH.
    + reflexivity.
Qed.

Lemma discovered_absent (o : MomentumOracle) (live_matches : list string)
    (match_id : string) :
  active_matches o !! match_id = None ->
  In match_id live_matches ->
  In match_id (discovered o live_matches).
Proof.
  intros Habsent Hin. unfold discovered.
  apply filter_In. split; [exact Hin|].
  apply bool_decide_eq_true. exact Habsent.
Qed.

(** The text of the simulated transaction reference. *)
Example tx_signature_text :
  tx_signature
  = "1GMkH3brNXiNNs1tiFZHu4yZSRrzJwxi5wB9bHFtMinfCXNnR1adh8Vo8NTheK4evneedH4qmvjeqcBBNAefgS".
Proof. reflexivity. Qed.

Lemma failing_tick (match_id : string) (o : MomentumOracle)
    (st : MonitorState) (env : tick_env) :
  failing (last_momentum st) env ->
  monitor_tick match_id o st env = (o, failed st).
Proof.
  unfold failing, monitor_tick, update_momentum_on_chain.
  destruct (te_fetch env) as [momentum_data| |]; try reflexivity.
  intros [-> ->]. reflexivity.
Qed.

(** Failing ticks only advance the counter, as long as it stays within
    the bound. *)
Lemma failing_ticks (match_id : string) (rest : list tick_env)
    (o : MomentumOracle) (pre : list tick_env) :
  forall st : MonitorState,
    Forall (failing (last_momentum st)) pre ->
    consecutive_failures st + Z.of_nat (length pre) <= max_failures ->
    monitor_loop match_id (pre ++ rest) o st
    = monitor_loop match_id rest o (after_failures st (length pre)).
Proof.
  induction pre as [|env pre IH]; intros st Hall Hlen.
  - simpl. f_equal. unfold after_failures. destruct st; simpl.
    f_equal. lia.
  - inversion Hall as [|? ? Henv Hpre]; subst.
    change ((env :: pre) ++ rest) with (env :: (pre ++ rest)).
    simpl length in *.
    rewrite monitor_loop_continue by lia.
    rewrite (failing_tick _ _ _ _ Henv). simpl fst. simpl snd.
    rewrite IH; [|exact Hpre|simpl; lia].
    f_equal. unfold after_failures, failed. simpl. f_equal. lia.
Qed.

(** C7: a monitor starts in its loop with the counter 0.  Whatever its
    locals are, with a counter below 5 the loop goes on: it runs the next
    tick, and with no tick left it is still in its loop; with the counter
    at 5 (or beyond) the loop is left at once: the match is removed from
    the active set and none of the ticks still offered is run.  Failing
    ticks in a row, fetches without a reading or publications that fail,
    bring the counter from any value to 5 and stop the monitor there, and
    fewer of them leave it in its loop.  Whatever the environment does, the
    counter of a monitor stays between 0 and 5; the monitor has left its
    loop exactly when the counter is 5; a monitor that left its loop has
    removed its match from the active set, consumes none of the ticks
    offered afterwards, and its match is picked up again by the next
    discovery round in which it is live; a monitor whose counter is below 5
    has consumed every tick so far and runs the next one. *)
Theorem monitor_stops_at_max_failures
    (match_id : string) (envs : list tick_env) (o : MomentumOracle) :
  let r := monitor_match match_id envs o in
  max_failures = 5
  /\ 0 <= consecutive_failures (mr_state r) <= 5
  /\ (consecutive_failures (mr_state r) = 5 <-> mr_status r = Stopped)
  /\ (mr_status r = Stopped ->
      active_matches (mr_oracle r) !! match_id = None
      /\ (forall more : list tick_env,
            monitor_match match_id (envs ++ more) o
            = {| mr_oracle := mr_oracle r; mr_state := mr_state r;
                 mr_unconsumed := mr_unconsumed r ++ more;
                 mr_status := Stopped |})
      /\ (forall live_matches : list string,
            In match_id live_matches ->
            In match_id (discovered (mr_oracle r) live_matches)))
  /\ (mr_status r = Monitoring ->
      consecutive_failures (mr_state r) < 5
      /\ mr_unconsumed r = []
      /\ (forall (env : tick_env) (more : list tick_env),
            monitor_match match_id (envs ++ env :: more) o
            = monitor_loop match_id more
                (fst (monitor_tick match_id (mr_oracle r) (mr_state r) env))
                (snd (monitor_tick match_id (mr_oracle r) (mr_state r) env))))
  /\ monitor_match match_id [] o = in_loop o initial_state
  /\ consecutive_failures initial_state = 0
  /\ (forall (o1 : MomentumOracle) (st : MonitorState),
        consecutive_failures st < 5 ->
        monitor_loop match_id [] o1 st = in_loop o1 st
        /\ forall (env : tick_env) (more : list tick_env),
             monitor_loop match_id (env :: more) o1 st
             = monitor_loop match_id more
                 (fst (monitor_tick match_id o1 st env))
                 (snd (monitor_tick match_id o1 st env)))
  /\ (forall (o1 : MomentumOracle) (st : MonitorState)
             (more : list tick_env),
        5 <= consecutive_failures st ->
        monitor_loop match_id more o1 st = stopped match_id o1 st more)
  /\ (forall (o1 : MomentumOracle) (st : MonitorState)
             (pre more : list tick_env),
        Forall (failing (last_momentum st)) pre ->
        (consecutive_failures st + Z.of_nat (length pre) = 5 ->
         monitor_loop match_id (pre ++ more) o1 st
         = stopped match_id o1
             {| last_momentum := last_momentum st;
                consecutive_failures := 5 |} more)
        /\ (consecutive_failures st + Z.of_nat (length pre) < 5 ->
            monitor_loop match_id pre o1 st
            = in_loop o1 (after_failures st (length pre))))
  /\ (forall pre more : list tick_env,
        Forall (failing 50) pre -> length pre = 5%nat ->
        monitor_match match_id (pre ++ more) o
        = stopped match_id o
            {| last_momentum := 50; consecutive_failures := 5 |} more).
Proof.
  intros r.
  assert (Hfail : forall (o1 : MomentumOracle) (st : MonitorState)
                         (pre more : list tick_env),
             Forall (failing (last_momentum st)) pre ->
             consecutive_failures st + Z.of_nat (length pre) = 5 ->
             monitor_loop match_id (pre ++ more) o1 st
             = stopped match_id o1
                 {| last_momentum := last_momentum st;
                    consecutive_failures := 5 |} more).
  { intros o1 st pre more Hpre Hfive.
    rewrite failing_ticks; [|exact Hpre|unfold max_failures; lia].
    rewrite monitor_loop_exit by (simpl; unfold max_failures; lia).
    unfold stopped, after_failures. rewrite Hfive. reflexivity. }
  assert (Hshape : run_shape match_id r).
  { apply monitor_loop_shape. simpl. unfold max_failures. lia. }
  destruct Hshape as [Hc Hs Hrem Hcons]. unfold max_failures in *.
  split; [reflexivity|]. split; [exact Hc|]. split; [exact Hs|].
  split.
  { intros Hstop. split; [exact (Hrem Hstop)|]. split.
    + intros more. unfold monitor_match.
      rewrite monitor_loop_app. fold (monitor_match match_id envs o).
      fold r. rewrite Hstop. reflexivity.
    + intros live Hin. apply discovered_absent; auto. }
  split.
  { intros Hmon.
    assert (Hlt : consecutive_failures (mr_state r) < 5).
    { destruct (Z.eq_dec (consecutive_failures (mr_state r)) 5) as [He|Hne];
        [|lia].
      apply Hs in He. congruence. }
    split; [exact Hlt|]. split; [exact (Hcons Hmon)|].
    intros env more. unfold monitor_match.
    rewrite monitor_loop_app. fold (monitor_match match_id envs o).
    fold r. rewrite Hmon.
    apply monitor_loop_continue. unfold max_failures. exact Hlt. }
  split; [reflexivity|]. split; [reflexivity|].
  split.
  { intros o1 st Hlt. split.
    - apply monitor_loop_idle. unfold max_failures. exact Hlt.
    - intros env more. apply monitor_loop_continue.
      unfold max_failures. exact Hlt. }
  split.
  { intros o1 st more Hge. apply monitor_loop_exit.
    unfold max_failures. exact Hge. }
  split.
  { intros o1 st pre more Hpre. split.
    - intros Hfive. exact (Hfail o1 st pre more Hpre Hfive).
    - intros Hfew.
      rewrite <- (app_nil_r pre) at 1.
      rewrite failing_ticks; [|exact Hpre|unfold max_failures; lia].
      apply monitor_loop_idle. simpl. unfold max_failures. lia. }
  intros pre more Hpre Hlen. unfold monitor_match.
  apply (Hfail o initial_state pre more Hpre). simpl. lia.
Qed.

(** *** The first reading of a monitor *)

Lemma no_reading_tick (match_id : string) (o : MomentumOracle)
    (st : MonitorState) (env : tick_env) :
  no_reading env -> monitor_tick match_id o st env = (o, failed st).
Proof.
  unfold no_reading, monitor_tick.
  destruct (te_fetch env); intros H; [destruct H | reflexivity | reflexivity].
Qed.

(** Ticks without a reading only advance the counter. *)
Lemma failing_prefix (match_id : string) (rest : list tick_env)
    (o : MomentumOracle) (pre : list tick_env) :
  forall st : MonitorState,
    Forall no_reading pre ->
    consecutive_failures st + Z.of_nat (length pre) <= max_failures ->
    monitor_loop match_id (pre ++ rest) o st
    = monitor_loop match_id rest o (after_failures st (length pre)).
Proof.
  induction pre as [|env pre IH]; intros st Hall Hlen.
  - simpl. f_equal. unfold after_failures. destruct st; simpl.
    f_equal. lia.
  - inversion Hall as [|? ? Henv Hpre]; subst.
    change ((env :: pre) ++ rest) with (env :: (pre ++ rest)).
    simpl length in *.
    rewrite monitor_loop_continue by lia.
    rewrite (no_reading_tick _ _ _ _ Henv). simpl fst. simpl snd.
    rewrite IH; [|exact Hpre|simpl; lia].
    f_equal. unfold after_failures, failed. simpl. f_equal. lia.
Qed.

Lemma last_n_snoc {A : Type} (n : nat) (l : list A) (x : A) :
  (0 < n)%nat -> last (Backend.last_n n (l ++ [x])) = Some x.
Proof.
  intros Hn. unfold Backend.last_n.
  rewrite length_app. simpl length.
  rewrite drop_app_le by lia.
  apply last_snoc.
Qed.

(** A publication that succeeds leaves its record at the end of the
    history. *)
Lemma published_record_is_last (o : MomentumOracle) (match_id : string)
    (index : Z) (now : PyTime.datetime) :
  last (update_history
          (fst (update_momentum_on_chain o match_id index true now)))
  = Some (update_record match_id index now).
Proof.
  unfold update_momentum_on_chain. simpl.
  destruct (100 <? _).
  - apply (last_n_snoc 100). lia.
  - apply last_snoc.
Qed.

(** C10: a monitor starts with the trusted index 50, and ticks that bring
    no reading leave it at 50: after fewer than five of them the monitor is
    in its loop, the oracle untouched.  Its first reading is then checked
    against 50: the check accepts exactly the indexes from 30 to 70.  After
    the tick of an accepted reading whose publication succeeds, the monitor
    is in its loop with that index as its trusted index and the counter 0,
    the reading is the entry of the match in the active set and its record
    the last of the history; after the tick of a reading outside the band
    the monitor is where it was before the tick: the oracle unchanged, the
    trusted index still 50, the counter as it was. *)
Theorem first_reading_checked_against_50
    (match_id : string) (pre : list tick_env) (env : tick_env)
    (rest : list tick_env) (o : MomentumOracle)
    (momentum_data : MatchMomentum) :
  Forall no_reading pre ->
  (length pre < 5)%nat ->
  te_fetch env = Fetched momentum_data ->
  let index := momentum_index momentum_data in
  let st := after_failures initial_state (length pre) in
  let o' := fst (monitor_tick match_id o st env) in
  let st' := snd (monitor_tick match_id o st env) in
  last_momentum st = 50
  /\ monitor_match match_id (pre ++ env :: rest) o
     = monitor_loop match_id rest o' st'
  /\ (validate_momentum_change (last_momentum st) index default_max_change
      = true <-> 30 <= index <= 70)
  /\ (30 <= index <= 70 -> te_publish_ok env = true ->
      last (update_history o') = Some (update_record match_id index (te_now env))
      /\ active_matches o' !! match_id = Some momentum_data
      /\ st' = {| last_momentum := index; consecutive_failures := 0 |})
  /\ (~ 30 <= index <= 70 -> o' = o /\ st' = st)
  /\ monitor_match match_id [] o
     = in_loop o {| last_momentum := 50; consecutive_failures := 0 |}
  /\ monitor_match match_id pre o
     = in_loop o {| last_momentum := 50;
                    consecutive_failures := Z.of_nat (length pre) |}
  /\ (30 <= index <= 70 -> te_publish_ok env = true ->
      let r := monitor_match match_id (pre ++ [env]) o in
      mr_status r = Monitoring
      /\ mr_unconsumed r = []
      /\ mr_state r = {| last_momentum := index; consecutive_failures := 0 |}
      /\ active_matches (mr_oracle r) !! match_id = Some momentum_data
      /\ last (update_history (mr_oracle r))
         = Some (update_record match_id index (te_now env)))
  /\ (~ 30 <= index <= 70 ->
      monitor_match match_id (pre ++ [env]) o
      = in_loop o {| last_momentum := 50;
                     consecutive_failures := Z.of_nat (length pre) |}).
Proof.
  intros Hpre Hlen Hfetch index st o' st'.
  assert (Hband : validate_momentum_change (last_momentum st) index
                    default_max_change = true <-> 30 <= index <= 70).
  { rewrite validate_default_band. simpl. lia. }
  assert (Hrun : forall more : list tick_env,
             monitor_match match_id (pre ++ env :: more) o
             = monitor_loop match_id more o' st').
  { intros more. unfold monitor_match.
    rewrite failing_prefix; [|exact Hpre|simpl; unfold max_failures; lia].
    fold st. apply monitor_loop_continue.
    simpl. unfold max_failures. lia. }
  assert (Haccepted : 30 <= index <= 70 -> te_publish_ok env = true ->
            last (update_history o')
            = Some (update_record match_id index (te_now env))
            /\ active_matches o' !! match_id = Some momentum_data
            /\ st' = {| last_momentum := index; consecutive_failures := 0 |}).
  { intros Hin Hok. apply Hband in Hin.
    unfold o', st', monitor_tick. rewrite Hfetch. fold index.
    rewrite Hin, Hok.
    pose proof (published_record_is_last o match_id index (te_now env)) as Hl.
    destruct (update_momentum_on_chain o match_id index true (te_now env))
      as [o1 b] eqn:Hup.
    assert (b = true) as ->.
    { unfold update_momentum_on_chain in Hup. congruence. }
    simpl in *. split; [exact Hl|]. split; [|reflexivity].
    apply lookup_insert_eq. }
  assert (Hrejected : ~ 30 <= index <= 70 -> o' = o /\ st' = st).
  { intros Hout.
    assert (Hrej : validate_momentum_change (last_momentum st) index
                     default_max_change = false).
    { destruct (validate_momentum_change _ _ _) eqn:Hv; [|reflexivity].
      exfalso. apply Hout, Hband. reflexivity. }
    unfold o', st'.
    rewrite (monitor_tick_rejected match_id o st env momentum_data
               Hfetch Hrej).
    split; reflexivity. }
  assert (Hst : st = {| last_momentum := 50;
                        consecutive_failures := Z.of_nat (length pre) |})
    by reflexivity.
  split; [reflexivity|]. split; [exact (Hrun rest)|].
  split; [exact Hband|]. split; [exact Haccepted|].
  split; [exact Hrejected|]. split; [reflexivity|].
  split.
  { unfold monitor_match. rewrite <- (app_nil_r pre) at 1.
    rewrite failing_prefix; [|exact Hpre|simpl; unfold max_failures; lia].
    fold st. rewrite <- Hst. apply monitor_loop_idle.
    simpl. unfold max_failures. lia. }
  split.
  { intros Hin Hok r. unfold r. rewrite (Hrun []).
    destruct (Haccepted Hin Hok) as (Hlast & Hactive & Hst').
    rewrite monitor_loop_idle
      by (rewrite Hst'; simpl; unfold max_failures; lia).
    simpl. auto. }
  intros Hout. rewrite (Hrun []).
  destruct (Hrejected Hout) as [-> ->]. rewrite <- Hst.
  apply monitor_loop_idle. simpl. unfold max_failures. lia.
Qed.

Lemma first_reading_checked_against_50_witness :
  Forall no_reading [no_reading_env false; no_reading_env true]
  /\ (length [no_reading_env false; no_reading_env true] < 5)%nat
  /\ te_fetch (sample_env 60 true) = Fetched (sample_reading 60)
  /\ (validate_momentum_change 50 60 default_max_change = true
      <-> 30 <= 60 <= 70)
  /\ mr_state (monitor_match "match_001"
                 ([no_reading_env false; no_reading_env true]
                  ++ [sample_env 60 true]) empty_oracle)
     = {| last_momentum := 60; consecutive_failures := 0 |}.
Proof.
  assert (Hpre : Forall no_reading [no_reading_env false; no_reading_env true]).
  { repeat constructor. }
  assert (Hlen : (length [no_reading_env false; no_reading_env true] < 5)%nat).
  { simpl. lia. }
  assert (Hin : 30 <= momentum_index (sample_reading 60) <= 70)
    by (simpl; lia).
  split; [exact Hpre|]. split; [exact Hlen|]. split; [reflexivity|].
  pose proof (first_reading_checked_against_50 "match_001"
                [no_reading_env false; no_reading_env true]
                (sample_env 60 true) [] empty_oracle (sample_reading 60)
                Hpre Hlen eq_refl) as H.
  split; [exact (proj1 (proj2 (proj2 H)))|].
  exact (proj1 (proj2 (proj2
           (proj1 (proj2 (proj2 (proj2 (proj2 (proj2 (proj2 (proj2 H)))))))
              Hin eq_refl)))).
Defined.

(** Five ticks in a row without a reading stop a fresh monitor. *)
Example five_failures_stop :
  mr_status (monitor_match "match_001"
               [no_reading_env false; no_reading_env true; no_reading_env false;
                no_reading_env false; no_reading_env true; sample_env 60 true]
               empty_oracle) = Stopped
  /\ mr_unconsumed (monitor_match "match_001"
               [no_reading_env false; no_reading_env true; no_reading_env false;
                no_reading_env false; no_reading_env true; sample_env 60 true]
               empty_oracle) = [sample_env 60 true].
Proof. split; reflexivity. Qed.

End OracleProps.

(** ** The position ledger *)

Module BackendProps.
Import PyFloat Backend BackendSpec.

(** *** Opening *)

Lemma open_position_known (s : DataStore) (request : OpenPositionRequest)
    (env : open_env) (m : MatchData) :
  matches s !! req_match_id request = Some m ->
  exists s' : DataStore,
    open_position s request env = Ok (s', fresh_position request env)
    /\ matches s' = matches s
    /\ heap s' = heap s ++ [fresh_position request env]
    /\ positions s' = <[oe_position_id env := length (heap s)]> (positions s)
    /\ deref s' (oe_position_id env) = Some (fresh_position request env).
Proof.
  intros Hm. unfold open_position. rewrite Hm.
  eexists. split; [reflexivity|]. simpl.
  split; [reflexivity|]. split; [reflexivity|]. split; [reflexivity|].
  unfold deref. simpl. rewrite lookup_insert_eq. simpl.
  apply list_lookup_middle. reflexivity.
Qed.

Lemma open_position_unknown (s : DataStore) (request : OpenPositionRequest)
    (env : open_env) :
  matches s !! req_match_id request = None ->
  open_position s request env = Raise (HTTPException 404 "Match not found").
Proof. intros Hm. unfold open_position. rewrite Hm. reflexivity. Qed.

(** C4, as amended: [open_position] never looks at the amount or at the
    window duration.  Whatever they are, a request against a known match
    succeeds: the position it returns carries the requested amount and
    window, is unsettled, and is the one stored under the new id; the only
    failure is 404 "Match not found" for an unknown match, which leaves the
    store as it was. *)
Theorem open_position_checks_only_the_match
    (s : DataStore) (request : OpenPositionRequest) (env : open_env) :
  match matches s !! req_match_id request with
  | Some _ =>
      exists (s' : DataStore) (position : TradingPosition),
        open_position s request env = Ok (s', position)
        /\ amount position = req_amount request
        /\ window_duration position = req_window_duration request
        /\ is_settled position = false
        /\ pnl position = None
        /\ deref s' (oe_position_id env) = Some position
        /\ length (heap s') = S (length (heap s))
  | None =>
      open_position s request env = Raise (HTTPException 404 "Match not found")
      /\ step s (OpenPosition request env) = s
  end.
Proof.
  destruct (matches s !! req_match_id request) as [m|] eqn:Hm.
  - destruct (open_position_known s request env m Hm)
      as (s' & Hopen & _ & Hheap & _ & Hderef).
    exists s', (fresh_position request env).
    repeat split; try assumption.
    rewrite Hheap, length_app. simpl. lia.
  - split; [apply open_position_unknown; exact Hm|].
    simpl. rewrite (open_position_unknown s request env Hm). reflexivity.
Qed.

(** C4, as stated, fails: a request with amount -5 and a request with a
    window of 0 seconds, both against a known match, are accepted and their
    positions stored. *)
Lemma open_position_accepts_nonpositive :
  le_zero (of_int (-5)) = true
  /\ (exists s' : DataStore,
        open_position data_store (sample_request LONG (of_int (-5)) 300)
          (sample_open_env 40)
        = Ok (s', fresh_position (sample_request LONG (of_int (-5)) 300)
                    (sample_open_env 40))
        /\ deref s' sample_id
           = Some (fresh_position (sample_request LONG (of_int (-5)) 300)
                     (sample_open_env 40)))
  /\ (exists s' : DataStore,
        open_position data_store (sample_request SHORT (of_int 100) 0)
          (sample_open_env 40)
        = Ok (s', fresh_position (sample_request SHORT (of_int 100) 0)
                    (sample_open_env 40))
        /\ deref s' sample_id
           = Some (fresh_position (sample_request SHORT (of_int 100) 0)
                     (sample_open_env 40))).
Proof.
  split; [reflexivity|].
  split; eexists; split; reflexivity.
Qed.

(** *** Settling *)

(** What a successful [settle_position] went through. *)
Lemma settle_position_ok (s s' : DataStore) (pid : string) (env : settle_env)
    (resp : SettleResponse) :
  settle_position s pid env = Ok (s', resp) ->
  exists (ref : nat) (position : TradingPosition) (delta window_end : Z)
         (p : spec_float),
    positions s !! pid = Some ref
    /\ heap s !! ref = Some position
    /\ is_settled position = false
    /\ PyTime.timedelta (window_duration position) = Ok delta
    /\ PyTime.add (entry_time position) delta = Ok window_end
    /\ window_end <= se_now env
    /\ raw_pnl position (se_momentum_index env - entry_index position) = Ok p
    /\ s' = settled_store s ref position p
    /\ resp_pnl resp = py_round p 4.
Proof.
  unfold settle_position. intros H.
  destruct (positions s !! pid) as [ref|] eqn:Hpid; [|discriminate].
  destruct (heap s !! ref) as [position|] eqn:Href; [|discriminate].
  destruct (is_settled position) eqn:Hset; [discriminate|].
  destruct (PyTime.timedelta (window_duration position)) as [delta|]
    eqn:Hdelta; [|discriminate].
  simpl in H.
  destruct (PyTime.add (entry_time position) delta) as [window_end|]
    eqn:Hend; [|discriminate].
  simpl in H.
  destruct (Z.ltb_spec (se_now env) window_end) as [Hlt|Hge]; [discriminate|].
  destruct (matches s !! match_id position) as [m|]; [|discriminate].
  destruct (raw_pnl position (se_momentum_index env - entry_index position))
    as [p|] eqn:Hp; [|discriminate].
  simpl in H. inversion H; subst; clear H.
  exists ref, position, delta, window_end, p.
  repeat split; assumption.
Qed.

Lemma same_terms_refl (p : TradingPosition) : same_terms p p.
Proof. repeat split. Qed.

Lemma same_terms_trans (p q r : TradingPosition) :
  same_terms p q -> same_terms q r -> same_terms p r.
Proof.
  unfold same_terms. intros Hpq Hqr.
  destruct Hpq as (?&?&?&?&?&?&?&?), Hqr as (?&?&?&?&?&?&?&?).
  repeat split; congruence.
Qed.

(** One call keeps every position object in place, with its terms; an
    object that is settled is not touched at all. *)
Lemma step_keeps_objects (s : DataStore) (c : call) (ref : nat)
    (p : TradingPosition) :
  heap s !! ref = Some p ->
  exists p' : TradingPosition,
    heap (step s c) !! ref = Some p'
    /\ same_terms p p'
    /\ (is_settled p = true -> p' = p)
    /\ (is_settled p' = false -> p' = p).
Proof.
  intros Hp.
  assert (Hsame : exists p', heap s !! ref = Some p' /\ same_terms p p'
                    /\ (is_settled p = true -> p' = p)
                    /\ (is_settled p' = false -> p' = p)).
  { exists p. split; [exact Hp|]. split; [apply same_terms_refl|]. tauto. }
  destruct c as [request env|pid env|pid|wallet]; simpl; try exact Hsame.
  - destruct (open_position s request env) as [[s' position]|e] eqn:Hopen;
      [|exact Hsame].
    unfold open_position in Hopen.
    destruct (matches s !! req_match_id request); [|discriminate].
    inversion Hopen; subst; clear Hopen. simpl.
    exists p. rewrite lookup_app_l by (eapply lookup_lt_Some; exact Hp).
    split; [exact Hp|]. split; [apply same_terms_refl|]. tauto.
  - destruct (settle_position s pid env) as [[s' resp]|e] eqn:Hsettle;
      [|exact Hsame].
    apply settle_position_ok in Hsettle.
    destruct Hsettle as (r & q & delta & wend & x & _ & Hq & Hunset & _ & _
                           & _ & _ & -> & _).
    simpl. destruct (decide (r = ref)) as [->|Hne].
    + assert (q = p) as -> by congruence.
      exists (mark_settled p (py_round x 4)).
      rewrite list_lookup_insert_eq by (eapply lookup_lt_Some; exact Hp).
      split; [reflexivity|]. split; [repeat split|].
      split; [congruence|]. simpl. discriminate.
    + exists p. rewrite list_lookup_insert_ne by exact Hne.
      split; [exact Hp|]. split; [apply same_terms_refl|]. tauto.
Qed.

Lemma step_keeps_invariant (s : DataStore) (c : call) :
  ledger_invariant s -> ledger_invariant (step s c).
Proof.
  intros Hinv ref p' Hp'.
  destruct c as [request env|pid env|pid|wallet]; simpl in Hp';
    try exact (Hinv ref p' Hp').
  - destruct (open_position s request env) as [[s' position]|e] eqn:Hopen;
      [|exact (Hinv ref p' Hp')].
    unfold open_position in Hopen.
    destruct (matches s !! req_match_id request); [|discriminate].
    inversion Hopen; subst; clear Hopen. simpl in Hp'.
    apply lookup_app_Some in Hp'. destruct Hp' as [Hold|[_ Hnew]].
    + exact (Hinv ref p' Hold).
    + destruct (ref - length (heap s))%nat; simpl in Hnew; [|discriminate].
      inversion Hnew; subst. unfold pnl_iff_settled. simpl.
      split; intros; congruence.
  - destruct (settle_position s pid env) as [[s' resp]|e] eqn:Hsettle;
      [|exact (Hinv ref p' Hp')].
    apply settle_position_ok in Hsettle.
    destruct Hsettle as (r & q & delta & wend & x & _ & Hq & _ & _ & _
                           & _ & _ & -> & _).
    simpl in Hp'. apply list_lookup_insert_Some in Hp'.
    destruct Hp' as [(-> & <- & _)|(_ & Hold)].
    + unfold pnl_iff_settled. simpl. split; intros; congruence.
    + exact (Hinv ref p' Hold).
Qed.

Lemma run_snoc (s : DataStore) (cs : list call) (c : call) :
  run s (cs ++ [c]) = step (run s cs) c.
Proof. unfold run. rewrite foldl_app. reflexivity. Qed.

Lemma run_keeps_objects (cs : list call) :
  forall (s : DataStore) (ref : nat) (p : TradingPosition),
    heap s !! ref = Some p ->
    exists p' : TradingPosition,
      heap (run s cs) !! ref = Some p'
      /\ same_terms p p'
      /\ (is_settled p = true -> p' = p).
Proof.
  induction cs as [|c cs IH]; intros s ref p Hp.
  - exists p. split; [exact Hp|]. split; [apply same_terms_refl|]. tauto.
  - destruct (step_keeps_objects s c ref p Hp) as (q & Hq & Hpq & Hset & _).
    destruct (IH (step s c) ref q Hq) as (r & Hr & Hqr & Hset').
    exists r. split; [exact Hr|].
    split; [eapply same_terms_trans; eassumption|].
    intros Hs. specialize (Hset Hs). subst q. auto.
Qed.

Lemma run_keeps_invariant (cs : list call) :
  forall s : DataStore, ledger_invariant s -> ledger_invariant (run s cs).
Proof.
  induction cs as [|c cs IH]; intros s Hinv; [exact Hinv|].
  apply (IH (step s c)), step_keeps_invariant, Hinv.
Qed.

Lemma initial_invariant : ledger_invariant data_store.
Proof. intros ref p Hp. simpl in Hp. rewrite lookup_nil in Hp. discriminate. Qed.

(** C5: through any sequence of calls (open, settle, lookups) every position
    object has a PnL exactly when its settled flag is set, stays in the
    store, and keeps its amount, window duration, entry index and entry
    time (and its id, wallet, match and direction); once settled it is not
    changed at all. *)
Theorem pnl_iff_settled_and_terms_fixed (s : DataStore) (cs : list call) :
  ledger_invariant s ->
  ledger_invariant (run s cs)
  /\ forall (ref : nat) (p : TradingPosition),
       heap s !! ref = Some p ->
       exists p' : TradingPosition,
         heap (run s cs) !! ref = Some p'
         /\ amount p' = amount p
         /\ window_duration p' = window_duration p
         /\ entry_index p' = entry_index p
         /\ entry_time p' = entry_time p
         /\ same_terms p p'
         /\ (is_settled p = true -> p' = p).
Proof.
  intros Hinv. split; [apply run_keeps_invariant, Hinv|].
  intros ref p Hp.
  destruct (run_keeps_objects cs s ref p Hp) as (p' & Hp' & Hterms & Hset).
  exists p'. pose proof Hterms as (_&_&_&_&?&?&?&?).
  repeat split; try assumption; apply Hterms.
Qed.

Lemma pnl_iff_settled_and_terms_fixed_witness :
  ledger_invariant data_store
  /\ ledger_invariant (run data_store sample_calls).
Proof.
  split; [exact initial_invariant|].
  exact (proj1 (pnl_iff_settled_and_terms_fixed data_store sample_calls
                  initial_invariant)).
Defined.

(** *** The settlement window *)



(** [|d| / 100] is a float for every difference [d] of two indexes. *)
Lemma int_truediv_abs_100 (d : Z) :
  -100 <= d <= 100 ->
  int_truediv (Z.abs d) 100
  = Ok (SFdiv prec emax (exact (Z.abs d)) (exact 100)).
Proof.
  intros Hd. apply FloatBounds.int_truediv_fraction; lia.
Qed.

Lemma raw_pnl_in_range (position : TradingPosition) (momentum_change : Z) :
  -100 <= momentum_change <= 100 ->
  raw_pnl position momentum_change
  = Ok (if wins (position_type position) momentum_change
        then profit position momentum_change
        else fneg (amount position)).
Proof.
  intros Hd. unfold raw_pnl, wins, profit.
  destruct (position_type position).
  - destruct (momentum_change >? 0); [|reflexivity].
    rewrite int_truediv_abs_100 by exact Hd. reflexivity.
  - destruct (momentum_change <? 0); [|reflexivity].
    rewrite int_truediv_abs_100 by exact Hd. reflexivity.
Qed.

Lemma settle_after_window (s : DataStore) (pid : string) (env : settle_env)
    (ref : nat) (position : TradingPosition) (delta window_end : Z)
    (m : MatchData) :
  positions s !! pid = Some ref ->
  heap s !! ref = Some position ->
  is_settled position = false ->
  PyTime.timedelta (window_duration position) = Ok delta ->
  PyTime.add (entry_time position) delta = Ok window_end ->
  window_end <= se_now env ->
  matches s !! match_id position = Some m ->
  0 <= entry_index position <= 100 ->
  0 <= se_momentum_index env <= 100 ->
  let momentum_change := se_momentum_index env - entry_index position in
  let p := if wins (position_type position) momentum_change
           then profit position momentum_change
           else fneg (amount position) in
  exists resp : SettleResponse,
    settle_position s pid env = Ok (settled_store s ref position p, resp)
    /\ resp_pnl resp = py_round p 4
    /\ heap (settled_store s ref position p) !! ref
       = Some (mark_settled position (py_round p 4)).
Proof.
  intros Hpid Href Hunset Hdelta Hend Hnow Hm Hentry Hexit momentum_change p.
  unfold settle_position. rewrite Hpid, Href, Hunset, Hdelta. simpl.
  rewrite Hend. simpl.
  destruct (Z.ltb_spec (se_now env) window_end); [lia|].
  rewrite Hm. fold momentum_change.
  rewrite raw_pnl_in_range by (unfold momentum_change; lia).
  simpl. eexists. split; [reflexivity|]. split; [reflexivity|].
  apply list_lookup_insert_eq. eapply lookup_lt_Some. exact Href.
Qed.


(** *** Well-formed stores *)

Lemma initial_well_formed : well_formed data_store.
Proof.
  split.
  - intros pid ref H. simpl in H. rewrite lookup_empty in H. discriminate.
  - intros ref p H. simpl in H. rewrite lookup_nil in H. discriminate.
Qed.

Lemma step_well_formed (s : DataStore) (c : call) :
  well_formed s -> index_in_range c -> well_formed (step s c).
Proof.
  intros [Hrefs Hobjs] Hc.
  destruct c as [request env|pid env|pid|wallet]; simpl;
    try (split; assumption).
  - destruct (matches s !! req_match_id request) as [m|] eqn:Hm.
    + destruct (open_position_known s request env m Hm)
        as (s' & -> & Hmatches & Hheap & Hpos & _).
      split.
      * intros pid ref Hpid. rewrite Hpos in Hpid. rewrite Hheap.
        apply lookup_lt_is_Some. rewrite length_app. simpl.
        destruct (decide (oe_position_id env = pid)) as [Heq|Hne].
        -- rewrite Heq, lookup_insert_eq in Hpid. inversion Hpid. lia.
        -- rewrite lookup_insert_ne in Hpid by exact Hne.
           apply Hrefs, lookup_lt_is_Some in Hpid. lia.
      * intros ref p Hp. rewrite Hheap in Hp. rewrite Hmatches.
        apply lookup_app_Some in Hp. destruct Hp as [Hold|[_ Hnew]].
        -- exact (Hobjs ref p Hold).
        -- destruct (ref - length (heap s))%nat; simpl in Hnew;
             [|discriminate].
           inversion Hnew; subst. simpl. rewrite Hm. split; [eauto|exact Hc].
    + rewrite (open_position_unknown s request env Hm). split; assumption.
  - destruct (settle_position s pid env) as [[s' resp]|e] eqn:Hsettle;
      [|split; assumption].
    apply settle_position_ok in Hsettle.
    destruct Hsettle as (r & q & delta & wend & x & _ & Hq & _ & _ & _
                           & _ & _ & -> & _).
    split; simpl.
    + intros pid' ref Hpid. apply lookup_lt_is_Some. rewrite length_insert.
      apply lookup_lt_is_Some, (Hrefs pid'), Hpid.
    + intros ref p Hp. apply list_lookup_insert_Some in Hp.
      destruct Hp as [(-> & <- & _)|(_ & Hold)].
      * simpl. exact (Hobjs _ _ Hq).
      * exact (Hobjs ref p Hold).
Qed.

Lemma run_well_formed (cs : list call) :
  forall s : DataStore,
    well_formed s -> Forall index_in_range cs -> well_formed (run s cs).
Proof.
  induction cs as [|c cs IH]; intros s Hwf Hcs; [exact Hwf|].
  inversion Hcs as [|? ? Hc Hrest]; subst.
  apply (IH (step s c)); [apply step_well_formed; assumption|exact Hrest].
Qed.


(** *** The PnL rule *)

Lemma stored_pnl_ok (s s' : DataStore) (pid : string) (env : settle_env)
    (resp : SettleResponse) :
  settle_position s pid env = Ok (s', resp) ->
  exists (position : TradingPosition) (p : spec_float),
    deref s pid = Some position
    /\ is_settled position = false
    /\ raw_pnl position (se_momentum_index env - entry_index position) = Ok p
    /\ stored_pnl s pid env = Some (py_round p 4)
    /\ resp_pnl resp = py_round p 4
    /\ (position' ← deref s' pid; Some (is_settled position')) = Some true.
Proof.
  intros Hsettle. unfold stored_pnl. rewrite Hsettle.
  apply settle_position_ok in Hsettle.
  destruct Hsettle as (ref & position & delta & wend & p & Hpid & Href
                         & Hunset & _ & _ & _ & Hp & -> & Hresp).
  exists position, p. unfold deref. simpl. rewrite Hpid. simpl.
  rewrite list_lookup_insert_eq by (eapply lookup_lt_Some; exact Href).
  simpl. repeat split; assumption.
Qed.

Lemma raw_pnl_cases (position : TradingPosition) (momentum_change : Z)
    (p : spec_float) :
  raw_pnl position momentum_change = Ok p ->
  if wins (position_type position) momentum_change
  then p = profit position momentum_change
  else p = fneg (amount position).
Proof.
  unfold raw_pnl, wins, profit, int_truediv. simpl (100 =? 0). cbv iota.
  destruct (position_type position).
  - destruct (momentum_change >? 0); [|intros H; congruence].
    destruct (is_finite _); simpl; intros H; congruence.
  - destruct (momentum_change <? 0); [|intros H; congruence].
    destruct (is_finite _); simpl; intros H; congruence.
Qed.

(** C1, as amended: a settlement that succeeds stores, for a LONG position
    whose index rose and for a SHORT position whose index fell,
    [amount * (|delta| / 100) * 0.98] rounded to 4 decimals, and in every
    other case (an unchanged index included) [-amount] rounded to 4
    decimals.  With entry index 40, exit index 60 and amount 100 the stored
    PnL is 19.6 for LONG and -100 for SHORT. *)
Theorem settled_pnl_rule :
  (forall (s s' : DataStore) (pid : string) (env : settle_env)
          (resp : SettleResponse),
      settle_position s pid env = Ok (s', resp) ->
      exists position : TradingPosition,
        deref s pid = Some position
        /\ let delta := se_momentum_index env - entry_index position in
           let win :=
             py_round
               (fmul (fmul (amount position)
                        (SFdiv prec emax (exact (Z.abs delta)) (exact 100)))
                     (dec 98 2)) 4 in
           let loss := py_round (fneg (amount position)) 4 in
           stored_pnl s pid env
           = Some match position_type position with
                  | LONG => if delta >? 0 then win else loss
                  | SHORT => if delta <? 0 then win else loss
                  end)
  /\ stored_pnl (opened LONG (of_int 100) 300 40) sample_id (settle_at t_due 60)
     = Some (dec 196 1)
  /\ stored_pnl (opened SHORT (of_int 100) 300 40) sample_id (settle_at t_due 60)
     = Some (of_int (-100)).
Proof.
  split; [|split; vm_compute; reflexivity].
  intros s s' pid env resp Hsettle.
  destruct (stored_pnl_ok s s' pid env resp Hsettle)
    as (position & p & Hderef & _ & Hp & Hstored & _).
  exists position. split; [exact Hderef|].
  intros delta win loss. rewrite Hstored. f_equal.
  apply raw_pnl_cases in Hp. fold delta in Hp.
  unfold wins, profit in Hp. unfold win, loss.
  destruct (position_type position).
  - destruct (delta >? 0); rewrite Hp; reflexivity.
  - destruct (delta <? 0); rewrite Hp; reflexivity.
Qed.

(** C1, as stated, fails in the losing case: a LONG position of amount
    0.12345 whose index fell from 60 to 40 stores -0.1235, not -0.12345. *)
Lemma stored_loss_is_rounded :
  stored_pnl (opened LONG (dec 12345 5) 300 60) sample_id (settle_at t_due 40)
  = Some (fneg (dec 1235 4))
  /\ fneg (dec 1235 4) <> fneg (dec 12345 5).
Proof. split; [vm_compute; reflexivity | vm_compute; discriminate]. Qed.

(** *** A window too long for the calendar *)

(** C3, at a failing input: a request with a window of [10^12] seconds is
    accepted on 2026-11-03 and its position stored unsettled, but that
    position can never be settled.  Whatever the clock and the index,
    [settle_position] raises [OverflowError] when it adds the window to the
    entry time; it neither answers "Trading window not ended" nor succeeds,
    and the position stays as it was. *)
Theorem settle_overflows_on_long_window
    (now : PyTime.datetime) (index : Z) :
  let request := sample_request LONG (of_int 100) (10 ^ 12) in
  let s := opened LONG (of_int 100) (10 ^ 12) 40 in
  open_position data_store request (sample_open_env 40)
  = Ok (s, fresh_position request (sample_open_env 40))
  /\ deref s sample_id = Some (fresh_position request (sample_open_env 40))
  /\ settle_position s sample_id (settle_at now index) = Raise OverflowError
  /\ step s (SettlePosition sample_id (settle_at now index)) = s.
Proof. repeat split. Qed.

(** *** Lookups *)

Lemma get_position_unknown (s : DataStore) (pid : string) :
  positions s !! pid = None ->
  get_position s pid = Raise (HTTPException 404 "Position not found").
Proof. intros H. unfold get_position, deref. rewrite H. reflexivity. Qed.

Lemma get_user_positions_unknown (s : DataStore) (wallet_address : string) :
  user_positions s !! wallet_address = None ->
  get_user_positions s wallet_address = [].
Proof. intros H. unfold get_user_positions. rewrite H. reflexivity. Qed.

Lemma get_position_after_open (s : DataStore) (request : OpenPositionRequest)
    (env : open_env) (m : MatchData) :
  matches s !! req_match_id request = Some m ->
  get_position (step s (OpenPosition request env)) (oe_position_id env)
  = Ok (fresh_position request env).
Proof.
  intros Hm.
  destruct (open_position_known s request env m Hm)
    as (s' & Hopen & _ & _ & _ & Hderef).
  simpl. rewrite Hopen. unfold get_position. rewrite Hderef. reflexivity.
Qed.

End BackendProps.

(** * Further properties *)

(** ** Slices *)

Module SliceProps.
Import PySlice.

Lemma slice_from_zero {A : Type} (l : list A) : slice_from 0 l = l.
Proof. unfold slice_from. simpl. rewrite Z.min_l by lia. reflexivity. Qed.

(** [l[-k:]] for [k > 0]: the last [k] elements, all of them when the list
    is shorter. *)
Lemma slice_from_negative {A : Type} (k : Z) (l : list A) :
  0 < k -> slice_from (- k) l = drop (length l - Z.to_nat k) l.
Proof.
  intros Hk. unfold slice_from.
  destruct (Z.ltb_spec (- k) 0) as [_|H]; [|lia].
  f_equal. lia.
Qed.

(** [l[k:]] for [k > 0]: the list without its first [k] elements. *)
Lemma slice_from_positive {A : Type} (k : Z) (l : list A) :
  0 < k -> slice_from k l = drop (Z.to_nat k) l.
Proof.
  intros Hk. unfold slice_from.
  destruct (Z.ltb_spec k 0) as [H|_]; [lia|].
  destruct (Z.le_gt_cases k (Z.of_nat (length l))) as [Hle|Hgt].
  - rewrite Z.min_l by lia. reflexivity.
  - rewrite Z.min_r by lia. rewrite Nat2Z.id.
    rewrite drop_all. symmetry. apply drop_ge. lia.
Qed.

Lemma slice_from_last_n {A : Type} (n : nat) (l : list A) :
  (0 < n)%nat -> slice_from (- Z.of_nat n) l = Backend.last_n n l.
Proof.
  intros Hn. rewrite slice_from_negative by lia.
  unfold Backend.last_n. rewrite Nat2Z.id. reflexivity.
Qed.

Lemma slice_from_length {A : Type} (k : Z) (l : list A) :
  0 < k -> length (slice_from (- k) l) = Nat.min (Z.to_nat k) (length l).
Proof.
  intros Hk. rewrite slice_from_negative by exact Hk.
  rewrite length_drop. lia.
Qed.

Lemma slice_from_suffix {A : Type} (k : Z) (l : list A) :
  slice_from k l `suffix_of` l.
Proof. unfold slice_from. apply suffix_drop. Qed.

End SliceProps.

(** ** The oracle monitor: history, trusted index, status *)

Module OracleHistoryProps.
Import Oracle OracleSpec OracleStatus OracleHistory.

(** *** One publication *)

Lemma update_ok_history (o : MomentumOracle) (match_id : string) (index : Z)
    (now : PyTime.datetime) :
  update_history (fst (update_momentum_on_chain o match_id index true now))
  = PySlice.slice_from (-100)
      (update_history o ++ [update_record match_id index now]).
Proof.
  unfold update_momentum_on_chain, update_record. simpl.
  set (h := update_history o ++ _).
  change (-100) with (- Z.of_nat 100).
  rewrite SliceProps.slice_from_last_n by lia.
  destruct (Z.ltb_spec 100 (Z.of_nat (length h))) as [Hlong|Hshort];
    [reflexivity|].
  unfold Backend.last_n. replace (length h - 100)%nat with 0%nat by lia.
  reflexivity.
Qed.

Lemma update_fail_same (o : MomentumOracle) (match_id : string) (index : Z)
    (now : PyTime.datetime) :
  update_momentum_on_chain o match_id index false now = (o, false).
Proof. reflexivity. Qed.

(** A tick whose reading is accepted and published. *)
Lemma tick_published (match_id : string) (o : MomentumOracle)
    (st : MonitorState) (env : tick_env) (data : MatchMomentum) :
  te_fetch env = Fetched data ->
  validate_momentum_change (last_momentum st) (momentum_index data)
    default_max_change = true ->
  te_publish_ok env = true ->
  monitor_tick match_id o st env
  = ({| active_matches := <[match_id := data]> (active_matches o);
        update_history :=
          PySlice.slice_from (-100)
            (update_history o
             ++ [update_record match_id (momentum_index data) (te_now env)]) |},
     {| last_momentum := momentum_index data; consecutive_failures := 0 |}).
Proof.
  intros Hfetch Hvalid Hok. unfold monitor_tick.
  rewrite Hfetch, Hvalid, Hok.
  pose proof (update_ok_history o match_id (momentum_index data) (te_now env))
    as Hh.
  unfold update_momentum_on_chain in *. simpl in *. rewrite Hh. reflexivity.
Qed.

(** What a tick does to the history: nothing, or one publication. *)
Lemma tick_history (match_id : string) (o : MomentumOracle)
    (st : MonitorState) (env : tick_env) :
  (update_history (fst (monitor_tick match_id o st env)) = update_history o
   /\ last_momentum (snd (monitor_tick match_id o st env)) = last_momentum st
   /\ active_matches (fst (monitor_tick match_id o st env))
      = active_matches o)
  \/ exists data : MatchMomentum,
       te_fetch env = Fetched data
       /\ Z.abs (momentum_index data - last_momentum st) <= 20
       /\ update_history (fst (monitor_tick match_id o st env))
          = PySlice.slice_from (-100)
              (update_history o
               ++ [update_record match_id (momentum_index data) (te_now env)])
       /\ last_momentum (snd (monitor_tick match_id o st env))
          = momentum_index data
       /\ active_matches (fst (monitor_tick match_id o st env))
          = <[match_id := data]> (active_matches o).
Proof.
  unfold monitor_tick.
  destruct (te_fetch env) as [data| |] eqn:Hfetch; simpl; auto.
  destruct (validate_momentum_change _ _ _) eqn:Hv; simpl; auto.
  destruct (te_publish_ok env) eqn:Hok.
  - right. exists data. split; [reflexivity|].
    apply OracleProps.validate_true_iff in Hv.
    unfold default_max_change in Hv. split; [exact Hv|].
    pose proof (update_ok_history o match_id (momentum_index data) (te_now env))
      as Hh.
    destruct (update_momentum_on_chain o match_id (momentum_index data) true
                (te_now env)) as [o' b] eqn:Hup.
    assert (b = true) as ->.
    { unfold update_momentum_on_chain in Hup. congruence. }
    assert (active_matches o' = active_matches o) as Ha.
    { unfold update_momentum_on_chain in Hup. inversion Hup. reflexivity. }
    simpl in *. rewrite Ha. auto.
  - left. simpl. auto.
Qed.

(** *** The length of the history *)

Lemma slice_100_length (h : list UpdateRecord) :
  (length (PySlice.slice_from (-100) h) <= 100)%nat.
Proof.
  change (-100) with (Z.opp 100).
  rewrite SliceProps.slice_from_length by lia. lia.
Qed.

Lemma tick_history_bounded (match_id : string) (o : MomentumOracle)
    (st : MonitorState) (env : tick_env) :
  (length (update_history o) <= 100)%nat ->
  (length (update_history (fst (monitor_tick match_id o st env))) <= 100)%nat.
Proof.
  intros Hlen.
  destruct (tick_history match_id o st env)
    as [(-> & _)|(data & _ & _ & -> & _)]; [exact Hlen|].
  apply slice_100_length.
Qed.

Lemma loop_history_bounded (match_id : string) (envs : list tick_env) :
  forall (o : MomentumOracle) (st : MonitorState),
    (length (update_history o) <= 100)%nat ->
    (length (update_history (mr_oracle (monitor_loop match_id envs o st)))
     <= 100)%nat.
Proof.
  induction envs as [|env envs IH]; intros o st Hlen; simpl;
    destruct (consecutive_failures st <? max_failures); simpl; try exact Hlen.
  pose proof (tick_history_bounded match_id o st env Hlen) as Ht.
  destruct (monitor_tick match_id o st env) as [o' st']. apply IH, Ht.
Qed.

(** X1: a monitor never lets the update history grow beyond 100 records:
    started on a history of at most 100 records, it leaves at most 100,
    whatever the ticks bring. *)
Theorem monitor_keeps_history_bounded
    (match_id : string) (envs : list tick_env) (o : MomentumOracle) :
  (length (update_history o) <= 100)%nat ->
  (length (update_history (mr_oracle (monitor_match match_id envs o)))
   <= 100)%nat.
Proof. intros Hlen. apply loop_history_bounded, Hlen. Qed.

Lemma monitor_keeps_history_bounded_witness :
  (length (update_history empty_oracle) <= 100)%nat
  /\ (length (update_history
                (mr_oracle (monitor_match "match_001"
                              [sample_env 60 true; sample_env 65 true]
                              empty_oracle))) <= 100)%nat.
Proof.
  assert (H : (length (update_history empty_oracle) <= 100)%nat)
    by (simpl; lia).
  split; [exact H|].
  exact (monitor_keeps_history_bounded "match_001"
           [sample_env 60 true; sample_env 65 true] empty_oracle H).
Defined.

End OracleHistoryProps.

Module OracleTrustProps.
Import Oracle OracleSpec OracleStatus OracleHistory OracleHistoryProps.

(** *** Small steps *)

Lemma small_steps_suffix (l1 l2 : list UpdateRecord) :
  l1 `suffix_of` l2 -> small_steps l2 -> small_steps l1.
Proof.
  intros [k ->] Hsteps i r r' Hr Hr'.
  apply (Hsteps (length k + i)%nat r r').
  - rewrite lookup_app_r by lia.
    replace (length k + i - length k)%nat with i by lia. exact Hr.
  - replace (S (length k + i)) with (length k + S i)%nat by lia.
    rewrite lookup_app_r by lia.
    replace (length k + S i - length k)%nat with (S i) by lia. exact Hr'.
Qed.

Lemma small_steps_snoc (l : list UpdateRecord) (r : UpdateRecord) (t : Z) :
  small_steps l ->
  (forall r0 : UpdateRecord, last l = Some r0 -> ur_momentum_index r0 = t) ->
  Z.abs (ur_momentum_index r - t) <= 20 ->
  small_steps (l ++ [r]).
Proof.
  intros Hsteps Hlast Hr i a b Ha Hb.
  destruct (decide (S i < length l)%nat) as [Hin|Hout].
  - rewrite lookup_app_l in Ha by lia. rewrite lookup_app_l in Hb by lia.
    exact (Hsteps i a b Ha Hb).
  - assert (Hlen : S i = length l).
    { apply lookup_lt_Some in Hb. rewrite length_app in Hb. simpl in Hb.
      lia. }
    rewrite lookup_app_l in Ha by lia.
    rewrite lookup_app_r in Hb by lia.
    replace (S i - length l)%nat with 0%nat in Hb by lia.
    simpl in Hb. inversion Hb; subst b.
    rewrite (Hlast a); [exact Hr|].
    rewrite last_lookup. rewrite <- Hlen. simpl. exact Ha.
Qed.

Lemma records_of_suffix (match_id : string) (l1 l2 : list UpdateRecord) :
  l1 `suffix_of` l2 -> records_of match_id l1 `suffix_of` records_of match_id l2.
Proof.
  intros [k ->]. unfold records_of. rewrite filter_app.
  eexists. reflexivity.
Qed.

Lemma records_of_snoc (match_id : string) (l : list UpdateRecord) (index : Z)
    (now : PyTime.datetime) :
  records_of match_id (l ++ [update_record match_id index now])
  = records_of match_id l ++ [update_record match_id index now].
Proof.
  unfold records_of. rewrite filter_app. f_equal.
  rewrite filter_cons_True by reflexivity. reflexivity.
Qed.

Lemma last_records_of (match_id : string) (l : list UpdateRecord)
    (r : UpdateRecord) :
  last l = Some r -> ur_match_id r = match_id ->
  last (records_of match_id l) = Some r.
Proof.
  intros Hlast Hid. apply last_Some in Hlast. destruct Hlast as [l' ->].
  unfold records_of. rewrite filter_app.
  rewrite (filter_cons_True _ r []) by exact Hid.
  apply last_snoc.
Qed.

Lemma last_slice_100 (l : list UpdateRecord) (r : UpdateRecord) :
  last (PySlice.slice_from (-100) (l ++ [r])) = Some r.
Proof.
  change (-100) with (- Z.of_nat 100).
  rewrite SliceProps.slice_from_last_n by lia.
  apply OracleProps.last_n_snoc. lia.
Qed.

(** What a monitor keeps true of the records of its match. *)
Definition chained (match_id : string) (o : MomentumOracle)
    (st : MonitorState) : Prop :=
  small_steps (records_of match_id (update_history o))
  /\ last_is_trusted (records_of match_id (update_history o)) st.

Lemma tick_chained (match_id : string) (o : MomentumOracle)
    (st : MonitorState) (env : tick_env) :
  chained match_id o st ->
  chained match_id (fst (monitor_tick match_id o st env))
    (snd (monitor_tick match_id o st env)).
Proof.
  intros [Hsteps Hlast].
  destruct (tick_history match_id o st env)
    as [(Hh & Hl & _)|(data & _ & Hband & Hh & Hl & _)].
  - unfold chained, last_is_trusted. rewrite Hh, Hl. split; assumption.
  - set (r := update_record match_id (momentum_index data) (te_now env)) in *.
    assert (Hsnoc : small_steps (records_of match_id (update_history o ++ [r]))).
    { unfold r. rewrite records_of_snoc.
      apply (small_steps_snoc _ _ (last_momentum st)); assumption. }
    unfold chained, last_is_trusted. rewrite Hh, Hl. split.
    + eapply small_steps_suffix; [|exact Hsnoc].
      apply records_of_suffix, SliceProps.slice_from_suffix.
    + intros r0 Hr0.
      rewrite (last_records_of match_id _ r) in Hr0;
        [|apply last_slice_100|reflexivity].
      inversion Hr0. reflexivity.
Qed.

Lemma loop_chained (match_id : string) (envs : list tick_env) :
  forall (o : MomentumOracle) (st : MonitorState),
    chained match_id o st ->
    chained match_id (mr_oracle (monitor_loop match_id envs o st))
      (mr_state (monitor_loop match_id envs o st)).
Proof.
  induction envs as [|env envs IH]; intros o st Hc; simpl;
    destruct (consecutive_failures st <? max_failures); simpl; try exact Hc.
  pose proof (tick_chained match_id o st env Hc) as Ht.
  destruct (monitor_tick match_id o st env) as [o' st']. apply IH, Ht.
Qed.

(** X2: within the life of one monitor, started when the history holds no
    record of its match, any two consecutive records of that match in the
    update history differ by at most 20 in their index, and the last of
    them carries the index the monitor currently trusts. *)
Theorem published_indexes_move_by_small_steps
    (match_id : string) (envs : list tick_env) (o : MomentumOracle) :
  records_of match_id (update_history o) = [] ->
  let run := monitor_match match_id envs o in
  small_steps (records_of match_id (update_history (mr_oracle run)))
  /\ last_is_trusted (records_of match_id (update_history (mr_oracle run)))
       (mr_state run).
Proof.
  intros Hnone run. apply loop_chained.
  unfold chained, small_steps, last_is_trusted. rewrite Hnone.
  split; intros; discriminate.
Qed.

Lemma published_indexes_move_by_small_steps_witness :
  records_of "match_001" (update_history empty_oracle) = []
  /\ small_steps
       (records_of "match_001"
          (update_history
             (mr_oracle (monitor_match "match_001"
                           [sample_env 60 true; sample_env 75 true;
                            sample_env 99 true] empty_oracle)))).
Proof.
  assert (H : records_of "match_001" (update_history empty_oracle) = [])
    by reflexivity.
  split; [exact H|].
  exact (proj1 (published_indexes_move_by_small_steps "match_001"
                  [sample_env 60 true; sample_env 75 true; sample_env 99 true]
                  empty_oracle H)).
Defined.

(** *** The active entry and the status report *)

Lemma tick_active_trusted (match_id : string) (o : MomentumOracle)
    (st : MonitorState) (env : tick_env) :
  active_is_trusted match_id o st ->
  active_is_trusted match_id (fst (monitor_tick match_id o st env))
    (snd (monitor_tick match_id o st env)).
Proof.
  intros Ha.
  destruct (tick_history match_id o st env)
    as [(_ & Hl & Hact)|(data & _ & _ & _ & Hl & Hact)];
    unfold active_is_trusted; rewrite Hl, Hact.
  - exact Ha.
  - intros d Hd. rewrite lookup_insert_eq in Hd. inversion Hd. reflexivity.
Qed.

Lemma loop_active_trusted (match_id : string) (envs : list tick_env) :
  forall (o : MomentumOracle) (st : MonitorState),
    active_is_trusted match_id o st ->
    active_is_trusted match_id (mr_oracle (monitor_loop match_id envs o st))
      (mr_state (monitor_loop match_id envs o st)).
Proof.
  induction envs as [|env envs IH]; intros o st Ha; simpl;
    destruct (consecutive_failures st <? max_failures); simpl;
    try exact Ha;
    try (intros d Hd; simpl in Hd; rewrite lookup_delete_eq in Hd;
         discriminate).
  pose proof (tick_active_trusted match_id o st env Ha) as Ht.
  destruct (monitor_tick match_id o st env) as [o' st']. apply IH, Ht.
Qed.

(** X3: for a monitor started while its match is not in the active set, the
    status report shows, for that match, exactly the index the monitor
    currently trusts, and shows the match only while the monitor is in its
    loop. *)
Theorem status_shows_trusted_index
    (match_id : string) (envs : list tick_env) (o : MomentumOracle)
    (pubkey : string) (time : spec_float) (line : MatchStatusLine) :
  active_matches o !! match_id = None ->
  let run := monitor_match match_id envs o in
  status_matches (get_status (mr_oracle run) pubkey time) !! match_id
  = Some line ->
  sl_momentum_index line = last_momentum (mr_state run)
  /\ mr_status run = Monitoring.
Proof.
  intros Hnone run Hline. unfold get_status in Hline. simpl in Hline.
  rewrite lookup_fmap in Hline.
  destruct (active_matches (mr_oracle run) !! match_id) as [data|] eqn:Hdata;
    [|discriminate].
  simpl in Hline. inversion Hline; subst line. simpl. split.
  - refine (loop_active_trusted match_id envs o initial_state _ data Hdata).
    intros d Hd. rewrite Hnone in Hd. discriminate.
  - destruct (mr_status run) eqn:Hstatus; [reflexivity|].
    assert (Hshape : run_shape match_id run).
    { apply OracleProps.monitor_loop_shape. simpl. unfold max_failures. lia. }
    rewrite (rs_removed _ _ Hshape Hstatus) in Hdata. discriminate.
Qed.

Lemma status_shows_trusted_index_witness :
  active_matches empty_oracle !! "match_001" = None
  /\ status_matches
       (get_status
          (mr_oracle (monitor_match "match_001" [sample_env 60 true]
                        empty_oracle)) "pubkey" (PyFloat.of_int 0))
     !! "match_001"
     = Some {| sl_momentum_index := 60;
               sl_last_update := 63929295900000000 |}
  /\ 60 = last_momentum
            (mr_state (monitor_match "match_001" [sample_env 60 true]
                         empty_oracle)).
Proof.
  assert (H0 : active_matches empty_oracle !! "match_001" = None)
    by reflexivity.
  assert (H1 : status_matches
       (get_status
          (mr_oracle (monitor_match "match_001" [sample_env 60 true]
                        empty_oracle)) "pubkey" (PyFloat.of_int 0))
     !! "match_001"
     = Some {| sl_momentum_index := 60;
               sl_last_update := 63929295900000000 |})
    by (vm_compute; reflexivity).
  split; [exact H0|]. split; [exact H1|].
  exact (proj1 (status_shows_trusted_index "match_001" [sample_env 60 true]
                  empty_oracle "pubkey" (PyFloat.of_int 0) _ H0 H1)).
Defined.

(** *** A feed that starts far from 50 *)

Lemma far_tick (match_id : string) (o : MomentumOracle) (env : tick_env) :
  far_from_50 env -> monitor_tick match_id o initial_state env
                     = (o, initial_state).
Proof.
  unfold far_from_50. intros Hfar.
  destruct (te_fetch env) as [data| |] eqn:Hfetch; try contradiction.
  apply (OracleProps.monitor_tick_rejected match_id o initial_state env data
           Hfetch).
  destruct (validate_momentum_change _ _ _) eqn:Hv; [|reflexivity].
  exfalso. apply Hfar.
  apply OracleProps.validate_default_band in Hv. simpl in Hv. lia.
Qed.

(** X4: a monitor whose readings all lie outside 30..70 never publishes,
    never counts a failure and never stops: after any number of such ticks
    the oracle is as it was and the monitor is in its first state.  As its
    match has not entered the active set, each discovery round in which the
    match is live starts one more monitor for it. *)
Theorem far_feed_is_never_published
    (match_id : string) (envs : list tick_env) (o : MomentumOracle) :
  Forall far_from_50 envs ->
  monitor_match match_id envs o
  = {| mr_oracle := o; mr_state := initial_state;
       mr_unconsumed := []; mr_status := Monitoring |}
  /\ (active_matches o !! match_id = None ->
      forall live_matches : list string,
        In match_id live_matches ->
        In match_id
          (discovered (mr_oracle (monitor_match match_id envs o))
             live_matches)).
Proof.
  intros Hfar.
  assert (Hrun : monitor_match match_id envs o
                 = {| mr_oracle := o; mr_state := initial_state;
                      mr_unconsumed := []; mr_status := Monitoring |}).
  { unfold monitor_match.
    induction Hfar as [|env envs Henv _ IH].
    - apply OracleProps.monitor_loop_idle. simpl. unfold max_failures. lia.
    - rewrite OracleProps.monitor_loop_continue
        by (simpl; unfold max_failures; lia).
      rewrite (far_tick match_id o env Henv). simpl. exact IH. }
  split; [exact Hrun|].
  intros Hnone live Hin. rewrite Hrun. simpl.
  apply OracleProps.discovered_absent; assumption.
Qed.

Lemma far_feed_is_never_published_witness :
  Forall far_from_50 [far_env 75; far_env 76; far_env 74]
  /\ monitor_match "match_001" [far_env 75; far_env 76; far_env 74]
       empty_oracle
     = {| mr_oracle := empty_oracle; mr_state := initial_state;
          mr_unconsumed := []; mr_status := Monitoring |}.
Proof.
  assert (H : Forall far_from_50 [far_env 75; far_env 76; far_env 74]).
  { repeat (apply Forall_cons_2; [unfold far_from_50; simpl; lia|]).
    apply Forall_nil_2. }
  split; [exact H|].
  exact (proj1 (far_feed_is_never_published "match_001"
                  [far_env 75; far_env 76; far_env 74] empty_oracle H)).
Defined.

(** *** The status report after a publication *)

(** X5: after a tick whose reading is accepted and published, the status
    report lists the match with the index and the timestamp of that
    reading, counts at least one active match, and its recent updates, at
    most ten, end with the record of that publication. *)
Theorem status_after_publication
    (match_id : string) (o : MomentumOracle) (st : MonitorState)
    (env : tick_env) (data : MatchMomentum) (pubkey : string)
    (time : spec_float) :
  te_fetch env = Fetched data ->
  validate_momentum_change (last_momentum st) (momentum_index data)
    default_max_change = true ->
  te_publish_ok env = true ->
  let status :=
    get_status (fst (monitor_tick match_id o st env)) pubkey time in
  status_matches status !! match_id
  = Some {| sl_momentum_index := momentum_index data;
            sl_last_update := timestamp data |}
  /\ (1 <= status_active_matches status)%nat
  /\ (length (recent_updates status) <= 10)%nat
  /\ last (recent_updates status)
     = Some (update_record match_id (momentum_index data) (te_now env)).
Proof.
  intros Hfetch Hvalid Hok status. unfold status.
  rewrite (tick_published match_id o st env data Hfetch Hvalid Hok).
  unfold get_status. simpl.
  split; [rewrite lookup_fmap, lookup_insert_eq; reflexivity|].
    split.
    { assert (Hin : is_Some (<[match_id := data]> (active_matches o)
                             !! match_id))
        by (rewrite lookup_insert_eq; eauto).
      destruct (size (<[match_id := data]> (active_matches o))) eqn:Hsize;
        [|lia].
      apply map_size_empty_iff in Hsize. rewrite Hsize in Hin.
      rewrite lookup_empty in Hin. destruct Hin; discriminate. }
    split.
    { change (-10) with (Z.opp 10).
      rewrite SliceProps.slice_from_length by lia. lia. }
    set (h := PySlice.slice_from (-100) _).
    assert (Hlast : last h = Some (update_record match_id
                                     (momentum_index data) (te_now env)))
      by apply last_slice_100.
    apply last_Some in Hlast. destruct Hlast as [h' ->].
    change (-10) with (- Z.of_nat 10).
    rewrite SliceProps.slice_from_last_n by lia.
    apply OracleProps.last_n_snoc. lia.
Qed.

Lemma status_after_publication_witness :
  te_fetch (sample_env 60 true) = Fetched (sample_reading 60)
  /\ validate_momentum_change (last_momentum two_failures)
       (momentum_index (sample_reading 60)) default_max_change = true
  /\ te_publish_ok (sample_env 60 true) = true
  /\ status_matches
       (get_status
          (fst (monitor_tick "match_001" empty_oracle two_failures
                  (sample_env 60 true))) "pubkey" (PyFloat.of_int 0))
     !! "match_001"
     = Some {| sl_momentum_index := 60;
               sl_last_update := 63929295900000000 |}.
Proof.
  repeat (split; [reflexivity|]).
  exact (proj1 (status_after_publication "match_001" empty_oracle
                  two_failures (sample_env 60 true) (sample_reading 60)
                  "pubkey" (PyFloat.of_int 0) eq_refl eq_refl eq_refl)).
Defined.

End OracleTrustProps.

(** ** Recent events *)

Module EventProps.
Import PyFloat Backend EventSpec.

Lemma last_n_app_long {A : Type} (n : nat) (old recent : list A) :
  (n <= length recent)%nat -> last_n n (old ++ recent) = last_n n recent.
Proof.
  intros Hlen. unfold last_n. rewrite length_app.
  rewrite drop_app_ge by lia. f_equal. lia.
Qed.

Lemma event_score_window (old recent : list event) :
  (10 <= length recent)%nat ->
  event_score (old ++ recent) = event_score recent.
Proof.
  intros Hlen. unfold event_score.
  rewrite (last_n_app_long 10 old recent Hlen).
  destruct recent as [|e recent]; [simpl in Hlen; lia|].
  destruct old; reflexivity.
Qed.

(** X6: only the last ten recent events count.  Events that are followed by
    ten or more others change neither the event term nor the index
    [calculate_momentum] returns. *)
Theorem only_last_ten_events_count
    (old recent : list event)
    (possession : spec_float) (shots_home shots_away : Z)
    (xg_home xg_away field_tilt volatility : spec_float) :
  (10 <= length recent)%nat ->
  event_score (old ++ recent) = event_score recent
  /\ calculate_momentum possession shots_home shots_away xg_home xg_away
       field_tilt (old ++ recent) volatility
     = calculate_momentum possession shots_home shots_away xg_home xg_away
         field_tilt recent volatility.
Proof.
  intros Hlen. split; [exact (event_score_window old recent Hlen)|].
  unfold calculate_momentum, noisy_momentum.
  rewrite (event_score_window old recent Hlen). reflexivity.
Qed.

Lemma only_last_ten_events_count_witness :
  (10 <= length (replicate 10 away_corner))%nat
  /\ event_score (replicate 7 home_shot ++ replicate 10 away_corner)
     = event_score (replicate 10 away_corner).
Proof.
  assert (H : (10 <= length (replicate 10 away_corner))%nat)
    by (simpl; lia).
  split; [exact H|].
  exact (proj1 (only_last_ten_events_count (replicate 7 home_shot)
                  (replicate 10 away_corner) (of_int 50) 0 0
                  (of_int 0) (of_int 0) (of_int 0) (of_int 0) H)).
Defined.

(** *** The two sides *)

Lemma mirror_cases (e : event) :
  (e !! "team" = Some "home" /\ mirror e = <["team" := "away"]> e)
  \/ (e !! "team" = Some "away" /\ mirror e = <["team" := "home"]> e)
  \/ (e !! "team" <> Some "home" /\ e !! "team" <> Some "away"
      /\ mirror e = e).
Proof.
  unfold mirror, get_is.
  destruct (decide (e !! "team" = Some "home")) as [Hh|Hh].
  - left. rewrite bool_decide_true by exact Hh. auto.
  - rewrite (bool_decide_false _ Hh).
    destruct (decide (e !! "team" = Some "away")) as [Ha|Ha].
    + right; left. rewrite bool_decide_true by exact Ha. auto.
    + right; right. rewrite (bool_decide_false _ Ha). auto.
Qed.

Lemma mirror_dangerous (e : event) : dangerous (mirror e) = dangerous e.
Proof.
  unfold dangerous, get_is.
  destruct (mirror_cases e) as [[_ ->]|[[_ ->]|(_ & _ & ->)]];
    unfold event in *; rewrite ?lookup_insert_ne by done; reflexivity.
Qed.

Lemma mirror_home (e : event) :
  get_is (mirror e) "team" "home" = get_is e "team" "away".
Proof.
  unfold get_is.
  destruct (mirror_cases e) as [[H ->]|[[H ->]|(Hh & Ha & ->)]];
    unfold event in *; rewrite ?lookup_insert_eq, ?H.
  - rewrite !bool_decide_false by discriminate. reflexivity.
  - rewrite !bool_decide_true by reflexivity. reflexivity.
  - rewrite !bool_decide_false by assumption. reflexivity.
Qed.

Lemma mirror_away (e : event) :
  get_is (mirror e) "team" "away" = get_is e "team" "home".
Proof.
  unfold get_is.
  destruct (mirror_cases e) as [[H ->]|[[H ->]|(Hh & Ha & ->)]];
    unfold event in *; rewrite ?lookup_insert_eq, ?H.
  - rewrite !bool_decide_true by reflexivity. reflexivity.
  - rewrite !bool_decide_false by discriminate. reflexivity.
  - rewrite !bool_decide_false by assumption. reflexivity.
Qed.

Lemma count_if_ext {A : Type} (f g : A -> bool) (l : list A) :
  (forall x : A, f x = g x) -> count_if f l = count_if g l.
Proof.
  intros Hfg. induction l as [|x l IH]; simpl; [reflexivity|].
  rewrite Hfg, IH. reflexivity.
Qed.

Lemma count_if_fmap {A B : Type} (f : B -> bool) (h : A -> B) (l : list A) :
  count_if f (h <$> l) = count_if (fun x => f (h x)) l.
Proof.
  induction l as [|x l IH]; [reflexivity|].
  change (count_if f (h <$> x :: l))
    with ((if f (h x) then 1 else 0) + count_if f (h <$> l)).
  rewrite IH. reflexivity.
Qed.

Lemma last_n_fmap {A B : Type} (h : A -> B) (n : nat) (l : list A) :
  last_n n (h <$> l) = h <$> last_n n l.
Proof. unfold last_n. rewrite length_fmap, fmap_drop. reflexivity. Qed.

(** X7: the event term treats the two sides alike.  With home and away
    exchanged in every event of a list that is not empty, the term [s]
    becomes [10 - s]; an empty list gives the neutral 5 either way. *)
Theorem event_score_mirror (recent_events : list event) :
  event_score (mirror <$> recent_events) = 10 - event_score recent_events.
Proof.
  destruct recent_events as [|e l]; [reflexivity|].
  change (mirror <$> e :: l) with (mirror e :: (mirror <$> l)).
  unfold event_score.
  change (mirror e :: (mirror <$> l)) with (mirror <$> e :: l).
  rewrite last_n_fmap, !count_if_fmap.
  rewrite (count_if_ext
             (fun x => get_is (mirror x) "team" "home" && dangerous (mirror x))
             (fun x => get_is x "team" "away" && dangerous x))
    by (intros x; rewrite mirror_home, mirror_dangerous; reflexivity).
  rewrite (count_if_ext
             (fun x => get_is (mirror x) "team" "away" && dangerous (mirror x))
             (fun x => get_is x "team" "home" && dangerous x))
    by (intros x; rewrite mirror_away, mirror_dangerous; reflexivity).
  lia.
Qed.

End EventProps.

(** ** The generator *)

Module GeneratorProps.
Import PyFloat FloatSpec FloatBounds Backend Generator GeneratorSpec.

Lemma bind_ok {A B : Type} (r : result A) (k : A -> result B) (b : B) :
  bind r k = Ok b -> exists a : A, r = Ok a /\ k a = Ok b.
Proof. destruct r as [a|e]; simpl; [eauto|discriminate]. Qed.

Lemma bind_raise {A B : Type} (r : result A) (k : A -> result B) (e : exn) :
  bind r k = Raise e ->
  r = Raise e \/ exists a : A, r = Ok a /\ k a = Raise e.
Proof.
  destruct r as [a|e']; simpl; [eauto|].
  intros H. left. inversion H. reflexivity.
Qed.

(** *** The clamp *)

Lemma ltb_leb (x y : spec_float) : SFltb x y = true -> SFleb x y = true.
Proof.
  unfold SFltb, SFleb. destruct (SFcompare x y) as [[| |]|];
    try discriminate; reflexivity.
Qed.

Lemma clamp_in_band (x : spec_float) : in_band 30 70 (py_max 30 (py_min 70 x)).
Proof.
  unfold py_max, py_min, in_band.
  destruct (SFltb x (of_int 70)) eqn:Hhi.
  - destruct (SFltb (of_int 30) x) eqn:Hlo.
    + split; apply ltb_leb; assumption.
    + split; vm_compute; reflexivity.
  - change (SFltb (of_int 30) (of_int 70)) with true. simpl.
    split; vm_compute; reflexivity.
Qed.

(** *** What [calculate_momentum] can raise *)

Lemma truediv_const (x : spec_float) (n : Z) :
  is_zero (of_int n) = false ->
  truediv x (of_int n) = Ok (SFdiv prec emax x (of_int n)).
Proof. intros Hn. unfold truediv. rewrite Hn. reflexivity. Qed.

Lemma xg_score_ok (xg_home xg_away : spec_float) :
  exists s : spec_float, xg_score xg_home xg_away = Ok s.
Proof.
  unfold xg_score. destruct (gt_zero (fadd xg_home xg_away)) eqn:Hgt;
    [|eauto].
  unfold truediv. rewrite (MomentumProps.gt_zero_not_zero _ Hgt).
  simpl. eauto.
Qed.

Lemma field_tilt_score_ok (field_tilt : spec_float) :
  exists s : spec_float, field_tilt_score field_tilt = Ok s.
Proof.
  unfold field_tilt_score. rewrite truediv_const by reflexivity.
  simpl. eauto.
Qed.

Lemma noisy_momentum_ok
    (possession : spec_float) (shots_home shots_away : Z)
    (xg_home xg_away field_tilt : spec_float)
    (recent_events : list event) (volatility : spec_float) :
  0 <= shots_home -> 0 <= shots_away ->
  exists momentum : spec_float,
    noisy_momentum possession shots_home shots_away xg_home xg_away
      field_tilt recent_events volatility = Ok momentum.
Proof.
  intros Hh Ha. unfold noisy_momentum.
  destruct (MomentumProps.shots_score_below shots_home shots_away Hh Ha)
    as (s & -> & _).
  destruct (xg_score_ok xg_home xg_away) as (x & ->).
  destruct (field_tilt_score_ok field_tilt) as (t & ->).
  simpl. eauto.
Qed.

Lemma py_int_raises (x : spec_float) (e : exn) :
  py_int x = Raise e -> conversion_error e.
Proof.
  unfold conversion_error.
  destruct x; simpl; intros H; inversion H; auto.
Qed.

Lemma calculate_momentum_range
    (possession : spec_float) (shots_home shots_away : Z)
    (xg_home xg_away field_tilt : spec_float)
    (recent_events : list event) (volatility : spec_float) (n : Z) :
  calculate_momentum possession shots_home shots_away xg_home xg_away
    field_tilt recent_events volatility = Ok n ->
  0 <= n <= 100.
Proof.
  unfold calculate_momentum. intros H.
  apply bind_ok in H as (momentum & _ & H).
  apply bind_ok in H as (k & _ & H).
  inversion H. lia.
Qed.

(** X8: with shot counts that are not negative, [calculate_momentum] divides
    by zero for no floats at all, NaN and the infinities included: it
    raises exactly when the sum of the terms and of the noise is NaN
    ([ValueError]) or infinite ([OverflowError]), and then from [int]. *)
Theorem momentum_raises_only_from_int
    (possession : spec_float) (shots_home shots_away : Z)
    (xg_home xg_away field_tilt : spec_float)
    (recent_events : list event) (volatility : spec_float) :
  0 <= shots_home -> 0 <= shots_away ->
  exists momentum : spec_float,
    noisy_momentum possession shots_home shots_away xg_home xg_away
      field_tilt recent_events volatility = Ok momentum
    /\ calculate_momentum possession shots_home shots_away xg_home xg_away
         field_tilt recent_events volatility
       = match momentum with
         | S754_nan => Raise ValueError
         | S754_infinity _ => Raise OverflowError
         | _ => n <-! py_int momentum; Ok (Z.max 0 (Z.min 100 n))
         end
    /\ (is_finite momentum = true <->
        exists n : Z,
          calculate_momentum possession shots_home shots_away xg_home
            xg_away field_tilt recent_events volatility = Ok n).
Proof.
  intros Hh Ha.
  destruct (noisy_momentum_ok possession shots_home shots_away xg_home
              xg_away field_tilt recent_events volatility Hh Ha)
    as (momentum & Hm).
  exists momentum. split; [exact Hm|].
  unfold calculate_momentum. rewrite Hm. simpl.
  destruct momentum as [s|s| |s m e]; simpl; split; try reflexivity;
    split; eauto; try discriminate; intros [n Hn]; discriminate.
Qed.

Lemma momentum_raises_only_from_int_witness :
  (0 <= 4 /\ 0 <= 3)
  /\ exists momentum : spec_float,
       noisy_momentum MomentumSpec.nan 4 3 MomentumSpec.inf MomentumSpec.zero
         MomentumSpec.inf [] MomentumSpec.zero = Ok momentum.
Proof.
  assert (H4 : 0 <= 4) by lia. assert (H3 : 0 <= 3) by lia.
  split; [split; assumption|].
  destruct (momentum_raises_only_from_int MomentumSpec.nan 4 3
              MomentumSpec.inf MomentumSpec.zero MomentumSpec.inf []
              MomentumSpec.zero H4 H3) as (momentum & Hm & _).
  exists momentum. exact Hm.
Defined.

Lemma calculate_momentum_failures
    (possession : spec_float) (shots_home shots_away : Z)
    (xg_home xg_away field_tilt : spec_float)
    (recent_events : list event) (volatility : spec_float) (e : exn) :
  0 <= shots_home -> 0 <= shots_away ->
  calculate_momentum possession shots_home shots_away xg_home xg_away
    field_tilt recent_events volatility = Raise e ->
  conversion_error e.
Proof.
  intros Hh Ha.
  destruct (noisy_momentum_ok possession shots_home shots_away xg_home
              xg_away field_tilt recent_events volatility Hh Ha)
    as (momentum & Hm).
  unfold calculate_momentum. rewrite Hm. simpl. intros H.
  apply bind_raise in H as [H|(n & _ & H)]; [|discriminate].
  exact (py_int_raises _ _ H).
Qed.

(** *** What [generate_momentum_data] returns and raises *)

Lemma float_of_int_ok (n : Z) (x : spec_float) :
  float_of_int n = Ok x -> x = of_int n.
Proof.
  unfold float_of_int. destruct (is_finite (of_int n)); intros H;
    inversion H. reflexivity.
Qed.

Lemma float_of_int_raise (n : Z) (e : exn) :
  float_of_int n = Raise e -> e = OverflowError.
Proof.
  unfold float_of_int. destruct (is_finite (of_int n)); intros H;
    inversion H. reflexivity.
Qed.

Lemma generate_unfold (match_id : string) (minute : Z) (d : draws) :
  generate_momentum_data match_id minute d
  = (_ <-! float_of_int minute;
     n_home <-! py_int (gauss_shots_home d);
     n_away <-! py_int (gauss_shots_away d);
     f_home <-! float_of_int (Z.max 0 n_home);
     f_away <-! float_of_int (Z.max 0 n_away);
     momentum_index <-!
       calculate_momentum
         (py_max 30 (py_min 70 (base_possession match_id d)))
         (Z.max 0 n_home) (Z.max 0 n_away)
         (fmul f_home (uniform_xg_home d))
         (fmul f_away (uniform_xg_away d))
         (fadd (fmul (fsub (py_max 30 (py_min 70 (base_possession match_id d)))
                        (of_int 50)) (of_int 2))
            (gauss_field_tilt d))
         [] (gauss_volatility d);
     Ok {| mo_timestamp := draw_now d;
           mo_momentum_index := momentum_index;
           mo_possession :=
             py_max 30 (py_min 70 (base_possession match_id d));
           mo_shots_home := Z.max 0 n_home;
           mo_shots_away := Z.max 0 n_away;
           mo_xg_home := py_round (fmul f_home (uniform_xg_home d)) 2;
           mo_xg_away := py_round (fmul f_away (uniform_xg_away d)) 2;
           mo_field_tilt :=
             py_round
               (fadd (fmul (fsub (py_max 30
                                    (py_min 70 (base_possession match_id d)))
                              (of_int 50)) (of_int 2))
                  (gauss_field_tilt d)) 1;
           mo_danger_home :=
             py_round
               (fmul (SFdiv prec emax
                        (py_max 30 (py_min 70 (base_possession match_id d)))
                        (of_int 100))
                  (uniform_danger_home d)) 2;
           mo_danger_away :=
             py_round
               (fmul (SFdiv prec emax
                        (fsub (of_int 100)
                           (py_max 30
                              (py_min 70 (base_possession match_id d))))
                        (of_int 100))
                  (uniform_danger_away d)) 2 |}).
Proof.
  unfold generate_momentum_data.
  rewrite !truediv_const by reflexivity.
  destruct (float_of_int minute); [|reflexivity].
  cbv beta iota delta [bind].
  destruct (py_int (gauss_shots_home d)); [|reflexivity].
  destruct (py_int (gauss_shots_away d)); reflexivity.
Qed.

Lemma generate_ok (match_id : string) (minute : Z) (d : draws)
    (m : MomentumData) :
  generate_momentum_data match_id minute d = Ok m ->
  exists n_home n_away momentum_index : Z,
    py_int (gauss_shots_home d) = Ok n_home
    /\ py_int (gauss_shots_away d) = Ok n_away
    /\ index_of match_id d n_home n_away = Ok momentum_index
    /\ m = sample_of match_id d n_home n_away momentum_index.
Proof.
  rewrite generate_unfold. intros H.
  apply bind_ok in H as (minute_f & _ & H).
  apply bind_ok in H as (n_home & Hhome & H).
  apply bind_ok in H as (n_away & Haway & H).
  apply bind_ok in H as (f_home & Hfh & H).
  apply bind_ok in H as (f_away & Hfa & H).
  apply bind_ok in H as (momentum_index & Hidx & H).
  apply float_of_int_ok in Hfh, Hfa. subst f_home f_away.
  exists n_home, n_away, momentum_index.
  repeat (split; [assumption|]). inversion H. reflexivity.
Qed.

Lemma generate_failures (match_id : string) (minute : Z) (d : draws)
    (e : exn) :
  generate_momentum_data match_id minute d = Raise e -> conversion_error e.
Proof.
  rewrite generate_unfold. intros H.
  apply bind_raise in H as [H|(minute_f & _ & H)];
    [right; exact (float_of_int_raise _ _ H)|].
  apply bind_raise in H as [H|(n_home & _ & H)];
    [exact (py_int_raises _ _ H)|].
  apply bind_raise in H as [H|(n_away & _ & H)];
    [exact (py_int_raises _ _ H)|].
  apply bind_raise in H as [H|(f_home & _ & H)];
    [right; exact (float_of_int_raise _ _ H)|].
  apply bind_raise in H as [H|(f_away & _ & H)];
    [right; exact (float_of_int_raise _ _ H)|].
  apply bind_raise in H as [H|(momentum_index & _ & H)]; [|discriminate].
  apply calculate_momentum_failures in H; [exact H|lia|lia].
Qed.

Lemma generate_in_range
    (match_id : string) (minute : Z) (d : draws) :
  match generate_momentum_data match_id minute d with
  | Ok m =>
      in_band 30 70 (mo_possession m)
      /\ 0 <= mo_shots_home m /\ 0 <= mo_shots_away m
      /\ 0 <= mo_momentum_index m <= 100
  | Raise e => conversion_error e
  end.
Proof.
  destruct (generate_momentum_data match_id minute d) as [m|e] eqn:H.
  - apply generate_ok in H as (n_home & n_away & idx & _ & _ & Hidx & ->).
    simpl. split; [apply clamp_in_band|].
    split; [lia|]. split; [lia|].
    exact (calculate_momentum_range _ _ _ _ _ _ _ _ _ Hidx).
  - exact (generate_failures _ _ _ _ H).
Qed.

(** X9: whatever the random draws are, NaN and the infinities included, a
    sample that [generate_momentum_data] returns has a possession between
    30 and 70, shot counts that are not negative and an index between 0
    and 100; and a call that returns nothing has raised [ValueError] or
    [OverflowError], never [ZeroDivisionError].  A possession draw that is
    NaN gives the possession 70. *)
Theorem generated_sample_in_range
    (match_id : string) (minute : Z) (d : draws) :
  match generate_momentum_data match_id minute d with
  | Ok m =>
      in_band 30 70 (mo_possession m)
      /\ 0 <= mo_shots_home m /\ 0 <= mo_shots_away m
      /\ 0 <= mo_momentum_index m <= 100
      /\ (gauss_possession d = S754_nan -> mo_possession m = of_int 70)
  | Raise e => conversion_error e
  end.
Proof.
  pose proof (generate_in_range match_id minute d) as Hrange.
  destruct (generate_momentum_data match_id minute d) as [m|e] eqn:H;
    [|exact Hrange].
  destruct Hrange as (Hp & Hh & Ha & Hi).
  repeat (split; [assumption|]).
  intros Hnan.
  apply generate_ok in H as (n_home & n_away & idx & _ & _ & _ & ->).
  simpl. unfold base_possession. rewrite Hnan.
  destruct (contains "arsenal" match_id); [reflexivity|].
  destruct (contains "mancity" match_id); reflexivity.
Qed.

End GeneratorProps.

(** ** The generator on ordinary draws *)

Module GeneratorBounds.
Import PyFloat FloatSpec FloatBounds Backend Generator GeneratorSpec.

(** *** More on the float operations *)

Lemma below_exponent (k : Z) (s : bool) (m : positive) (e : Z) :
  below k (S754_finite s m e) -> e < k.
Proof.
  simpl. intros [Hm _].
  destruct (Z.lt_ge_cases e k) as [H|H]; [exact H|].
  exfalso.
  assert (Hpow : 2 ^ (k - e) <= 1).
  { destruct (Z.eq_dec (k - e) 0) as [->|Hne]; [simpl; lia|].
    rewrite Z.pow_neg_r by lia. lia. }
  lia.
Qed.

(** The product of two finite floats, with no condition on the exponents
    of its factors. *)
Lemma fmul_below_any (kx ky : Z) (x y : spec_float) :
  below kx x -> below ky y ->
  emin prec emax <= kx + ky <= emax - prec + 2 ->
  below (kx + ky + 1) (fmul x y).
Proof.
  intros Hx Hy Hk.
  destruct x as [sx|sx| |sx mx ex]; simpl in Hx; try tauto;
    destruct y as [sy|sy| |sy my ey]; simpl in Hy; try tauto;
    try exact I.
  pose proof (below_exponent kx sx mx ex Hx) as Hex.
  pose proof (below_exponent ky sy my ey Hy) as Hey.
  destruct Hx as [Hmx _], Hy as [Hmy _].
  assert (Hprec : prec = 53) by reflexivity.
  assert (Hemax : emax = 1024) by reflexivity.
  unfold fmul, SFmul.
  apply round_aux_below; try lia.
  rewrite Pos2Z.inj_mul.
  replace (kx + ky - (ex + ey)) with ((kx - ex) + (ky - ey)) by lia.
  rewrite Z.pow_add_r by lia.
  apply Z.mul_lt_mono_nonneg; lia.
Qed.

Lemma round_aux_nonneg (m e : Z) (l : location) (k : Z) :
  below k (binary_round_aux prec emax false m e l) ->
  nonneg (binary_round_aux prec emax false m e l).
Proof.
  unfold binary_round_aux.
  destruct (shr_fexp prec emax m e l) as [mrs' e'].
  destruct (shr_fexp prec emax _ e' loc_Exact) as [mrs'' e''].
  destruct (shr_m mrs'') as [|p|p]; simpl; try tauto.
  destruct (e'' <=? emax - prec); simpl; tauto.
Qed.

Lemma fexp_emin (x : Z) : emin prec emax <= fexp prec emax x.
Proof. unfold fexp. lia. Qed.

Lemma shr_fexp_exponent (m e : Z) (l : location) :
  0 <= m ->
  0 <= shr_m (fst (shr_fexp prec emax m e l))
  /\ emin prec emax <= snd (shr_fexp prec emax m e l).
Proof.
  intros Hm.
  pose proof (shr_fexp_m m e l Hm) as [Hle Hgt]. simpl in Hle, Hgt.
  pose proof (fexp_emin (Zdigits2 m + e)) as Hf.
  destruct (Z.le_gt_cases (fexp prec emax (Zdigits2 m + e) - e) 0)
    as [Hn|Hn].
  - destruct (Hle Hn) as [-> ->]. lia.
  - destruct (Hgt ltac:(lia)) as [-> ->]. split; [|lia].
    apply Z.div_pos; [exact Hm|]. apply Z.pow_pos_nonneg; lia.
Qed.

Lemma round_aux_exponent_ok (s : bool) (m e : Z) (l : location) :
  0 <= m -> exponent_ok (binary_round_aux prec emax s m e l).
Proof.
  intros Hm. unfold binary_round_aux.
  pose proof (shr_fexp_exponent m e l Hm) as [Hm' _].
  destruct (shr_fexp prec emax m e l) as [mrs' e']. simpl in Hm'.
  pose proof (round_nearest_even_bounds (shr_m mrs')
                (loc_of_shr_record mrs')) as Hr.
  set (m'' := round_nearest_even (shr_m mrs') (loc_of_shr_record mrs')) in *.
  pose proof (shr_fexp_exponent m'' e' loc_Exact ltac:(lia)) as [_ He''].
  destruct (shr_fexp prec emax m'' e' loc_Exact) as [mrs'' e''].
  simpl in He''.
  destruct (shr_m mrs'') as [|p|p]; simpl; try exact I.
  destruct (e'' <=? emax - prec); simpl; [exact He''|exact I].
Qed.

Lemma fmul_exponent_ok (x y : spec_float) : exponent_ok (fmul x y).
Proof.
  destruct x as [sx|sx| |sx mx ex], y as [sy|sy| |sy my ey];
    try exact I.
  unfold fmul, SFmul. apply round_aux_exponent_ok. lia.
Qed.

Lemma fmul_nonneg (k : Z) (x y : spec_float) :
  nonneg x -> nonneg y -> below k (fmul x y) -> nonneg (fmul x y).
Proof.
  destruct x as [sx|sx| |[|] mx ex]; simpl; try tauto;
    destruct y as [sy|sy| |[|] my ey]; simpl; try tauto.
  intros _ _. apply round_aux_nonneg.
Qed.

Lemma of_int_below (n k : Z) :
  Z.abs n < 2 ^ k -> 0 <= k <= emax - 1 -> below (k + 1) (of_int n).
Proof.
  intros Hn Hk. unfold of_int.
  apply binary_normalize_below.
  - replace (k - 0) with k by lia. exact Hn.
  - float_const.
  - split; [|lia]. assert (emin prec emax <= 0) by float_const. lia.
Qed.

Lemma of_int_nonneg (n k : Z) :
  0 <= n -> below k (of_int n) -> nonneg (of_int n).
Proof.
  intros Hn. unfold of_int.
  destruct n as [|p|p]; [intros _; exact I| |lia].
  unfold binary_normalize, binary_round.
  destruct (shl_align p 0 _) as [mz ez].
  apply round_aux_nonneg.
Qed.

Lemma of_int_exponent_ok (n : Z) : exponent_ok (of_int n).
Proof.
  unfold of_int.
  destruct n as [|p|p]; [exact I| |];
    unfold binary_normalize, binary_round;
    destruct (shl_align p 0 _) as [mz ez];
    apply round_aux_exponent_ok; lia.
Qed.

Lemma py_int_below (k : Z) (x : spec_float) :
  0 <= k -> below k x ->
  exists n : Z, py_int x = Ok n /\ Z.abs n < 2 ^ k.
Proof.
  intros Hk Hx.
  destruct x as [s|s| |s m e]; simpl in Hx; try tauto.
  - exists 0. split; [reflexivity|]. simpl.
    apply Z.pow_pos_nonneg; lia.
  - destruct Hx as [Hm _]. eexists. split; [reflexivity|].
    assert (Hv : 0 <= Z.shiftl (Zpos m) e < 2 ^ k).
    { destruct (Z.le_gt_cases 0 e) as [He|He].
      - rewrite Z.shiftl_mul_pow2 by exact He.
        split; [apply Z.mul_nonneg_nonneg; [lia|apply Z.pow_nonneg; lia]|].
        replace k with ((k - e) + e) at 1 by lia.
        apply pow2_scale_lt; lia.
      - rewrite Z.shiftl_div_pow2 by lia.
        split; [apply Z.div_pos; [lia|apply Z.pow_pos_nonneg; lia]|].
        replace k with ((k - e) - (- e)) at 1 by lia.
        apply div_pow2_lt; lia. }
    destruct s; simpl; lia.
Qed.

Lemma fsub_fadd (x y : spec_float) : fsub x y = fadd x (SFopp y).
Proof.
  destruct x as [sx|sx| |sx mx ex], y as [sy|sy| |sy my ey];
    try reflexivity;
    destruct sx, sy; reflexivity.
Qed.

Lemma opp_below (k : Z) (y : spec_float) : below k y -> below k (SFopp y).
Proof. destruct y; simpl; tauto. Qed.

Lemma fsub_below (kx ky k : Z) (x y : spec_float) :
  below kx x -> below ky y -> kx <= k -> ky <= k ->
  emin prec emax <= k + 1 <= emax - 1 ->
  below (k + 2) (fsub x y).
Proof.
  intros Hx Hy Hkx Hky Hk. rewrite fsub_fadd.
  apply (fadd_below kx ky); try assumption. apply opp_below, Hy.
Qed.

(** *** The terms of the index on generated values *)

(** The xG term for values that are products: finite, not negative, with an
    exponent in the format; the mantissa need not be normalised. *)
Lemma xg_score_products (k : Z) (xg_home xg_away : spec_float) :
  below k xg_home -> exponent_ok xg_home -> exponent_ok xg_away ->
  nonneg xg_home -> nonneg xg_away ->
  exists s : spec_float, xg_score xg_home xg_away = Ok s /\ below 8 s.
Proof.
  intros Bh Eh Ea Nh Na. unfold xg_score.
  destruct (gt_zero (fadd xg_home xg_away)) eqn:Hgt;
    [|eexists; split; [reflexivity|float_const]].
  unfold truediv. rewrite (MomentumProps.gt_zero_not_zero _ Hgt). simpl.
  eexists. split; [reflexivity|].
  apply (fmul_below 2 5); [|float_const|float_const|float_const].
  destruct xg_home as [sh|sh| |sh mh eh]; simpl in Nh; try tauto.
  - destruct (fadd (S754_zero sh) xg_away) as [s|s| |s m e]; try exact I;
      simpl in Hgt; discriminate.
  - destruct sh; [tauto|].
    simpl in Bh, Eh. destruct Bh as [_ Hhi].
    assert (Habove : above (Zpos (digits2_pos mh) + eh - 1)
                       (fadd (S754_finite false mh eh) xg_away)).
    { apply fadd_above; simpl; try tauto; try lia.
      replace (Zpos (digits2_pos mh) + eh - 1 - eh)
        with (Zpos (digits2_pos mh) - 1) by lia.
      apply digits_lower. }
    set (d := Zpos (digits2_pos mh)) in *.
    destruct (fadd (S754_finite false mh eh) xg_away) as [s|s| |s m e];
      simpl in Habove; try tauto.
    replace 2 with ((d + eh) - (d + eh - 1) + 1) by lia.
    apply fdiv_below; simpl.
    + split; [|lia]. replace (d + eh - eh) with d by lia.
      apply digits_strict.
    + exact Habove.
    + reflexivity.
    + replace (d + eh - (d + eh - 1)) with 1 by lia. float_const.
Qed.

Lemma noisy_momentum_products
    (k : Z) (possession : spec_float) (shots_home shots_away : Z)
    (xg_home xg_away field_tilt : spec_float)
    (recent_events : list event) (volatility : spec_float) :
  below 1000 possession -> below 1000 field_tilt -> below 1000 volatility ->
  below k xg_home -> exponent_ok xg_home -> exponent_ok xg_away ->
  nonneg xg_home -> nonneg xg_away ->
  0 <= shots_home -> 0 <= shots_away ->
  exists momentum : spec_float,
    noisy_momentum possession shots_home shots_away xg_home xg_away
      field_tilt recent_events volatility = Ok momentum
    /\ below 1010 momentum.
Proof.
  intros Hp Hft Hv Bh Eh Ea Nh Na Hsh Hsa. unfold noisy_momentum.
  destruct (MomentumProps.shots_score_below shots_home shots_away Hsh Hsa)
    as (s & -> & Hs).
  destruct (xg_score_products k xg_home xg_away Bh Eh Ea Nh Na)
    as (x & -> & Hx).
  destruct (MomentumProps.field_tilt_score_below field_tilt Hft)
    as (t & -> & Ht).
  simpl. eexists. split; [reflexivity|].
  assert (H1 : below 999 (fmul possession (dec 2 1))).
  { change 999 with (1000 + (-2) + 1).
    apply fmul_below; [exact Hp|float_const|float_const|float_const]. }
  assert (H2 : below 1001 (fadd (fmul possession (dec 2 1)) s)).
  { apply (fadd_below 999 8 999); [exact H1|exact Hs|lia|lia|float_const]. }
  assert (H3 : below 1003 (fadd (fadd (fmul possession (dec 2 1)) s) x)).
  { apply (fadd_below 1001 8 1001);
      [exact H2|exact Hx|lia|lia|float_const]. }
  assert (H4 : below 1005
                 (fadd (fadd (fadd (fmul possession (dec 2 1)) s) x) t)).
  { apply (fadd_below 1003 1002 1003);
      [exact H3|exact Ht|lia|lia|float_const]. }
  pose proof (MomentumProps.event_score_range recent_events) as He.
  assert (H5 : below 1007
                 (fadd (fadd (fadd (fadd (fmul possession (dec 2 1)) s) x) t)
                    (of_int (event_score recent_events)))).
  { apply (fadd_below 1005 5 1005);
      [exact H4|apply of_int_small; lia|lia|lia|float_const]. }
  apply (below_mono 1009); [lia|].
  apply (fadd_below 1007 1000 1007);
    [exact H5|exact Hv|lia|lia|float_const].
Qed.

(** *** The values [generate_momentum_data] computes *)

Lemma moderate_below (x : spec_float) : moderate x -> below 64 x.
Proof. intros [Hv Hm]. apply valid_below; assumption. Qed.

Lemma possession_below (match_id : string) (d : draws) :
  moderate (gauss_possession d) ->
  below 68 (py_max 30 (py_min 70 (base_possession match_id d))).
Proof.
  intros Hg. apply moderate_below in Hg.
  assert (Hbase : below 66 (fadd (of_int 50) (gauss_possession d))).
  { apply (fadd_below 6 64 64); [float_const|exact Hg|lia|lia|float_const]. }
  assert (Hb : below 68 (base_possession match_id d)).
  { unfold base_possession.
    destruct (contains "arsenal" match_id).
    - apply (fadd_below 66 3 66);
        [exact Hbase|float_const|lia|lia|float_const].
    - destruct (contains "mancity" match_id).
      + apply (fsub_below 66 4 66);
          [exact Hbase|float_const|lia|lia|float_const].
      + apply (below_mono 66); [lia|exact Hbase]. }
  unfold py_max, py_min.
  destruct (SFltb (base_possession match_id d) (of_int 70)).
  - destruct (SFltb (of_int 30) (base_possession match_id d));
      [exact Hb|float_const].
  - destruct (SFltb (of_int 30) (of_int 70)); float_const.
Qed.

Lemma shots_value (x : spec_float) :
  moderate x ->
  exists n : Z,
    py_int x = Ok n
    /\ float_of_int (Z.max 0 n) = Ok (of_int (Z.max 0 n))
    /\ below 65 (of_int (Z.max 0 n))
    /\ nonneg (of_int (Z.max 0 n)).
Proof.
  intros Hx. apply moderate_below in Hx.
  destruct (py_int_below 64 x ltac:(lia) Hx) as (n & Hn & Habs).
  exists n. split; [exact Hn|].
  assert (Hb : below 65 (of_int (Z.max 0 n))).
  { apply (of_int_below (Z.max 0 n) 64); [lia|float_const]. }
  split; [|split; [exact Hb|]].
  - unfold float_of_int. rewrite (below_finite _ _ Hb). reflexivity.
  - apply (of_int_nonneg _ 65); [lia|exact Hb].
Qed.

Lemma xg_value (f u : spec_float) :
  below 65 f -> nonneg f -> moderate u -> nonneg u ->
  below 130 (fmul f u) /\ exponent_ok (fmul f u) /\ nonneg (fmul f u).
Proof.
  intros Hf Nf Hu Nu. apply moderate_below in Hu.
  assert (Hb : below 130 (fmul f u)).
  { change 130 with (65 + 64 + 1).
    apply fmul_below_any; [exact Hf|exact Hu|float_const]. }
  split; [exact Hb|]. split; [apply fmul_exponent_ok|].
  apply (fmul_nonneg 130); assumption.
Qed.

Lemma field_tilt_below (possession g : spec_float) :
  below 68 possession -> moderate g ->
  below 75 (fadd (fmul (fsub possession (of_int 50)) (of_int 2)) g).
Proof.
  intros Hp Hg. apply moderate_below in Hg.
  assert (H1 : below 70 (fsub possession (of_int 50))).
  { apply (fsub_below 68 6 68); [exact Hp|float_const|lia|lia|float_const]. }
  assert (H2 : below 73 (fmul (fsub possession (of_int 50)) (of_int 2))).
  { change 73 with (70 + 2 + 1).
    apply fmul_below; [exact H1|float_const|float_const|float_const]. }
  apply (fadd_below 73 64 73); [exact H2|exact Hg|lia|lia|float_const].
Qed.

Lemma generate_returns
    (match_id : string) (minute : Z) (d : draws) :
  ordinary d -> Z.abs minute < 2 ^ 1000 ->
  exists m : MomentumData,
    generate_momentum_data match_id minute d = Ok m.
Proof.
  intros (Hposs & Hsh & Hsa & [Hxh Nxh] & [Hxa Nxa] & Hft & Hvol) Hminute.
  rewrite GeneratorProps.generate_unfold.
  assert (Hmin : float_of_int minute = Ok (of_int minute)).
  { unfold float_of_int.
    rewrite (below_finite 1001 (of_int minute)); [reflexivity|].
    apply (of_int_below minute 1000); [exact Hminute|float_const]. }
  destruct (shots_value _ Hsh) as (n_home & Hnh & Hfh & Bfh & Nfh).
  destruct (shots_value _ Hsa) as (n_away & Hna & Hfa & Bfa & Nfa).
  rewrite Hmin, Hnh. cbv beta iota delta [bind].
  rewrite Hna. cbv beta iota delta [bind].
  rewrite Hfh. cbv beta iota delta [bind].
  rewrite Hfa. cbv beta iota delta [bind].
  pose proof (possession_below match_id d Hposs) as Hp.
  set (possession := py_max 30 (py_min 70 (base_possession match_id d))) in *.
  destruct (xg_value _ _ Bfh Nfh Hxh Nxh) as (Bxh & Exh & Pxh).
  destruct (xg_value _ _ Bfa Nfa Hxa Nxa) as (_ & Exa & Pxa).
  pose proof (field_tilt_below possession _ Hp Hft) as Bft.
  destruct (noisy_momentum_products 130 possession (Z.max 0 n_home)
              (Z.max 0 n_away)
              (fmul (of_int (Z.max 0 n_home)) (uniform_xg_home d))
              (fmul (of_int (Z.max 0 n_away)) (uniform_xg_away d))
              (fadd (fmul (fsub possession (of_int 50)) (of_int 2))
                 (gauss_field_tilt d))
              [] (gauss_volatility d))
    as (momentum & Hm & Hbelow);
    try assumption; try lia.
  { apply (below_mono 68); [lia|exact Hp]. }
  { apply (below_mono 75); [lia|exact Bft]. }
  { apply (below_mono 64); [lia|apply moderate_below, Hvol]. }
  destruct (py_int_finite 1010 momentum Hbelow) as (n & Hn).
  unfold calculate_momentum. rewrite Hm.
  cbv beta iota delta [bind]. rewrite Hn.
  eexists. reflexivity.
Qed.

(** X10: with draws that are finite doubles of magnitude below [2^64], those
    of the two xG factors not negative, and a minute of magnitude below
    [2^1000], [generate_momentum_data] raises nothing, whatever the match
    id: it returns a sample, whose index lies between 0 and 100 and whose
    possession between 30 and 70. *)
Theorem generate_momentum_data_total
    (match_id : string) (minute : Z) (d : draws) :
  ordinary d -> Z.abs minute < 2 ^ 1000 ->
  exists m : MomentumData,
    generate_momentum_data match_id minute d = Ok m
    /\ 0 <= mo_momentum_index m <= 100
    /\ in_band 30 70 (mo_possession m).
Proof.
  intros Hd Hminute.
  destruct (generate_returns match_id minute d Hd Hminute) as (m & Hm).
  pose proof (GeneratorProps.generate_in_range match_id minute d) as Hrange.
  rewrite Hm in Hrange. destruct Hrange as (Hp & _ & _ & Hi).
  exists m. auto.
Qed.

Lemma generate_momentum_data_total_witness :
  ordinary sample_draws /\ Z.abs 35 < 2 ^ 1000
  /\ exists m : MomentumData,
       generate_momentum_data "match_001" 35 sample_draws = Ok m
       /\ 0 <= mo_momentum_index m <= 100
       /\ in_band 30 70 (mo_possession m).
Proof.
  assert (Hd : ordinary sample_draws).
  { unfold ordinary, moderate.
    repeat split; vm_compute; try reflexivity; exact I. }
  assert (Hm : Z.abs 35 < 2 ^ 1000) by (vm_compute; reflexivity).
  split; [exact Hd|]. split; [exact Hm|].
  exact (generate_momentum_data_total "match_001" 35 sample_draws Hd Hm).
Defined.

End GeneratorBounds.

(** ** The API *)

Module ApiProps.
Import PyFloat Backend BackendSpec Generator GeneratorSpec Api ApiSpec.
Import GeneratorProps.

(** *** The mock matches *)

Lemma mock_matches (match_id : string) (m : MatchData) :
  matches data_store !! match_id = Some m ->
  (match_id = "match_001" \/ match_id = "match_002" \/ match_id = "match_003")
  /\ 0 <= md_current_minute m <= 90.
Proof.
  unfold data_store. simpl. intros H.
  apply lookup_insert_Some in H as [[<- <-]|[_ H]]; [simpl; split; [auto|lia]|].
  apply lookup_insert_Some in H as [[<- <-]|[_ H]]; [simpl; split; [auto|lia]|].
  apply lookup_insert_Some in H as [[<- <-]|[_ H]]; [simpl; split; [auto|lia]|].
  rewrite lookup_empty in H. discriminate.
Qed.

(** X11: the possession adjustments for the ids that contain "arsenal" or
    "mancity" apply to none of the mock matches, whose ids are
    "match_001" to "match_003": for every match of the store the base
    possession is 50 plus the draw. *)
Theorem mock_matches_get_no_team_adjustment
    (match_id : string) (m : MatchData) (d : draws) :
  matches data_store !! match_id = Some m ->
  base_possession match_id d = fadd (of_int 50) (gauss_possession d).
Proof.
  intros H. apply mock_matches in H as [[->|[->| ->]] _]; reflexivity.
Qed.

Lemma mock_matches_get_no_team_adjustment_witness :
  matches data_store !! "match_002"
  = Some (mock_match "match_002" "liverpool" "mancity" 67 1 2)
  /\ base_possession "match_002" sample_draws
     = fadd (of_int 50) (gauss_possession sample_draws).
Proof.
  assert (H : matches data_store !! "match_002"
              = Some (mock_match "match_002" "liverpool" "mancity" 67 1 2))
    by reflexivity.
  split; [exact H|].
  exact (mock_matches_get_no_team_adjustment "match_002" _ sample_draws H).
Defined.

(** *** The momentum endpoints *)

Lemma get_current_momentum_ok (s s' : ApiStore) (match_id : string)
    (d : draws) (momentum : MomentumData) :
  get_current_momentum s match_id d = Ok (s', momentum) ->
  exists (m : MatchData) (history : list MomentumData),
    matches (ledger s) !! match_id = Some m
    /\ generate_momentum_data match_id (md_current_minute m) d = Ok momentum
    /\ momentum_history s !! match_id = Some history
    /\ s' = {| ledger := ledger s;
               momentum_history :=
                 <[match_id := history ++ [momentum]]>
                   (momentum_history s) |}.
Proof.
  unfold get_current_momentum.
  destruct (matches (ledger s) !! match_id) as [m|]; [|discriminate].
  destruct (generate_momentum_data _ _ _) as [x|e] eqn:Hg; [|discriminate].
  simpl.
  destruct (momentum_history s !! match_id) as [history|]; [|discriminate].
  intros H. inversion H; subst.
  exists m, history. repeat split; assumption || reflexivity.
Qed.

(** X12: a momentum request that succeeds appends the sample it returns to
    the history of its match and touches nothing else: the ledger and the
    histories of the other matches stay as they were, a history request
    with limit 1 returns just that sample, and one with any positive limit
    returns a list that ends with it. *)
Theorem current_momentum_is_recorded
    (s s' : ApiStore) (match_id : string) (d : draws)
    (momentum : MomentumData) :
  get_current_momentum s match_id d = Ok (s', momentum) ->
  ledger s' = ledger s
  /\ (exists history : list MomentumData,
        momentum_history s !! match_id = Some history
        /\ momentum_history s' !! match_id = Some (history ++ [momentum]))
  /\ (forall other : string,
        other <> match_id ->
        momentum_history s' !! other = momentum_history s !! other)
  /\ get_momentum_history s' match_id 1 = Ok [momentum]
  /\ (forall limit : Z,
        0 < limit ->
        exists older : list MomentumData,
          get_momentum_history s' match_id limit = Ok (older ++ [momentum])).
Proof.
  intros H.
  apply get_current_momentum_ok in H as (m & history & Hm & _ & Hh & ->).
  simpl. split; [reflexivity|].
  split; [exists history; rewrite lookup_insert_eq; auto|].
  split; [intros other Hne; rewrite lookup_insert_ne by congruence;
          reflexivity|].
  assert (Hlimit : forall limit : Z,
             0 < limit ->
             get_momentum_history
               {| ledger := ledger s;
                  momentum_history :=
                    <[match_id := history ++ [momentum]]>
                      (momentum_history s) |} match_id limit
             = Ok (Backend.last_n (Z.to_nat limit) (history ++ [momentum]))).
  { intros limit Hpos. unfold get_momentum_history. simpl.
    rewrite Hm, lookup_insert_eq. simpl.
    destruct (history ++ [momentum]) as [|x l] eqn:Hl;
      [destruct history; discriminate|].
    rewrite <- Hl. f_equal.
    rewrite <- (Z2Nat.id limit) at 1 by lia.
    apply SliceProps.slice_from_last_n. lia. }
  split.
  - rewrite Hlimit by lia. f_equal.
    unfold Backend.last_n. rewrite length_app. simpl.
    replace (length history + 1 - Z.to_nat 1)%nat with (length history)
      by lia.
    rewrite drop_app_length. reflexivity.
  - intros limit Hpos. rewrite (Hlimit limit Hpos).
    assert (Hlast : last (Backend.last_n (Z.to_nat limit)
                            (history ++ [momentum])) = Some momentum)
      by (apply OracleProps.last_n_snoc; lia).
    apply last_Some in Hlast as [older ->]. eauto.
Qed.

Lemma current_momentum_is_recorded_witness :
  exists (s' : ApiStore) (momentum : MomentumData),
    get_current_momentum api_store "match_001" sample_draws
    = Ok (s', momentum)
    /\ get_momentum_history s' "match_001" 1 = Ok [momentum].
Proof.
  destruct (get_current_momentum api_store "match_001" sample_draws)
    as [[s' momentum]|e] eqn:H; [|vm_compute in H; discriminate].
  exists s', momentum. split; [reflexivity|].
  exact (proj1 (proj2 (proj2 (proj2
           (current_momentum_is_recorded api_store s' "match_001"
              sample_draws momentum H))))).
Defined.

(** X13: the limit of a history request, for a known match.  A positive
    limit gives the last [limit] samples, all of them when there are
    fewer; the limit 0 gives the whole history, not an empty list; and a
    negative limit [-k] drops the first [k] samples. *)
Theorem momentum_history_limit
    (s : ApiStore) (match_id : string) (m : MatchData) (limit : Z) :
  matches (ledger s) !! match_id = Some m ->
  let history := default [] (momentum_history s !! match_id) in
  get_momentum_history s match_id limit
  = Ok (if 0 <? limit
        then drop (length history - Z.to_nat limit) history
        else drop (Z.to_nat (- limit)) history).
Proof.
  intros Hm history. unfold get_momentum_history. rewrite Hm.
  fold history.
  destruct history as [|x l] eqn:Hh.
  - rewrite !drop_nil. destruct (0 <? limit); reflexivity.
  - rewrite <- Hh. clear Hh. f_equal.
    destruct (Z.ltb_spec 0 limit) as [Hpos|Hneg].
    + apply SliceProps.slice_from_negative. exact Hpos.
    + destruct (Z.eq_dec limit 0) as [->|Hne].
      * simpl. apply SliceProps.slice_from_zero.
      * apply SliceProps.slice_from_positive. lia.
Qed.

Lemma momentum_history_limit_witness :
  matches (ledger (api_run api_store sample_api_calls)) !! "match_001"
  = Some (mock_match "match_001" "arsenal" "tottenham" 35 2 1)
  /\ get_momentum_history (api_run api_store sample_api_calls) "match_001" 0
     = Ok (default []
             (momentum_history (api_run api_store sample_api_calls)
              !! "match_001"))
  /\ length (default []
               (momentum_history (api_run api_store sample_api_calls)
                !! "match_001")) = 2%nat.
Proof.
  assert (H : matches (ledger (api_run api_store sample_api_calls))
              !! "match_001"
              = Some (mock_match "match_001" "arsenal" "tottenham" 35 2 1))
    by (vm_compute; reflexivity).
  split; [exact H|].
  split; [|vm_compute; reflexivity].
  exact (momentum_history_limit (api_run api_store sample_api_calls)
           "match_001" _ 0 H).
Defined.

(** *** The stores the API reaches *)

Lemma open_position_ok (s s' : ApiStore) (request : OpenPositionRequest)
    (position_id : string) (now : PyTime.datetime) (d : draws)
    (position : TradingPosition) :
  Api.open_position s request position_id now d = Ok (s', position) ->
  exists (m : MatchData) (momentum : MomentumData),
    matches (ledger s) !! req_match_id request = Some m
    /\ generate_momentum_data (req_match_id request) (md_current_minute m) d
       = Ok momentum
    /\ ledger s'
       = step (ledger s)
           (OpenPosition request
              {| oe_position_id := position_id; oe_now := now;
                 oe_momentum_index := mo_momentum_index momentum |})
    /\ momentum_history s' = momentum_history s.
Proof.
  unfold Api.open_position.
  destruct (matches (ledger s) !! req_match_id request) as [m|] eqn:Hm;
    [|discriminate].
  destruct (generate_momentum_data _ _ _) as [momentum|e] eqn:Hg;
    [|discriminate].
  simpl.
  destruct (Backend.open_position _ _ _) as [r|e] eqn:Ho; [|discriminate].
  simpl. intros H. inversion H; subst.
  exists m, momentum. repeat split; try assumption.
  simpl. rewrite Ho. destruct r. reflexivity.
Qed.

Lemma settle_position_checked (s : ApiStore) (pid : string)
    (now : PyTime.datetime) (d : draws) :
  BackendSpec.well_formed (ledger s) ->
  match Api.settle_position s pid now d with
  | Ok (s', _) =>
      exists momentum : MomentumData,
        0 <= mo_momentum_index momentum <= 100
        /\ ledger s'
           = step (ledger s)
               (SettlePosition pid
                  {| se_now := now;
                     se_momentum_index := mo_momentum_index momentum |})
        /\ momentum_history s' = momentum_history s
  | Raise e => allowed (Settle pid now d) e
  end.
Proof.
  intros [Hrefs Hobjs]. unfold Api.settle_position. simpl.
  destruct (positions (ledger s) !! pid) as [ref|] eqn:Hpid; [|auto].
  destruct (Hrefs pid ref Hpid) as [position Hpos]. rewrite Hpos.
  destruct (Hobjs ref position Hpos) as [[m Hm] Hentry].
  destruct (is_settled position) eqn:Hsettled; [auto|].
  destruct (PyTime.timedelta (window_duration position)) as [delta|e]
    eqn:Hdelta.
  2:{ simpl. right; right; right. right.
      unfold PyTime.timedelta in Hdelta.
      destruct (_ || _) in Hdelta; inversion Hdelta. reflexivity. }
  simpl.
  destruct (PyTime.add (entry_time position) delta) as [window_end|e]
    eqn:Hend.
  2:{ simpl. right; right; right. right.
      unfold PyTime.add in Hend.
      destruct (PyTime.representable _) in Hend; inversion Hend.
      reflexivity. }
  simpl.
  destruct (Z.ltb_spec now window_end) as [Hearly|Hdue]; [auto|].
  rewrite Hm.
  pose proof (generate_in_range (match_id position)
                (md_current_minute m) d) as Hrange.
  destruct (generate_momentum_data _ _ _) as [momentum|e]; [|simpl; auto].
  destruct Hrange as (_ & _ & _ & Hindex). simpl.
  destruct (BackendProps.settle_after_window (ledger s) pid
              {| se_now := now;
                 se_momentum_index := mo_momentum_index momentum |}
              ref position delta window_end m Hpid Hpos Hsettled Hdelta Hend
              Hdue Hm Hentry Hindex) as (resp & Hok & _).
  rewrite Hok. simpl. exists momentum.
  split; [exact Hindex|]. split; [|reflexivity].
  rewrite Hok. reflexivity.
Qed.

Lemma api_step_invariant (s : ApiStore) (c : api_call) :
  api_invariant s -> api_invariant (api_step s c).
Proof.
  intros (Hwf & Hmatches & Hhist).
  destruct c as [match_id d|match_id limit|request position_id now d
                 |pid now d|pid|wallet]; simpl;
    try (split; [|split]; assumption).
  - destruct (get_current_momentum s match_id d) as [[s' momentum]|e] eqn:H;
      [|split; [|split]; assumption].
    apply get_current_momentum_ok in H as (m & history & _ & _ & _ & ->).
    simpl. split; [exact Hwf|]. split; [exact Hmatches|].
    intros id Hid. simpl in Hid |- *.
    destruct (decide (id = match_id)) as [->|Hne].
    + rewrite lookup_insert_eq. eauto.
    + rewrite lookup_insert_ne by congruence. apply Hhist, Hid.
  - destruct (Api.open_position s request position_id now d)
      as [[s' position]|e] eqn:H; [|split; [|split]; assumption].
    pose proof H as H'.
    apply open_position_ok in H' as (m & momentum & Hm & Hg & Hl & Hh).
    pose proof (generate_in_range (req_match_id request)
                  (md_current_minute m) d) as Hrange.
    rewrite Hg in Hrange. destruct Hrange as (_ & _ & _ & Hindex).
    assert (Hwf' : BackendSpec.well_formed (ledger s')).
    { rewrite Hl. apply BackendProps.step_well_formed; [exact Hwf|].
      simpl. exact Hindex. }
    assert (Hmatches' : matches (ledger s') = matches (ledger s)).
    { rewrite Hl. simpl.
      destruct (BackendProps.open_position_known (ledger s) request
                  {| oe_position_id := position_id; oe_now := now;
                     oe_momentum_index := mo_momentum_index momentum |}
                  m Hm) as (s1 & -> & Hs1 & _).
      exact Hs1. }
    split; [exact Hwf'|]. split; [congruence|].
    rewrite Hh, Hmatches'. exact Hhist.
  - pose proof (settle_position_checked s pid now d Hwf) as Hs.
    destruct (Api.settle_position s pid now d) as [[s' resp]|e];
      [|split; [|split]; assumption].
    destruct Hs as (momentum & Hindex & Hl & Hh).
    assert (Hwf' : BackendSpec.well_formed (ledger s')).
    { rewrite Hl. apply BackendProps.step_well_formed; [exact Hwf|].
      simpl. exact Hindex. }
    assert (Hmatches' : matches (ledger s') = matches (ledger s)).
    { rewrite Hl. simpl.
      destruct (Backend.settle_position (ledger s) pid _)
        as [[s1 r1]|e1] eqn:Hb; [|reflexivity].
      apply BackendProps.settle_position_ok in Hb
        as (ref & p & dl & we & pn & _ & _ & _ & _ & _ & _ & _ & -> & _).
      reflexivity. }
    split; [exact Hwf'|]. split; [congruence|].
    rewrite Hh, Hmatches'. exact Hhist.
Qed.

Lemma api_store_invariant : api_invariant api_store.
Proof.
  split; [exact BackendProps.initial_well_formed|].
  split; [reflexivity|].
  intros id Hid. unfold api_store. simpl.
  rewrite lookup_fmap. destruct Hid as [m Hm]. simpl in Hm.
  rewrite Hm. simpl. eauto.
Qed.

Lemma api_run_invariant (cs : list api_call) :
  forall s : ApiStore, api_invariant s -> api_invariant (api_run s cs).
Proof.
  induction cs as [|c cs IH]; intros s Hs; [exact Hs|].
  simpl. apply IH, api_step_invariant, Hs.
Qed.

(** X14: whatever calls the API has served, with whatever draws, every stored
    position names one of the three mock matches and carries an entry
    index between 0 and 100, every position id refers to a stored
    position, the matches are those of the start, and every match has a
    momentum history. *)
Theorem api_keeps_the_store_well_formed (cs : list api_call) :
  let s := api_run api_store cs in
  matches (ledger s) = matches data_store
  /\ (forall (pid : string) (ref : nat),
        positions (ledger s) !! pid = Some ref ->
        is_Some (heap (ledger s) !! ref))
  /\ (forall (ref : nat) (p : TradingPosition),
        heap (ledger s) !! ref = Some p ->
        is_Some (matches data_store !! match_id p)
        /\ 0 <= entry_index p <= 100)
  /\ (forall match_id : string,
        is_Some (matches data_store !! match_id) ->
        is_Some (momentum_history s !! match_id)).
Proof.
  intros s.
  destruct (api_run_invariant cs api_store api_store_invariant)
    as ([Hrefs Hobjs] & Hmatches & Hhist).
  fold s in Hrefs, Hobjs, Hmatches, Hhist.
  split; [exact Hmatches|]. split; [exact Hrefs|].
  split; [|rewrite <- Hmatches; exact Hhist].
  intros ref p Hp. rewrite <- Hmatches. exact (Hobjs ref p Hp).
Qed.

(** X15: on a store the API has reached, each endpoint fails only in the
    ways it has: a momentum or an open request with 404 "Match not found"
    or with what [int] raises on the draws; a history request with 404
    "Match not found"; a settlement with 404 "Position not found", 400
    "Position already settled", 400 "Trading window not ended" or
    [OverflowError]/[ValueError]; a position request with 404 "Position
    not found"; the listing of a wallet never.  No lookup raises
    [KeyError] and nothing divides by zero. *)
Theorem api_fails_only_as_expected
    (cs : list api_call) (c : api_call) (e : exn) :
  api_raised (api_run api_store cs) c = Some e -> allowed c e.
Proof.
  destruct (api_run_invariant cs api_store api_store_invariant)
    as (Hwf & Hmatches & Hhist).
  set (s := api_run api_store cs) in *.
  destruct c as [match_id d|match_id limit|request position_id now d
                 |pid now d|pid|wallet]; simpl.
  - unfold get_current_momentum.
    destruct (matches (ledger s) !! match_id) as [m|] eqn:Hm.
    + destruct (generate_momentum_data _ _ _) as [momentum|e'] eqn:Hg.
      * simpl. destruct (Hhist match_id ltac:(eauto)) as [history ->].
        discriminate.
      * simpl. intros H. inversion H; subst. right.
        exact (generate_failures _ _ _ _ Hg).
    + simpl. intros H. inversion H. auto.
  - unfold get_momentum_history.
    destruct (matches (ledger s) !! match_id) as [m|].
    + destruct (default [] _); discriminate.
    + simpl. intros H. inversion H. reflexivity.
  - unfold Api.open_position.
    destruct (matches (ledger s) !! req_match_id request) as [m|] eqn:Hm.
    + destruct (generate_momentum_data _ _ _) as [momentum|e'] eqn:Hg.
      * simpl.
        destruct (BackendProps.open_position_known (ledger s) request
                    {| oe_position_id := position_id; oe_now := now;
                       oe_momentum_index := mo_momentum_index momentum |}
                    m Hm) as (s1 & -> & _).
        discriminate.
      * simpl. intros H. inversion H; subst. right.
        exact (generate_failures _ _ _ _ Hg).
    + simpl. intros H. inversion H. auto.
  - pose proof (settle_position_checked s pid now d Hwf) as Hs.
    destruct (Api.settle_position s pid now d) as [[s' resp]|e'];
      [discriminate|].
    simpl. intros H. inversion H; subst. exact Hs.
  - unfold get_position.
    destruct (deref (ledger s) pid); [discriminate|].
    simpl. intros H. inversion H. reflexivity.
  - discriminate.
Qed.

Lemma api_fails_only_as_expected_witness :
  api_raised (api_run api_store sample_api_calls)
    (Settle BackendSpec.sample_id BackendSpec.t_due sample_draws)
  = Some (HTTPException 400 "Position already settled")
  /\ allowed (Settle BackendSpec.sample_id BackendSpec.t_due sample_draws)
       (HTTPException 400 "Position already settled").
Proof.
  assert (H : api_raised (api_run api_store sample_api_calls)
                (Settle BackendSpec.sample_id BackendSpec.t_due sample_draws)
              = Some (HTTPException 400 "Position already settled"))
    by (vm_compute; reflexivity).
  split; [exact H|].
  exact (api_fails_only_as_expected sample_api_calls _ _ H).
Defined.

(** X16: with ordinary draws the API serves every momentum request and every
    open request for a mock match, on whatever store it has reached, and
    the position an open request stores has an entry index between 0 and
    100 and is the one a position request for its id returns. *)
Theorem api_serves_ordinary_draws
    (cs : list api_call) (match_id : string) (d : draws) :
  ordinary d -> is_Some (matches data_store !! match_id) ->
  let s := api_run api_store cs in
  (exists (s' : ApiStore) (momentum : MomentumData),
      get_current_momentum s match_id d = Ok (s', momentum)
      /\ 0 <= mo_momentum_index momentum <= 100)
  /\ (forall (request : OpenPositionRequest) (position_id : string)
             (now : PyTime.datetime),
        req_match_id request = match_id ->
        exists (s' : ApiStore) (position : TradingPosition),
          Api.open_position s request position_id now d
          = Ok (s', position)
          /\ 0 <= entry_index position <= 100
          /\ get_position (ledger s') position_id = Ok position).
Proof.
  intros Hd [m Hm] s.
  destruct (api_run_invariant cs api_store api_store_invariant)
    as (Hwf & Hmatches & Hhist).
  fold s in Hwf, Hmatches, Hhist.
  assert (Hm' : matches (ledger s) !! match_id = Some m)
    by (rewrite Hmatches; exact Hm).
  pose proof (mock_matches match_id m Hm) as [_ Hminute].
  assert (Hsmall : Z.abs (md_current_minute m) < 2 ^ 1000).
  { apply Z.lt_le_trans with (2 ^ 7); [simpl; lia|].
    apply Z.pow_le_mono_r; lia. }
  destruct (GeneratorBounds.generate_returns match_id (md_current_minute m)
              d Hd Hsmall) as (momentum & Hg).
  pose proof (generate_in_range match_id (md_current_minute m) d) as Hrange.
  rewrite Hg in Hrange. destruct Hrange as (_ & _ & _ & Hindex).
  split.
  - unfold get_current_momentum. rewrite Hm', Hg. simpl.
    destruct (Hhist match_id ltac:(eauto)) as [history ->].
    eexists _, momentum. split; [reflexivity|exact Hindex].
  - intros request position_id now Hreq. subst match_id.
    unfold Api.open_position. rewrite Hm', Hg. simpl.
    destruct (BackendProps.open_position_known (ledger s) request
                {| oe_position_id := position_id; oe_now := now;
                   oe_momentum_index := mo_momentum_index momentum |}
                m Hm') as (s1 & -> & _ & _ & _ & Hderef).
    simpl. eexists _, _. split; [reflexivity|].
    split; [exact Hindex|].
    unfold get_position. simpl. simpl in Hderef. rewrite Hderef.
    reflexivity.
Qed.

Lemma api_serves_ordinary_draws_witness :
  ordinary sample_draws /\ is_Some (matches data_store !! "match_003")
  /\ exists (s' : ApiStore) (momentum : MomentumData),
       get_current_momentum (api_run api_store sample_api_calls)
         "match_003" sample_draws = Ok (s', momentum)
       /\ 0 <= mo_momentum_index momentum <= 100.
Proof.
  assert (Hd : ordinary sample_draws).
  { unfold ordinary, moderate.
    repeat split; vm_compute; try reflexivity; exact I. }
  assert (Hm : is_Some (matches data_store !! "match_003"))
    by (vm_compute; eauto).
  split; [exact Hd|]. split; [exact Hm|].
  exact (proj1 (api_serves_ordinary_draws sample_api_calls "match_003"
                  sample_draws Hd Hm)).
Defined.

End ApiProps.

(** ** The ledger *)

Module LedgerProps.
Import PyFloat Backend BackendSpec LedgerSpec.

(** *** What a call does to the store *)

Lemma open_position_store (s : DataStore) (request : OpenPositionRequest)
    (env : open_env) (m : MatchData) :
  matches s !! req_match_id request = Some m ->
  step s (OpenPosition request env)
  = {| matches := matches s;
       heap := heap s ++ [fresh_position request env];
       positions := <[oe_position_id env := length (heap s)]> (positions s);
       user_positions :=
         <[req_wallet_address request :=
             default [] (user_positions s !! req_wallet_address request)
             ++ [oe_position_id env]]> (user_positions s) |}.
Proof.
  intros Hm. simpl. unfold open_position. rewrite Hm. reflexivity.
Qed.

Lemma step_cases (s : DataStore) (c : call) :
  step s c = s
  \/ (exists (request : OpenPositionRequest) (env : open_env)
             (m : MatchData),
        c = OpenPosition request env
        /\ matches s !! req_match_id request = Some m)
  \/ (exists (ref : nat) (position : TradingPosition) (p : spec_float),
        heap s !! ref = Some position
        /\ step s c = settled_store s ref position p).
Proof.
  destruct c as [request env|pid env|pid|wallet]; simpl; auto.
  - destruct (matches s !! req_match_id request) as [m|] eqn:Hm.
    + right; left. eauto.
    + left. unfold open_position. rewrite Hm. reflexivity.
  - destruct (settle_position s pid env) as [[s' resp]|e] eqn:H; [|auto].
    apply BackendProps.settle_position_ok in H
      as (ref & position & dl & we & p & _ & Hpos & _ & _ & _ & _ & _ & ->
          & _).
    right; right. eauto.
Qed.

Lemma step_positions (s : DataStore) (c : call) (pid : string) :
  ~ opens pid c -> positions (step s c) !! pid = positions s !! pid.
Proof.
  intros Hc.
  destruct (step_cases s c)
    as [->|[(request & env & m & -> & Hm)|(ref & position & p & _ & ->)]];
    try reflexivity.
  rewrite (open_position_store s request env m Hm). simpl.
  apply lookup_insert_ne. exact Hc.
Qed.

Lemma run_positions (cs : list call) (pid : string) :
  forall s : DataStore,
    Forall (fun c => ~ opens pid c) cs ->
    positions (run s cs) !! pid = positions s !! pid.
Proof.
  induction cs as [|c cs IH]; intros s Hcs; [reflexivity|].
  apply Forall_cons in Hcs as [Hc Hcs]. simpl.
  rewrite (IH (step s c) Hcs). apply step_positions, Hc.
Qed.

(** X17: a position that was opened is never lost.  After any calls that do
    not open another position under the same id, a position request for
    the id returns the position with the terms it was opened with. *)
Theorem opened_position_is_kept
    (s : DataStore) (request : OpenPositionRequest) (env : open_env)
    (m : MatchData) (cs : list call) :
  matches s !! req_match_id request = Some m ->
  Forall (fun c => ~ opens (oe_position_id env) c) cs ->
  exists position : TradingPosition,
    get_position (run (step s (OpenPosition request env)) cs)
      (oe_position_id env) = Ok position
    /\ same_terms (fresh_position request env) position.
Proof.
  intros Hm Hcs.
  set (s1 := step s (OpenPosition request env)).
  assert (Hs1 : s1 = step s (OpenPosition request env)) by reflexivity.
  rewrite (open_position_store s request env m Hm) in Hs1.
  assert (Hheap : heap s1 !! length (heap s)
                  = Some (fresh_position request env)).
  { rewrite Hs1. simpl. rewrite lookup_app_r by lia.
    rewrite Nat.sub_diag. reflexivity. }
  assert (Hpos : positions s1 !! oe_position_id env
                 = Some (length (heap s))).
  { rewrite Hs1. simpl. apply lookup_insert_eq. }
  destruct (BackendProps.run_keeps_objects cs s1 _ _ Hheap)
    as (position & Hposition & Hterms & _).
  exists position. split; [|exact Hterms].
  unfold get_position, deref.
  rewrite (run_positions cs (oe_position_id env) s1 Hcs), Hpos. simpl.
  rewrite Hposition. reflexivity.
Qed.

Lemma opened_position_is_kept_witness :
  matches data_store !! req_match_id (sample_request LONG (of_int 100) 300)
  = Some (mock_match "match_001" "arsenal" "tottenham" 35 2 1)
  /\ Forall (fun c => ~ opens (oe_position_id (sample_open_env 40)) c)
       [SettlePosition sample_id (settle_at t_due 60);
        OpenPosition (request_of "wallet_B") (second_open_env 55)]
  /\ exists position : TradingPosition,
       get_position
         (run (step data_store
                 (OpenPosition (sample_request LONG (of_int 100) 300)
                    (sample_open_env 40)))
            [SettlePosition sample_id (settle_at t_due 60);
             OpenPosition (request_of "wallet_B") (second_open_env 55)])
         (oe_position_id (sample_open_env 40)) = Ok position
       /\ same_terms
            (fresh_position (sample_request LONG (of_int 100) 300)
               (sample_open_env 40)) position.
Proof.
  assert (Hm : matches data_store
               !! req_match_id (sample_request LONG (of_int 100) 300)
               = Some (mock_match "match_001" "arsenal" "tottenham" 35 2 1))
    by reflexivity.
  assert (Hcs : Forall (fun c => ~ opens (oe_position_id (sample_open_env 40)) c)
                  [SettlePosition sample_id (settle_at t_due 60);
                   OpenPosition (request_of "wallet_B") (second_open_env 55)]).
  { apply Forall_cons_2; [simpl; tauto|].
    apply Forall_cons_2; [simpl; discriminate|]. apply Forall_nil_2. }
  split; [exact Hm|]. split; [exact Hcs|].
  exact (opened_position_is_kept data_store _ _ _ _ Hm Hcs).
Defined.

(** *** The lists of the wallets *)

Lemma initial_linked : linked data_store.
Proof.
  split.
  - intros pid ref H. simpl in H. rewrite lookup_empty in H. discriminate.
  - intros wallet ids pid H. simpl in H. rewrite lookup_empty in H.
    discriminate.
Qed.

Lemma step_linked (s : DataStore) (c : call) :
  linked s -> linked (step s c).
Proof.
  intros [Hrefs Hids].
  destruct (step_cases s c)
    as [->|[(request & env & m & -> & Hm)
           |(ref & position & p & Hpos & ->)]].
  - split; assumption.
  - rewrite (open_position_store s request env m Hm). split; simpl.
    + intros pid ref Hpid.
      apply lookup_insert_Some in Hpid as [[_ <-]|[_ Hpid]].
      * rewrite lookup_app_r by lia. rewrite Nat.sub_diag. simpl. eauto.
      * destruct (Hrefs pid ref Hpid) as [p Hp].
        rewrite lookup_app_l by (apply lookup_lt_Some in Hp; exact Hp).
        eauto.
    + intros wallet ids pid Hw Hin.
      apply lookup_insert_is_Some.
      destruct (decide (oe_position_id env = pid)) as [Heq|Hne];
        [left; exact Heq|right; split; [exact Hne|]].
      apply lookup_insert_Some in Hw as [[_ <-]|[_ Hw]].
      * apply elem_of_app in Hin as [Hin|Hin].
        -- destruct (user_positions s !! req_wallet_address request)
             as [old|] eqn:Hold; simpl in Hin.
           ++ exact (Hids _ old pid Hold Hin).
           ++ apply elem_of_nil in Hin. contradiction.
        -- apply list_elem_of_singleton in Hin. congruence.
      * exact (Hids wallet ids pid Hw Hin).
  - split; simpl.
    + intros pid r Hpid. destruct (Hrefs pid r Hpid) as [q Hq].
      apply lookup_lt_is_Some. rewrite length_insert.
      apply lookup_lt_Some in Hq. exact Hq.
    + exact Hids.
Qed.

Lemma run_linked (cs : list call) :
  forall s : DataStore, linked s -> linked (run s cs).
Proof.
  induction cs as [|c cs IH]; intros s Hs; [exact Hs|].
  simpl. apply IH, step_linked, Hs.
Qed.

Lemma omap_agree {A B : Type} (f g : A -> option B) (l : list A) :
  (forall x : A, x ∈ l -> f x = g x) -> omap f l = omap g l.
Proof.
  induction l as [|x l IH]; intros H; [reflexivity|].
  change (omap f (x :: l))
    with (match f x with Some y => y :: omap f l | None => omap f l end).
  change (omap g (x :: l))
    with (match g x with Some y => y :: omap g l | None => omap g l end).
  rewrite (H x) by (apply list_elem_of_here).
  rewrite IH; [reflexivity|].
  intros y Hy. apply H. apply list_elem_of_further, Hy.
Qed.

(** A new id leaves what the old ids refer to as it was. *)
Lemma deref_after_open (s : DataStore) (request : OpenPositionRequest)
    (env : open_env) (m : MatchData) (pid : string) :
  linked s ->
  matches s !! req_match_id request = Some m ->
  pid <> oe_position_id env ->
  deref (step s (OpenPosition request env)) pid = deref s pid.
Proof.
  intros [Hrefs _] Hm Hne.
  rewrite (open_position_store s request env m Hm).
  unfold deref. simpl. rewrite lookup_insert_ne by congruence.
  destruct (positions s !! pid) as [ref|] eqn:Hpid; [|reflexivity]. simpl.
  destruct (Hrefs pid ref Hpid) as [p Hp].
  apply lookup_app_l. apply lookup_lt_Some in Hp. exact Hp.
Qed.

(** X18: on a store reached from the initial one, an open request for a
    known match under an id that is not in use adds the new position at
    the end of the list of its wallet, and changes the list of no other
    wallet. *)
Theorem open_appends_to_the_wallet
    (cs : list call) (request : OpenPositionRequest) (env : open_env)
    (m : MatchData) :
  let s := run data_store cs in
  matches s !! req_match_id request = Some m ->
  positions s !! oe_position_id env = None ->
  let s' := step s (OpenPosition request env) in
  get_user_positions s' (req_wallet_address request)
  = get_user_positions s (req_wallet_address request)
    ++ [fresh_position request env]
  /\ forall other : string,
       other <> req_wallet_address request ->
       get_user_positions s' other = get_user_positions s other.
Proof.
  intros s Hm Hfresh s'.
  pose proof (run_linked cs data_store initial_linked) as Hlinked.
  fold s in Hlinked.
  assert (Hold : forall (wallet : string) (pid : string),
             pid ∈ default [] (user_positions s !! wallet) ->
             deref s' pid = deref s pid).
  { intros wallet pid Hin.
    apply (deref_after_open s request env m pid Hlinked Hm).
    intros ->.
    destruct (user_positions s !! wallet) as [ids|] eqn:Hw; simpl in Hin.
    - destruct (proj2 Hlinked wallet ids _ Hw Hin) as [ref Href].
      congruence.
    - apply elem_of_nil in Hin. contradiction. }
  assert (Hs' : s' = step s (OpenPosition request env)) by reflexivity.
  rewrite (open_position_store s request env m Hm) in Hs'.
  split.
  - unfold get_user_positions at 1.
    replace (user_positions s' !! req_wallet_address request)
      with (Some (default [] (user_positions s !! req_wallet_address request)
                  ++ [oe_position_id env]))
      by (rewrite Hs'; simpl; rewrite lookup_insert_eq; reflexivity).
    simpl. rewrite omap_app.
    rewrite (omap_agree (deref s') (deref s)) by apply Hold.
    f_equal. simpl.
    destruct (BackendProps.open_position_known s request env m Hm)
      as (s1 & Hs1 & _ & _ & _ & Hderef).
    assert (s' = s1) as -> by (unfold s'; simpl; rewrite Hs1; reflexivity).
    rewrite Hderef. reflexivity.
  - intros other Hother. unfold get_user_positions.
    replace (user_positions s' !! other) with (user_positions s !! other)
      by (rewrite Hs'; simpl; rewrite lookup_insert_ne by congruence;
          reflexivity).
    apply omap_agree. apply Hold.
Qed.

Lemma open_appends_to_the_wallet_witness :
  matches (run data_store
             [OpenPosition (sample_request LONG (of_int 100) 300)
                (sample_open_env 40)])
  !! req_match_id (request_of "wallet_A")
  = Some (mock_match "match_002" "liverpool" "mancity" 67 1 2)
  /\ positions (run data_store
                  [OpenPosition (sample_request LONG (of_int 100) 300)
                     (sample_open_env 40)])
     !! oe_position_id (second_open_env 55) = None
  /\ get_user_positions
       (run data_store
          [OpenPosition (sample_request LONG (of_int 100) 300)
             (sample_open_env 40);
           OpenPosition (request_of "wallet_A") (second_open_env 55)])
       "wallet_A"
     = [fresh_position (sample_request LONG (of_int 100) 300)
          (sample_open_env 40);
        fresh_position (request_of "wallet_A") (second_open_env 55)].
Proof.
  assert (Hm : matches (run data_store
                          [OpenPosition (sample_request LONG (of_int 100) 300)
                             (sample_open_env 40)])
               !! req_match_id (request_of "wallet_A")
               = Some (mock_match "match_002" "liverpool" "mancity" 67 1 2))
    by reflexivity.
  assert (Hfresh : positions (run data_store
                     [OpenPosition (sample_request LONG (of_int 100) 300)
                        (sample_open_env 40)])
                   !! oe_position_id (second_open_env 55) = None)
    by reflexivity.
  split; [exact Hm|]. split; [exact Hfresh|].
  exact (proj1 (open_appends_to_the_wallet
                  [OpenPosition (sample_request LONG (of_int 100) 300)
                     (sample_open_env 40)]
                  (request_of "wallet_A") (second_open_env 55) _ Hm Hfresh)).
Defined.

(** *** Objects that lost their id *)









(** *** The settlement window *)



End LedgerProps.
